(** * Snake: the body model, the movement engine and the session state machine

    A shallow embedding of [main.go] of mikenye/snake.  The game object and the
    snake bodies it points to live in an explicit store, because the Go
    functions receive a [*SnakeBody] that may or may not be the game's own
    [g.SnakeBody].  Nil dereferences are the only way the Go code can fail;
    they are the [Panic] result.  The two unbounded loops that wait for a
    random draw take fuel. *)

From Stdlib Require Import ZArith Lia Bool.
From stdpp Require Import gmap list.

Local Open Scope Z_scope.

(** ** Go's [int]: 64-bit two's complement *)

Module GoInt.

Definition min_int : Z := - 2 ^ 63.
Definition max_int : Z := 2 ^ 63 - 1.

Definition wrap (z : Z) : Z := (z + 2 ^ 63) mod 2 ^ 64 - 2 ^ 63.

Definition add (a b : Z) : Z := wrap (a + b).
Definition sub (a b : Z) : Z := wrap (a - b).

(* Go's [/] truncates towards zero. *)
Definition div (a b : Z) : Z := wrap (Z.quot a b).

Definition in_range (z : Z) : Prop := min_int <= z <= max_int.

End GoInt.

(** ** Types *)

(* [snakeDirection]: UP = 1, DOWN = 2, LEFT = 3, RIGHT = 4 *)
Inductive snakeDirection := UP | DOWN | LEFT | RIGHT.

Global Instance snakeDirection_eq_dec : EqDecision snakeDirection.
Proof. solve_decision. Defined.

(* the conversion [snakeDirection(n)] on the values that name a direction *)
Definition snakeDirection_of_int (n : Z) : option snakeDirection :=
  if n =? 1 then Some UP
  else if n =? 2 then Some DOWN
  else if n =? 3 then Some LEFT
  else if n =? 4 then Some RIGHT
  else None.

Inductive gameState :=
  StateMainMenu | StateGameStart | StateInGame | StateGameEnd | StateGameOver.

Global Instance gameState_eq_dec : EqDecision gameState.
Proof. solve_decision. Defined.

(* [snakeTile]: 4 type bits + 4 rotation bits *)
Definition SnakeTypeHead : Z := 0.
Definition SnakeTypeBody : Z := 16.
Definition SnakeTypeBend : Z := 32.
Definition SnakeTypeTail : Z := 64.

Definition SnakeRotationNone : Z := 0.
Definition SnakeRotationCCW90 : Z := 1.
Definition SnakeRotationCW90 : Z := 2.
Definition SnakeRotation180 : Z := 4.

Definition SnakeHeadUp : Z := SnakeTypeHead + SnakeRotationNone.
Definition SnakeHeadDown : Z := SnakeTypeHead + SnakeRotation180.
Definition SnakeHeadLeft : Z := SnakeTypeHead + SnakeRotationCCW90.
Definition SnakeHeadRight : Z := SnakeTypeHead + SnakeRotationCW90.

Definition SnakeBodyUp : Z := SnakeTypeBody + SnakeRotationNone.
Definition SnakeBodyDown : Z := SnakeTypeBody + SnakeRotation180.
Definition SnakeBodyLeft : Z := SnakeTypeBody + SnakeRotationCCW90.
Definition SnakeBodyRight : Z := SnakeTypeBody + SnakeRotationCW90.

Definition SnakeBendLD : Z := SnakeTypeBend + SnakeRotationNone.
Definition SnakeBendRU : Z := SnakeTypeBend + SnakeRotation180.
Definition SnakeBendRD : Z := SnakeTypeBend + SnakeRotationCCW90.
Definition SnakeBendLU : Z := SnakeTypeBend + SnakeRotationCW90.

Definition SnakeTailUp : Z := SnakeTypeTail + SnakeRotationNone.
Definition SnakeTailDown : Z := SnakeTypeTail + SnakeRotation180.
Definition SnakeTailLeft : Z := SnakeTypeTail + SnakeRotationCCW90.
Definition SnakeTailRight : Z := SnakeTypeTail + SnakeRotationCW90.

Module Food.
Record Food := mk { x : Z; y : Z }.
End Food.

(* A segment without its [next] pointer: the chain from [Head] is a list, the
   head segment first, [next == nil] at the last element.  Segments are
   allocated by [SpawnSnake] and [SnakeAdvance] only and linked into one body,
   so no two chains share a node. *)
Module Seg.
Record SnakeBodySegment :=
  mk { x : Z; y : Z; facing : snakeDirection; tile : Z; skeleton : bool }.

Definition set_tile (t : Z) (s : SnakeBodySegment) : SnakeBodySegment :=
  mk (x s) (y s) (facing s) t (skeleton s).

Definition set_skeleton (k : bool) (s : SnakeBodySegment) : SnakeBodySegment :=
  mk (x s) (y s) (facing s) (tile s) k.
End Seg.

(* [Head] is the chain ([[]] for a nil head); [length] is the separate
   counter the code keeps, which nothing ties to the chain. *)
Module Body.
Record SnakeBody :=
  mk { Head : list Seg.SnakeBodySegment; grow : bool; length : Z }.

Definition set_Head (h : list Seg.SnakeBodySegment) (b : SnakeBody) : SnakeBody :=
  mk h (grow b) (length b).
Definition set_grow (g : bool) (b : SnakeBody) : SnakeBody :=
  mk (Head b) g (length b).
Definition set_length (n : Z) (b : SnakeBody) : SnakeBody :=
  mk (Head b) (grow b) n.
End Body.

(* a [*SnakeBody] *)
Definition loc := positive.

(* The [Game] object without its images. *)
Module G.
Record Game := mk {
  state : gameState;
  width : Z;
  height : Z;
  SnakeBody : option loc;
  SnakeDirection : snakeDirection;
  food : option Food.Food;
  ticks : Z;
  ticksPerMovement : Z;
  score : Z;
  countDownNum : Z;
  countDownTicks : Z;
  skeleTicks : Z;
  skeleTicksPerSegment : Z;
  tongueShow : bool;
  tongueTicks : Z;
  tongueTicksMin : Z
}.

Definition set_state v g :=
  mk v (width g) (height g) (SnakeBody g) (SnakeDirection g) (food g) (ticks g)
     (ticksPerMovement g) (score g) (countDownNum g) (countDownTicks g)
     (skeleTicks g) (skeleTicksPerSegment g) (tongueShow g) (tongueTicks g)
     (tongueTicksMin g).
Definition set_SnakeBody v g :=
  mk (state g) (width g) (height g) v (SnakeDirection g) (food g) (ticks g)
     (ticksPerMovement g) (score g) (countDownNum g) (countDownTicks g)
     (skeleTicks g) (skeleTicksPerSegment g) (tongueShow g) (tongueTicks g)
     (tongueTicksMin g).
Definition set_SnakeDirection v g :=
  mk (state g) (width g) (height g) (SnakeBody g) v (food g) (ticks g)
     (ticksPerMovement g) (score g) (countDownNum g) (countDownTicks g)
     (skeleTicks g) (skeleTicksPerSegment g) (tongueShow g) (tongueTicks g)
     (tongueTicksMin g).
Definition set_food v g :=
  mk (state g) (width g) (height g) (SnakeBody g) (SnakeDirection g) v (ticks g)
     (ticksPerMovement g) (score g) (countDownNum g) (countDownTicks g)
     (skeleTicks g) (skeleTicksPerSegment g) (tongueShow g) (tongueTicks g)
     (tongueTicksMin g).
Definition set_ticks v g :=
  mk (state g) (width g) (height g) (SnakeBody g) (SnakeDirection g) (food g) v
     (ticksPerMovement g) (score g) (countDownNum g) (countDownTicks g)
     (skeleTicks g) (skeleTicksPerSegment g) (tongueShow g) (tongueTicks g)
     (tongueTicksMin g).
Definition set_ticksPerMovement v g :=
  mk (state g) (width g) (height g) (SnakeBody g) (SnakeDirection g) (food g)
     (ticks g) v (score g) (countDownNum g) (countDownTicks g)
     (skeleTicks g) (skeleTicksPerSegment g) (tongueShow g) (tongueTicks g)
     (tongueTicksMin g).
Definition set_score v g :=
  mk (state g) (width g) (height g) (SnakeBody g) (SnakeDirection g) (food g)
     (ticks g) (ticksPerMovement g) v (countDownNum g) (countDownTicks g)
     (skeleTicks g) (skeleTicksPerSegment g) (tongueShow g) (tongueTicks g)
     (tongueTicksMin g).
Definition set_countDownNum v g :=
  mk (state g) (width g) (height g) (SnakeBody g) (SnakeDirection g) (food g)
     (ticks g) (ticksPerMovement g) (score g) v (countDownTicks g)
     (skeleTicks g) (skeleTicksPerSegment g) (tongueShow g) (tongueTicks g)
     (tongueTicksMin g).
Definition set_countDownTicks v g :=
  mk (state g) (width g) (height g) (SnakeBody g) (SnakeDirection g) (food g)
     (ticks g) (ticksPerMovement g) (score g) (countDownNum g) v
     (skeleTicks g) (skeleTicksPerSegment g) (tongueShow g) (tongueTicks g)
     (tongueTicksMin g).
Definition set_skeleTicks v g :=
  mk (state g) (width g) (height g) (SnakeBody g) (SnakeDirection g) (food g)
     (ticks g) (ticksPerMovement g) (score g) (countDownNum g) (countDownTicks g)
     v (skeleTicksPerSegment g) (tongueShow g) (tongueTicks g)
     (tongueTicksMin g).
Definition set_tongueShow v g :=
  mk (state g) (width g) (height g) (SnakeBody g) (SnakeDirection g) (food g)
     (ticks g) (ticksPerMovement g) (score g) (countDownNum g) (countDownTicks g)
     (skeleTicks g) (skeleTicksPerSegment g) v (tongueTicks g)
     (tongueTicksMin g).
Definition set_tongueTicks v g :=
  mk (state g) (width g) (height g) (SnakeBody g) (SnakeDirection g) (food g)
     (ticks g) (ticksPerMovement g) (score g) (countDownNum g) (countDownTicks g)
     (skeleTicks g) (skeleTicksPerSegment g) (tongueShow g) v
     (tongueTicksMin g).
End G.

(** ** The store and the monad of the Go methods *)

(* [draws] is the stream behind [math/rand]; [cursor] counts the draws used. *)
Record World := mkWorld {
  game : G.Game;
  heap : gmap loc Body.SnakeBody;
  draws : nat -> Z;
  cursor : nat
}.

Definition set_game (g : G.Game) (w : World) : World :=
  mkWorld g (heap w) (draws w) (cursor w).
Definition set_heap (h : gmap loc Body.SnakeBody) (w : World) : World :=
  mkWorld (game w) h (draws w) (cursor w).
Definition set_cursor (c : nat) (w : World) : World :=
  mkWorld (game w) (heap w) (draws w) c.

Inductive result (A : Type) :=
  | Ok (a : A) (w : World)
  | Panic
  | OutOfFuel.
Arguments Ok {A} a w.
Arguments Panic {A}.
Arguments OutOfFuel {A}.

Definition M (A : Type) : Type := World -> result A.

Definition ret {A} (a : A) : M A := fun w => Ok a w.
Definition bind {A B} (m : M A) (k : A -> M B) : M B :=
  fun w => match m w with
           | Ok a w' => k a w'
           | Panic => Panic
           | OutOfFuel => OutOfFuel
           end.
Definition panic {A} : M A := fun _ => Panic.
Definition out_of_fuel {A} : M A := fun _ => OutOfFuel.

Declare Scope go_scope.
Delimit Scope go_scope with go.
Notation "'let*' x ':=' m 'in' k" := (bind m (fun x => k))
  (at level 10, x name, m at level 100, k at level 200) : go_scope.
Notation "'let*' ' p ':=' m 'in' k" :=
  (bind m (fun x => match x with p => k end))
  (at level 10, p pattern, m at level 100, k at level 200) : go_scope.
Notation "m ';;;' k" := (bind m (fun _ => k))
  (at level 100, k at level 200, right associativity) : go_scope.
Local Open Scope go_scope.

Definition get_game : M G.Game := fun w => Ok (game w) w.
Definition modify_game (f : G.Game -> G.Game) : M unit :=
  fun w => Ok tt (set_game (f (game w)) w).

(* dereference a [*SnakeBody] *)
Definition deref (p : option loc) : M Body.SnakeBody :=
  fun w => match p with
           | None => Panic
           | Some l => match heap w !! l with
                       | Some b => Ok b w
                       | None => Panic
                       end
           end.

(* write through a [*SnakeBody] *)
Definition store (p : option loc) (b : Body.SnakeBody) : M unit :=
  fun w => match p with
           | None => Panic
           | Some l => Ok tt (set_heap (<[l := b]> (heap w)) w)
           end.

(* [&sb] for a new body *)
Definition alloc (b : Body.SnakeBody) : M loc :=
  fun w => let l := fresh (dom (heap w)) in
           Ok l (set_heap (<[l := b]> (heap w)) w).

(* [rand.Intn(n)]: panics for n <= 0, else a value in [0, n) *)
Definition Intn (n : Z) : M Z :=
  fun w => if n <=? 0 then Panic
           else Ok (draws w (cursor w) mod n) (set_cursor (S (cursor w)) w).

(** ** The body *)

(* the arithmetic of [SnakeGetNextPos] on the head segment [h] *)
Definition next_pos (width height : Z) (h : Seg.SnakeBodySegment)
    (d : snakeDirection) : Z * Z :=
  let '(x, y) :=
    match d with
    | UP => (Seg.x h, GoInt.sub (Seg.y h) 1)
    | DOWN => (Seg.x h, GoInt.add (Seg.y h) 1)
    | LEFT => (GoInt.sub (Seg.x h) 1, Seg.y h)
    | RIGHT => (GoInt.add (Seg.x h) 1, Seg.y h)
    end in
  (* bounds checking - wrap around the screen if needed *)
  let x := if x <? 0 then GoInt.sub width 1 else x in
  let x := if x >? GoInt.sub width 1 then 0 else x in
  let y := if y <? 0 then GoInt.sub height 1 else y in
  let y := if y >? GoInt.sub height 1 then 0 else y in
  (x, y).

(* works out the next position of the snake *)
Definition SnakeGetNextPos (SnakeBody : option loc) (d : snakeDirection) : M (Z * Z) :=
  let* g := get_game in
  let* b := deref SnakeBody in
  match Body.Head b with
  | [] => panic
  | h :: _ => ret (next_pos (G.width g) (G.height g) h d)
  end.

(* the scan of [SnakeCheckDeath] and [SpawnFood] from a non-nil segment on *)
Definition occupies (x y : Z) (segs : list Seg.SnakeBodySegment) : bool :=
  existsb (fun seg => (Seg.x seg =? x) && (Seg.y seg =? y)) segs.

(* check to see if the head of the snake will eat the snake body *)
Definition SnakeCheckDeath (SnakeBody : option loc) (d : snakeDirection) : M bool :=
  let* ' (x, y) := SnakeGetNextPos SnakeBody d in
  let* g := get_game in
  let* active := deref (G.SnakeBody g) in
  match Body.Head active with
  | [] => panic
  | _ :: [] => panic
  | _ :: rest => ret (occupies x y rest)
  end.

(* check to see if the head of the snake is on the food tile *)
Definition SnakeCheckFood (SnakeBody : option loc) : M bool :=
  let* b := deref SnakeBody in
  let* g := get_game in
  match Body.Head b, G.food g with
  | seg :: _, Some f =>
      if (Seg.x seg =? Food.x f) && (Seg.y seg =? Food.y f) then
        modify_game (G.set_score (GoInt.add (G.score g) 1)) ;;;
        store SnakeBody (Body.set_grow true b) ;;;
        ret true
      else ret false
  | _, _ => panic
  end.

(* [for i := 1; i < bound; i++ { prevSeg = seg; seg = seg.next }] with the two
   pointers as positions in the chain; position [length chain] is nil, and
   reading [seg.next] there panics. *)
Fixpoint tail_walk (iterations : nat) (chain : list Seg.SnakeBodySegment)
    (prevSeg seg : nat) : option (nat * nat) :=
  match iterations with
  | O => Some (prevSeg, seg)
  | S k =>
      match chain !! seg with
      | None => None
      | Some _ => tail_walk k chain seg (S seg)
      end
  end.

(* set tail direction: [math.Abs(float64(a-b)) == 1] holds exactly when the
   int difference is 1 or -1 *)
Definition tail_tile (prevSeg seg : Seg.SnakeBodySegment) : Z :=
  if Seg.x prevSeg <? Seg.x seg then
    if Z.abs (GoInt.sub (Seg.x prevSeg) (Seg.x seg)) =? 1
    then SnakeTailLeft else SnakeTailRight
  else if Seg.x prevSeg >? Seg.x seg then
    if Z.abs (GoInt.sub (Seg.x prevSeg) (Seg.x seg)) =? 1
    then SnakeTailRight else SnakeTailLeft
  else if Seg.y prevSeg <? Seg.y seg then
    if Z.abs (GoInt.sub (Seg.y prevSeg) (Seg.y seg)) =? 1
    then SnakeTailUp else SnakeTailDown
  else if Seg.y prevSeg >? Seg.y seg then
    if Z.abs (GoInt.sub (Seg.y prevSeg) (Seg.y seg)) =? 1
    then SnakeTailDown else SnakeTailUp
  else Seg.tile seg.

(* delete tail segment *)
Definition SnakeRemoveTail (SnakeBody : option loc) : M unit :=
  let* b := deref SnakeBody in
  let chain := Body.Head b in
  (* the loop body runs for i = 1 .. length-2 *)
  let iterations := Z.to_nat (GoInt.sub (Body.length b) 1 - 1) in
  match tail_walk iterations chain 0%nat 0%nat with
  | None => panic
  | Some (iprev, iseg) =>
      match chain !! iprev, chain !! iseg with
      | Some prevSeg, Some seg =>
          (* seg.next = nil; SnakeBody.length--; seg.tile = ... *)
          let seg' := Seg.set_tile (tail_tile prevSeg seg) seg in
          store SnakeBody
            (Body.mk (take iseg chain ++ [seg']) (Body.grow b)
                     (GoInt.sub (Body.length b) 1))
      | _, _ => panic
      end
  end.

(* the tile the old head turns into, by the new direction and its facing *)
Definition advance_tiles (d facing : snakeDirection) : Z * Z :=
  match d with
  | UP =>
      (SnakeHeadUp,
       match facing with
       | LEFT => SnakeBendRU
       | RIGHT => SnakeBendLU
       | _ => SnakeBodyUp
       end)
  | DOWN =>
      (SnakeHeadDown,
       match facing with
       | LEFT => SnakeBendRD
       | RIGHT => SnakeBendLD
       | _ => SnakeBodyDown
       end)
  | LEFT =>
      (SnakeHeadLeft,
       match facing with
       | UP => SnakeBendLD
       | DOWN => SnakeBendLU
       | _ => SnakeBodyLeft
       end)
  | RIGHT =>
      (SnakeHeadRight,
       match facing with
       | UP => SnakeBendRD
       | DOWN => SnakeBendRU
       | _ => SnakeBodyRight
       end)
  end.

(* advance the snake in direction d by adding a new head piece *)
Definition SnakeAdvance (SnakeBody : option loc) (d : snakeDirection) : M unit :=
  let* b := deref SnakeBody in
  match Body.Head b with
  | [] => panic
  | h :: rest =>
      let '(headTile, oldTile) := advance_tiles d (Seg.facing h) in
      store SnakeBody (Body.set_Head (Seg.set_tile oldTile h :: rest) b) ;;;
      let* ' (x, y) := SnakeGetNextPos SnakeBody d in
      let* b := deref SnakeBody in
      let seg := Seg.mk x y d headTile false in
      store SnakeBody
        (Body.mk (seg :: Body.Head b) (Body.grow b) (GoInt.add (Body.length b) 1))
  end.

(* Create a new snake *)
Definition SpawnSnake (startXPos startYPos : Z) : M loc :=
  let segTail := Seg.mk startXPos (GoInt.add startYPos 2) UP SnakeTailUp false in
  let segMiddle := Seg.mk startXPos (GoInt.add startYPos 1) UP SnakeBodyUp false in
  let segHead := Seg.mk startXPos startYPos UP SnakeHeadUp false in
  alloc (Body.mk [segHead; segMiddle; segTail] false 3).

(* spawn the food tile at a random position not occupied by the snake *)
Fixpoint SpawnFood (fuel : nat) : M unit :=
  match fuel with
  | O => out_of_fuel
  | S fuel' =>
      let* g := get_game in
      let* x := Intn (GoInt.sub (G.width g) 1) in
      let* y := Intn (GoInt.sub (G.height g) 1) in
      let* active := deref (G.SnakeBody g) in
      match Body.Head active with
      | [] => panic
      | chain =>
          if occupies x y chain then SpawnFood fuel'
          else modify_game (G.set_food (Some (Food.mk x y)))
      end
  end.

(* set initial game state *)
Definition Reset (fuel : nat) : M unit :=
  modify_game (G.set_ticksPerMovement 30) ;;;
  modify_game (G.set_SnakeDirection UP) ;;;
  modify_game (G.set_countDownNum 3) ;;;
  modify_game (G.set_score 0) ;;;
  modify_game (G.set_skeleTicks 0) ;;;
  let* g := get_game in
  let* sb := SpawnSnake (GoInt.div (G.width g) 2) (GoInt.div (G.height g) 2) in
  modify_game (G.set_SnakeBody (Some sb)) ;;;
  SpawnFood fuel.

(* [for { d = snakeDirection(rand.Intn(3) + 1); ... }] *)
Fixpoint RandomSnakeDirection_loop (fuel : nat) (currentDirection : snakeDirection)
    : M snakeDirection :=
  match fuel with
  | O => out_of_fuel
  | S fuel' =>
      let* n := Intn 3 in
      match snakeDirection_of_int (GoInt.add n 1) with
      | Some d =>
          match currentDirection with
          | UP | DOWN =>
              if bool_decide (d = LEFT) || bool_decide (d = RIGHT) then ret d
              else RandomSnakeDirection_loop fuel' currentDirection
          | LEFT | RIGHT =>
              if bool_decide (d = UP) || bool_decide (d = DOWN) then ret d
              else RandomSnakeDirection_loop fuel' currentDirection
          end
      | None => RandomSnakeDirection_loop fuel' currentDirection
      end
  end.

(* return a random direction for the snake *)
Definition RandomSnakeDirection (fuel : nat) (currentDirection : snakeDirection)
    : M snakeDirection :=
  (* should we change direction? *)
  let* n := Intn 100 in
  if n <=? 50 then ret currentDirection
  else RandomSnakeDirection_loop fuel currentDirection.

(* [for i := 0; i <= rand.Intn(100); i++ { g.SnakeAdvance(...) }]: the bound is
   drawn again before every iteration and is at most 99, so [bound] = 101
   rounds are never used up *)
Fixpoint grow_random_snake (fuel bound : nat) (i : Z) : M unit :=
  match bound with
  | O => out_of_fuel
  | S bound' =>
      let* n := Intn 100 in
      if i <=? n then
        let* g := get_game in
        let* b := deref (G.SnakeBody g) in
        match Body.Head b with
        | [] => panic
        | h :: _ =>
            let* d := RandomSnakeDirection fuel (Seg.facing h) in
            SnakeAdvance (G.SnakeBody g) d ;;;
            grow_random_snake fuel bound' (GoInt.add i 1)
        end
      else ret tt
  end.

Definition ChangeState (fuel : nat) (s : gameState) : M unit :=
  match s with
  | StateMainMenu =>
      Reset fuel ;;;
      (* grow a random snake *)
      grow_random_snake fuel 101 0 ;;;
      (* fast movement speed for background snake *)
      modify_game (G.set_ticksPerMovement 5)
  | StateGameStart => Reset fuel
  | StateInGame => ret tt
  | StateGameEnd => ret tt
  | StateGameOver => ret tt
  end ;;;
  modify_game (G.set_state s).

(** ** The movement engine *)

(* move snake forward one segment in direction d
   will check for death condition if checkDeath is true
   will eat food if checkFood is true *)
Definition SnakeMove (fuel : nat) (SnakeBody : option loc) (d : snakeDirection)
    (checkDeath checkFood : bool) : M unit :=
  let* dead := (if checkDeath then SnakeCheckDeath SnakeBody d else ret false) in
  if dead then ChangeState fuel StateGameEnd
  else
    let* b := deref SnakeBody in
    (if negb (Body.grow b) then
       SnakeRemoveTail SnakeBody ;;;
       SnakeAdvance SnakeBody d
     else
       SnakeAdvance SnakeBody d ;;;
       let* b := deref SnakeBody in
       store SnakeBody (Body.set_grow false b)) ;;;
    if checkFood then
      let* ate := SnakeCheckFood SnakeBody in
      if ate then
        let* b := deref SnakeBody in
        store SnakeBody (Body.set_grow true b) ;;;
        SpawnFood fuel
      else ret tt
    else ret tt.

(** ** The session state machine *)

(* what [ebiten.IsKeyPressed] answers during one tick *)
Module Keys.
Record Keys := mk {
  ArrowUp : bool; ArrowDown : bool; ArrowLeft : bool; ArrowRight : bool;
  Space : bool; Escape : bool; Q : bool
}.
Definition none : Keys := mk false false false false false false false.
End Keys.

(* [g.SnakeBody.Head.facing] *)
Definition head_facing : M snakeDirection :=
  let* g := get_game in
  let* b := deref (G.SnakeBody g) in
  match Body.Head b with
  | [] => panic
  | h :: _ => ret (Seg.facing h)
  end.

(* random snake tongue *)
Definition RandomSnakeTongue : M unit :=
  let* g := get_game in
  modify_game (G.set_tongueTicks (GoInt.add (G.tongueTicks g) 1)) ;;;
  let* g := get_game in
  if G.tongueTicks g >=? G.tongueTicksMin g then
    (if G.tongueShow g then modify_game (G.set_tongueShow false)
     else
       let* n := Intn 10000 in
       if n >? 7000 then modify_game (G.set_tongueShow true) else ret tt) ;;;
    modify_game (G.set_tongueTicks 0)
  else ret tt.

(* [40 - int(math.Min(float64(g.score), 33))]: the conversion to float64 is
   exact for every score of magnitude up to 2^53, and a score above 33 is cut
   to 33 whatever its rounding *)
Definition speed (score : Z) : Z := GoInt.sub 40 (Z.min score 33).

(* update function for when in game *)
Definition UpdateInGame (fuel : nat) (k : Keys.Keys) : M unit :=
  (* handle input *)
  (if Keys.ArrowUp k then
     let* f := head_facing in
     if bool_decide (f = LEFT) || bool_decide (f = RIGHT)
     then modify_game (G.set_SnakeDirection UP) else ret tt
   else if Keys.ArrowDown k then
     let* f := head_facing in
     if bool_decide (f = LEFT) || bool_decide (f = RIGHT)
     then modify_game (G.set_SnakeDirection DOWN) else ret tt
   else if Keys.ArrowLeft k then
     let* f := head_facing in
     if bool_decide (f = UP) || bool_decide (f = DOWN)
     then modify_game (G.set_SnakeDirection LEFT) else ret tt
   else if Keys.ArrowRight k then
     let* f := head_facing in
     if bool_decide (f = UP) || bool_decide (f = DOWN)
     then modify_game (G.set_SnakeDirection RIGHT) else ret tt
   else ret tt) ;;;
  (* movement speed *)
  let* g := get_game in
  modify_game (G.set_ticks (GoInt.add (G.ticks g) 1)) ;;;
  let* g := get_game in
  (if G.ticks g >=? G.ticksPerMovement g then
     modify_game (G.set_ticks 0) ;;;
     SnakeMove fuel (G.SnakeBody g) (G.SnakeDirection g) true true ;;;
     let* g := get_game in
     modify_game (G.set_ticksPerMovement (speed (G.score g)))
   else ret tt) ;;;
  (* random snake tongue *)
  RandomSnakeTongue.

(* update function for when in game over state *)
Definition UpdateGameOver (fuel : nat) (k : Keys.Keys) : M unit :=
  if Keys.Space k then ChangeState fuel StateGameStart
  else if Keys.Escape k then ChangeState fuel StateMainMenu
  else ret tt.

(* the scan of [UpdateEndGame]: the first segment that is not a skeleton yet
   becomes one; [None] when there is none left *)
Fixpoint skeletonize (chain : list Seg.SnakeBodySegment)
    : option (list Seg.SnakeBodySegment) :=
  match chain with
  | [] => None
  | seg :: rest =>
      if negb (Seg.skeleton seg) then Some (Seg.set_skeleton true seg :: rest)
      else match skeletonize rest with
           | Some rest' => Some (seg :: rest')
           | None => None
           end
  end.

(* update function for when in end game state *)
Definition UpdateEndGame (fuel : nat) : M unit :=
  (* turn snake into skeleton, one segment at a time *)
  let* g := get_game in
  modify_game (G.set_skeleTicks (GoInt.add (G.skeleTicks g) 1)) ;;;
  let* g := get_game in
  if G.skeleTicks g >=? G.skeleTicksPerSegment g then
    modify_game (G.set_skeleTicks 0) ;;;
    let* b := deref (G.SnakeBody g) in
    match Body.Head b with
    | [] => panic
    | chain =>
        match skeletonize chain with
        | Some chain' => store (G.SnakeBody g) (Body.set_Head chain' b)
        | None =>
            (* if all segments are skeleton advance to game over state *)
            ChangeState fuel StateGameOver
        end
    end
  else ret tt.

(* update main menu, move random background snake *)
Definition UpdateMainMenu (fuel : nat) (k : Keys.Keys) : M unit :=
  (* press space to start *)
  (if Keys.Space k then ChangeState fuel StateGameStart else ret tt) ;;;
  (* movement speed & random direction *)
  let* g := get_game in
  modify_game (G.set_ticks (GoInt.add (G.ticks g) 1)) ;;;
  let* g := get_game in
  (if G.ticks g >=? G.ticksPerMovement g then
     modify_game (G.set_ticks 0) ;;;
     let* f := head_facing in
     let* d := RandomSnakeDirection fuel f in
     SnakeMove fuel (G.SnakeBody g) d false false
   else ret tt) ;;;
  (* random snake tongue *)
  RandomSnakeTongue.

(* what [Update] returns *)
Inductive error := nil | QPressed.

(* update function, ebiten calls this every tick (60 times per second) *)
Definition Update (fuel : nat) (k : Keys.Keys) : M error :=
  (* Press Q to quit regardless of state *)
  if Keys.Q k then ret QPressed
  else
    let* g := get_game in
    match G.state g with
    | StateMainMenu => UpdateMainMenu fuel k
    | StateGameStart =>
        (* count down to game start *)
        modify_game (G.set_countDownTicks (GoInt.add (G.countDownTicks g) 1)) ;;;
        let* g := get_game in
        (if G.countDownTicks g >=? 60 then
           modify_game (G.set_countDownNum (GoInt.sub (G.countDownNum g) 1)) ;;;
           modify_game (G.set_countDownTicks 0)
         else ret tt) ;;;
        (* if countdown finished, progress to in-game *)
        let* g := get_game in
        if G.countDownNum g <? 0 then ChangeState fuel StateInGame else ret tt
    | StateInGame => UpdateInGame fuel k
    | StateGameEnd => UpdateEndGame fuel
    | StateGameOver => UpdateGameOver fuel k
    end ;;;
    ret nil.

(* create a new game object; the fields that [Reset] and [ChangeState] assign
   before anything reads them start at an arbitrary value here, the others at
   Go's zero value.  The title screen drawn in between touches no game field. *)
Definition NewGame (fuel : nat) (width height : Z) : M unit :=
  modify_game (fun _ =>
    G.mk StateMainMenu width height None UP None 0 0 0 0 0 0 2 false 0 20) ;;;
  (* set initial game state *)
  Reset fuel ;;;
  ChangeState fuel StateMainMenu.

(* [n] ticks with no key held *)
Fixpoint idle_ticks (fuel n : nat) : M unit :=
  match n with
  | O => ret tt
  | S n' => Update fuel Keys.none ;;; idle_ticks fuel n'
  end.

(** ** Sample states *)

(* the 27 x 20 board of [main], nothing allocated yet *)
Definition board : G.Game :=
  G.mk StateInGame 27 20 None UP None 0 30 0 3 0 0 2 false 0 20.

Definition sample_draws (n : nat) : Z := Z.of_nat n * 7 + 3.

Definition seg (x y : Z) (facing : snakeDirection) (tile : Z) : Seg.SnakeBodySegment :=
  Seg.mk x y facing tile false.

(* a snake of five curled up so that turning left from the head at (5,5)
   runs into its own tail segment at (4,5) *)
Definition curled : Body.SnakeBody :=
  Body.mk [seg 5 5 UP SnakeHeadUp; seg 5 6 RIGHT SnakeBendLU;
           seg 4 6 DOWN SnakeBendRD; seg 4 5 DOWN SnakeTailDown] false 4.

(* a straight snake of three, as spawned at (13,10) *)
Definition straight : Body.SnakeBody :=
  Body.mk [seg 13 10 UP SnakeHeadUp; seg 13 11 UP SnakeBodyUp;
           seg 13 12 UP SnakeTailUp] false 3.

(* a game in play with the curled snake *)
Definition playing_curled : World :=
  mkWorld (G.set_food (Some (Food.mk 20 3)) (G.set_SnakeBody (Some 1%positive) board))
          {[ 1%positive := curled ]} sample_draws 0.

(* a game in play with the straight snake, the curled one kept aside *)
Definition playing_straight : World :=
  mkWorld (G.set_food (Some (Food.mk 20 3)) (G.set_SnakeBody (Some 1%positive) board))
          {[ 1%positive := straight; 2%positive := curled ]} sample_draws 0.

(* the straight snake one tick before its next move *)
Definition about_to_move : World :=
  set_game (G.set_ticks 29 (game playing_straight)) playing_straight.

Definition after_move : World :=
  match Update 10 Keys.none about_to_move with
  | Ok _ w => w
  | _ => about_to_move
  end.

(* the straight snake after a tick on which no move was due *)
Definition after_wait : World :=
  match Update 10 Keys.none playing_straight with
  | Ok _ w => w
  | _ => playing_straight
  end.

(* a session from the start of the program: the menu, Space, the countdown *)
Definition empty_world : World := mkWorld board ∅ sample_draws 0.

Definition space : Keys.Keys := Keys.mk false false false false true false false.

Definition session_start : M unit :=
  NewGame 50 27 20 ;;; Update 50 space ;;; idle_ticks 50 240.

Definition after_food : World :=
  match SpawnFood 10 playing_straight with
  | Ok _ w => w
  | _ => playing_straight
  end.

(* a body of one segment whose counter says 1 *)
Definition lone : Body.SnakeBody := Body.mk [seg 5 5 UP SnakeHeadUp] false 1.

Definition lone_world : World :=
  mkWorld (G.set_SnakeBody (Some 1%positive) board) {[ 1%positive := lone ]}
          sample_draws 0.

(* a stream whose first draw makes [RandomSnakeDirection] turn and whose second
   picks LEFT *)
Definition turning_draws (n : nat) : Z :=
  match n with
  | O => 77
  | _ => 2
  end.

Definition turning_world : World :=
  mkWorld (G.set_SnakeBody (Some 1%positive) board) {[ 1%positive := straight ]}
          turning_draws 0.

(* a snake of five at the moment it bit itself *)
Definition five : Body.SnakeBody :=
  Body.mk [seg 5 5 UP SnakeHeadUp; seg 5 6 RIGHT SnakeBendLU;
           seg 4 6 DOWN SnakeBendRD; seg 4 5 DOWN SnakeBodyDown;
           seg 4 4 DOWN SnakeTailDown] false 5.

Definition dying_five : World :=
  mkWorld (G.set_state StateGameEnd (G.set_SnakeBody (Some 1%positive) board))
          {[ 1%positive := five ]} sample_draws 0.

(** ** Vocabulary of the statements *)

(* the chain with its first [k] segments turned into skeleton *)
Definition marked (k : nat) (chain : list Seg.SnakeBodySegment)
    : list Seg.SnakeBodySegment :=
  map (Seg.set_skeleton true) (take k chain) ++ drop k chain.

(* the dying phase with the first [k] segments of [chain] turned and the
   skeleton timer at [ticks] *)
Definition dying_at (p : loc) (chain : list Seg.SnakeBodySegment) (k : nat)
    (ticks : Z) (w : World) : Prop :=
  G.state (game w) = StateGameEnd /\
  G.SnakeBody (game w) = Some p /\
  G.skeleTicks (game w) = ticks /\
  G.skeleTicksPerSegment (game w) = 2 /\
  exists b, heap w !! p = Some b /\ Body.Head b = marked k chain.

(* the game's own snake has a counter that is the number of its segments, and
   at least three of them *)
Definition snake_ok (w : World) : Prop :=
  exists p b,
    G.SnakeBody (game w) = Some p /\ heap w !! p = Some b /\
    Body.length b = Z.of_nat (length (Body.Head b)) /\ 3 <= Body.length b.


(** ** The render projection *)

(* [int] multiplication *)
Definition int_mul (a b : Z) : Z := GoInt.wrap (a * b).

(* Tile sizes are 16x16 (except for head with tongue out) *)
Definition TILESIZE : Z := 16.

(* the masks of [DrawSnake]: [seg.tile & 0b11110000], [seg.tile & 0b00001111] *)
Definition tile_type (tile : Z) : Z := Z.land tile 240.
Definition tile_rotation (tile : Z) : Z := Z.land tile 15.

(* the images [DrawSnake] chooses from *)
Inductive image :=
  | ImgSnakeHead | ImgSnakeBody | ImgSnakeTail | ImgSnakeBend
  | ImgSnakeHeadTongueOut
  | ImgSnakeSkeletonHead | ImgSnakeSkeletonBody | ImgSnakeSkeletonTail
  | ImgSnakeSkeletonBend.

(* the four angles [DrawSnake] rotates by: 0, -90 deg, 90 deg, 180 deg.  The
   angle is kept as the case taken; the float arithmetic of the geometry
   matrix stays with the drawing library. *)
Inductive rotation := RotNone | RotCCW90 | RotCW90 | Rot180.

(* one [imgOut.DrawImage(img, &op)]: the image, whether the tongue tile was
   first moved up by TILESIZE, the rotation about the tile centre (none made
   for angle 0), the translation, and whether alpha was scaled by 0.5 *)
Record sprite := mkSprite {
  sp_img : image;
  sp_lifted : bool;
  sp_rotation : rotation;
  sp_x : Z;
  sp_y : Z;
  sp_dimmed : bool
}.

(* the tile type switch of [DrawSnake]; [None] is [panic(seg.tile)] *)
Definition pick_image (tongueShow : bool) (seg : Seg.SnakeBodySegment)
    : option (image * bool) :=
  let t := tile_type (Seg.tile seg) in
  if t =? SnakeTypeHead then
    if Seg.skeleton seg then Some (ImgSnakeSkeletonHead, false)
    else if tongueShow then Some (ImgSnakeHeadTongueOut, true)
    else Some (ImgSnakeHead, false)
  else if t =? SnakeTypeBody then
    Some (if Seg.skeleton seg then ImgSnakeSkeletonBody else ImgSnakeBody, false)
  else if t =? SnakeTypeBend then
    Some (if Seg.skeleton seg then ImgSnakeSkeletonBend else ImgSnakeBend, false)
  else if t =? SnakeTypeTail then
    Some (if Seg.skeleton seg then ImgSnakeSkeletonTail else ImgSnakeTail, false)
  else None.

(* the rotation switch of [DrawSnake]; [None] is [panic(seg.tile)] *)
Definition pick_rotation (seg : Seg.SnakeBodySegment) : option rotation :=
  let r := tile_rotation (Seg.tile seg) in
  if r =? SnakeRotationNone then Some RotNone
  else if r =? SnakeRotationCCW90 then Some RotCCW90
  else if r =? SnakeRotationCW90 then Some RotCW90
  else if r =? SnakeRotation180 then Some Rot180
  else None.

(* the body of the loop of [DrawSnake] for one segment *)
Definition draw_segment (tongueShow : bool) (yOffset : Z) (dimmed : bool)
    (seg : Seg.SnakeBodySegment) : option sprite :=
  match pick_image tongueShow seg with
  | None => None
  | Some (img, lifted) =>
      match pick_rotation seg with
      | None => None
      | Some rot =>
          (* get pixel position for segment *)
          let xpos := int_mul (Seg.x seg) TILESIZE in
          let ypos := int_mul (Seg.y seg) TILESIZE in
          Some (mkSprite img lifted rot xpos (GoInt.add ypos yOffset) dimmed)
      end
  end.

(* the loop of [DrawSnake] from a non-nil segment on: the sprites drawn, or
   [None] at the first tile that panics *)
Fixpoint draw_chain (tongueShow : bool) (yOffset : Z) (dimmed : bool)
    (chain : list Seg.SnakeBodySegment) : option (list sprite) :=
  match chain with
  | [] => Some []
  | seg :: rest =>
      match draw_segment tongueShow yOffset dimmed seg with
      | None => None
      | Some s =>
          match draw_chain tongueShow yOffset dimmed rest with
          | None => None
          | Some ss => Some (s :: ss)
          end
      end
  end.

(* draw the snake, offsetting by yOffset (for score bar); the result is the
   sequence of images drawn onto [imgOut] *)
Definition DrawSnake (SnakeBody : option loc) (yOffset : Z) (dimmed : bool)
    : M (list sprite) :=
  let* b := deref SnakeBody in
  let* g := get_game in
  match Body.Head b with
  | [] => panic
  | chain =>
      match draw_chain (G.tongueShow g) yOffset dimmed chain with
      | None => panic
      | Some sprites => ret sprites
      end
  end.

(** ** Directions and tiles, as the statements name them *)

Definition opposite (d : snakeDirection) : snakeDirection :=
  match d with
  | UP => DOWN
  | DOWN => UP
  | LEFT => RIGHT
  | RIGHT => LEFT
  end.

Definition perpendicular (a b : snakeDirection) : bool :=
  match a, b with
  | (UP | DOWN), (LEFT | RIGHT) => true
  | (LEFT | RIGHT), (UP | DOWN) => true
  | _, _ => false
  end.

(* the rotation bits that the Head, Body and Tail constants give a direction *)
Definition direction_rotation (d : snakeDirection) : Z :=
  match d with
  | UP => SnakeRotationNone
  | DOWN => SnakeRotation180
  | LEFT => SnakeRotationCCW90
  | RIGHT => SnakeRotationCW90
  end.

(* the bend constant by the two sides it connects, as the comments on the
   constants say: LD left & down, RU right & up, RD right & down, LU left & up *)
Definition bend_connecting (a b : snakeDirection) : option Z :=
  match a, b with
  | LEFT, DOWN | DOWN, LEFT => Some SnakeBendLD
  | RIGHT, UP | UP, RIGHT => Some SnakeBendRU
  | RIGHT, DOWN | DOWN, RIGHT => Some SnakeBendRD
  | LEFT, UP | UP, LEFT => Some SnakeBendLU
  | _, _ => None
  end.

(* the sixteen tile constants *)
Definition named_tiles : list Z :=
  [SnakeHeadUp; SnakeHeadDown; SnakeHeadLeft; SnakeHeadRight;
   SnakeBodyUp; SnakeBodyDown; SnakeBodyLeft; SnakeBodyRight;
   SnakeBendLD; SnakeBendRU; SnakeBendRD; SnakeBendLU;
   SnakeTailUp; SnakeTailDown; SnakeTailLeft; SnakeTailRight].

Definition named_tile (tile : Z) : bool :=
  existsb (Z.eqb tile) named_tiles.

(* the tail constant of a direction *)
Definition tail_of (d : snakeDirection) : Z :=
  match d with
  | UP => SnakeTailUp
  | DOWN => SnakeTailDown
  | LEFT => SnakeTailLeft
  | RIGHT => SnakeTailRight
  end.

(* a tile [DrawSnake] can draw: both switches have a case for it *)
Definition drawable_tile (tile : Z) : bool :=
  existsb (Z.eqb (tile_type tile))
          [SnakeTypeHead; SnakeTypeBody; SnakeTypeBend; SnakeTypeTail]
  && existsb (Z.eqb (tile_rotation tile))
             [SnakeRotationNone; SnakeRotationCCW90; SnakeRotationCW90;
              SnakeRotation180].

Definition skeleton_image (i : image) : bool :=
  match i with
  | ImgSnakeSkeletonHead | ImgSnakeSkeletonBody | ImgSnakeSkeletonTail
  | ImgSnakeSkeletonBend => true
  | _ => false
  end.

(** ** Invariants of the game's own snake *)

(* the chain of [g.SnakeBody], if the game has a snake *)
Definition active_chain (w : World) : option (list Seg.SnakeBodySegment) :=
  match G.SnakeBody (game w) with
  | Some p =>
      match heap w !! p with
      | Some b => Some (Body.Head b)
      | None => None
      end
  | None => None
  end.

(* the fields of the game that only [Reset] and [UpdateEndGame] may change *)
Definition same_fields (w w' : World) : Prop :=
  G.width (game w') = G.width (game w) /\
  G.height (game w') = G.height (game w) /\
  G.SnakeBody (game w') = G.SnakeBody (game w) /\
  G.skeleTicks (game w') = G.skeleTicks (game w) /\
  G.skeleTicksPerSegment (game w') = G.skeleTicksPerSegment (game w).

(* a step that leaves the bodies alone as well *)
Definition quiet (w w' : World) : Prop :=
  heap w' = heap w /\ same_fields w w'.

(* the chain [SpawnSnake] builds *)
Definition spawn_chain (x y : Z) : list Seg.SnakeBodySegment :=
  [Seg.mk x y UP SnakeHeadUp false;
   Seg.mk x (GoInt.add y 1) UP SnakeBodyUp false;
   Seg.mk x (GoInt.add y 2) UP SnakeTailUp false].

(* the chain [SnakeAdvance] makes of [h :: t] on a [width] x [height] board *)
Definition advanced (width height : Z) (d : snakeDirection)
    (h : Seg.SnakeBodySegment) (t : list Seg.SnakeBodySegment)
    : list Seg.SnakeBodySegment :=
  Seg.mk (next_pos width height h d).1 (next_pos width height h d).2 d
         (advance_tiles d (Seg.facing h)).1 false
  :: Seg.set_tile (advance_tiles d (Seg.facing h)).2 h :: t.

(* the chain [SnakeRemoveTail] makes when its walk ends on positions [iprev]
   and [iseg] *)
Definition cut (chain : list Seg.SnakeBodySegment) (iseg : nat)
    (prevSeg seg0 : Seg.SnakeBodySegment) : list Seg.SnakeBodySegment :=
  take iseg chain ++ [Seg.set_tile (tail_tile prevSeg seg0) seg0].

(* a property of chains that spawning, advancing on a [width] x [height]
   board and cutting the tail keep *)
Record chain_closed (width height : Z)
    (P : list Seg.SnakeBodySegment -> Prop) : Prop := {
  closed_spawn : forall x y, P (spawn_chain x y);
  closed_advance : forall d h t, P (h :: t) -> P (advanced width height d h t);
  closed_cut : forall chain iprev iseg prevSeg seg0,
    P chain ->
    chain !! iprev = Some prevSeg -> chain !! iseg = Some seg0 ->
    iprev = iseg \/ S iprev = iseg ->
    P (cut chain iseg prevSeg seg0)
}.

(* the game's snake has property [P], on a [width] x [height] board *)
Definition chain_inv (width height : Z) (P : list Seg.SnakeBodySegment -> Prop)
    (w : World) : Prop :=
  G.width (game w) = width /\ G.height (game w) = height /\
  exists chain, active_chain w = Some chain /\ P chain.

(* a step that may touch bodies but leaves the game's chain as it is *)
Definition calm (w w' : World) : Prop :=
  same_fields w w' /\ active_chain w' = active_chain w.

(* a property of chains that turning a segment into skeleton keeps *)
Definition skeleton_closed (P : list Seg.SnakeBodySegment -> Prop) : Prop :=
  forall chain chain', P chain -> skeletonize chain = Some chain' -> P chain'.

(* every tile of the chain is one of the sixteen constants *)
Definition all_named (chain : list Seg.SnakeBodySegment) : Prop :=
  chain <> [] /\ Forall (fun s => named_tile (Seg.tile s) = true) chain.

(* the game has a snake, with a head, whose tiles are all tile constants *)
Definition tiles_named (w : World) : Prop :=
  exists chain, active_chain w = Some chain /\ all_named chain.

(* no segment of the chain is a skeleton *)
Definition all_alive (chain : list Seg.SnakeBodySegment) : Prop :=
  chain <> [] /\ Forall (fun s => Seg.skeleton s = false) chain.

(* the game's snake is alive and the skeleton timer is at rest *)
Definition snake_alive (w : World) : Prop :=
  G.skeleTicks (game w) = 0 /\
  exists chain, active_chain w = Some chain /\ all_alive chain.



(* the direction the game will move the snake in is not straight back along
   the head's facing *)
Definition heading_ok (w : World) : Prop :=
  exists h t,
    active_chain w = Some (h :: t) /\
    G.SnakeDirection (game w) <> opposite (Seg.facing h).

(* one tick per entry of [ks], with the keys of that entry held *)
Fixpoint key_ticks (fuel : nat) (ks : list Keys.Keys) : M unit :=
  match ks with
  | [] => ret tt
  | k :: ks' => Update fuel k ;;; key_ticks fuel ks'
  end.

(* Space and the four arrows held, as a player waiting for the start might *)
Definition eager : Keys.Keys := Keys.mk true true true true true false false.

(* the world with the phase and the two countdown counters replaced *)
Definition counted (st : gameState) (num ticks : Z) (w : World) : World :=
  set_game (G.set_state st (G.set_countDownNum num
                              (G.set_countDownTicks ticks (game w)))) w.

(* a 2 x 2 board whose only cell outside the last row and column is taken *)
Definition tiny_full : World :=
  mkWorld (G.mk StateInGame 2 2 (Some 1%positive) UP None 0 30 0 3 0 0 2 false 0 20)
          {[ 1%positive := Body.mk [seg 0 0 UP SnakeHeadUp; seg 0 1 UP SnakeBodyUp;
                                    seg 1 1 LEFT SnakeTailLeft] false 3 ]}
          sample_draws 0.

(* the game's snake has [n] segments, a counter that says so, and no growth
   pending *)
Definition snake_sized (n : Z) (w : World) : Prop :=
  exists p b,
    G.SnakeBody (game w) = Some p /\ heap w !! p = Some b /\
    Body.length b = n /\ Z.of_nat (length (Body.Head b)) = n /\
    Body.grow b = false.

(* the menu with the straight snake one tick before its next move *)
Definition menu_world : World := counted StateMainMenu 3 0 about_to_move.

(* the game over screen after the snake of five has died *)
Definition over_world : World := counted StateGameOver (-1) 0 dying_five.

Definition escape : Keys.Keys := Keys.mk false false false false false true false.

(* the cell of a segment *)
Definition cell (s : Seg.SnakeBodySegment) : Z * Z := (Seg.x s, Seg.y s).

(* no two segments of the game's snake are on the same cell *)
Definition no_overlap (w : World) : Prop :=
  exists chain, active_chain w = Some chain /\ NoDup (map cell chain).

(* the cell the i-th try of [SpawnFood] draws, from the cursor of [w] on *)
Definition food_draw (w : World) (i : nat) : Z * Z :=
  (draws w (cursor w + 2 * i) mod (G.width (game w) - 1),
   draws w (cursor w + 2 * i + 1) mod (G.height (game w) - 1)).

(* a 3 x 3 board with a snake in the first column; the stream draws (0,0),
   which is taken, and then (1,0) *)
Definition tiny_retry : World :=
  mkWorld (G.mk StateInGame 3 3 (Some 1%positive) UP None 0 30 0 3 0 0 2 false 0 20)
          {[ 1%positive := Body.mk [seg 0 0 UP SnakeHeadUp; seg 0 1 UP SnakeBodyUp;
                                    seg 0 2 UP SnakeTailUp] false 3 ]}
          (fun i => match i with 2%nat => 1 | _ => 0 end) 0.
(** * Properties *)

(** ** Go's int arithmetic *)

Lemma wrap_in_range (z : Z) : GoInt.in_range z -> GoInt.wrap z = z.
Proof.
  unfold GoInt.in_range, GoInt.min_int, GoInt.max_int, GoInt.wrap. intros Hz.
  rewrite Z.mod_small; lia.
Qed.

Lemma add_exact (a b : Z) : GoInt.in_range (a + b) -> GoInt.add a b = a + b.
Proof. apply wrap_in_range. Qed.

Lemma sub_exact (a b : Z) : GoInt.in_range (a - b) -> GoInt.sub a b = a - b.
Proof. apply wrap_in_range. Qed.

(* the range as plain bounds, for [lia] *)
Lemma in_range_bounds (z : Z) :
  GoInt.in_range z <-> -9223372036854775808 <= z <= 9223372036854775807.
Proof. reflexivity. Qed.

Ltac go_int :=
  repeat first
    [ rewrite add_exact by (apply in_range_bounds; lia)
    | rewrite sub_exact by (apply in_range_bounds; lia) ].

(** ** The monad *)

Lemma bind_Ok {A B} (m : M A) (k : A -> M B) (w w' : World) (b : B) :
  bind m k w = Ok b w' <-> exists a w1, m w = Ok a w1 /\ k a w1 = Ok b w'.
Proof.
  unfold bind. split.
  - destruct (m w) as [a w1| |]; [eauto | discriminate | discriminate].
  - intros (a & w1 & -> & Hk). exact Hk.
Qed.

Lemma bind_step {A B} (m : M A) (k : A -> M B) (w w1 : World) (a : A) :
  m w = Ok a w1 -> bind m k w = k a w1.
Proof. unfold bind. now intros ->. Qed.

Lemma deref_Some (l : loc) (b : Body.SnakeBody) (w : World) :
  heap w !! l = Some b -> deref (Some l) w = Ok b w.
Proof. unfold deref. now intros ->. Qed.

Lemma deref_Ok (p : option loc) (b : Body.SnakeBody) (w w' : World) :
  deref p w = Ok b w' -> w' = w /\ exists l, p = Some l /\ heap w !! l = Some b.
Proof.
  unfold deref. destruct p as [l|]; [|discriminate].
  destruct (heap w !! l) as [b0|] eqn:E; [|discriminate].
  intros [= -> ->]. eauto.
Qed.

(** ** The look-ahead *)

Lemma SnakeGetNextPos_head (w : World) (l : loc) (b : Body.SnakeBody)
    (h : Seg.SnakeBodySegment) (t : list Seg.SnakeBodySegment) (d : snakeDirection) :
  heap w !! l = Some b -> Body.Head b = h :: t ->
  SnakeGetNextPos (Some l) d w
  = Ok (next_pos (G.width (game w)) (G.height (game w)) h d) w.
Proof.
  intros Hl Hh. unfold SnakeGetNextPos, get_game.
  rewrite (bind_step _ _ w w (game w)) by reflexivity.
  rewrite (bind_step _ _ w w b) by now apply deref_Some.
  now rewrite Hh.
Qed.

(* The scan starts at the segment after the head of the game's own snake,
   whatever body the position was computed from. *)
Lemma SnakeCheckDeath_scan (w : World) (p q : loc) (b a : Body.SnakeBody)
    (hb ha s : Seg.SnakeBodySegment) (tb ta : list Seg.SnakeBodySegment)
    (d : snakeDirection) :
  heap w !! p = Some b -> Body.Head b = hb :: tb ->
  G.SnakeBody (game w) = Some q ->
  heap w !! q = Some a -> Body.Head a = ha :: s :: ta ->
  SnakeCheckDeath (Some p) d w
  = Ok (let '(x, y) := next_pos (G.width (game w)) (G.height (game w)) hb d in
        occupies x y (s :: ta)) w.
Proof.
  intros Hp Hb Hq Ha Hha. unfold SnakeCheckDeath.
  rewrite (bind_step _ _ _ _ _ (SnakeGetNextPos_head w p b hb tb d Hp Hb)).
  destruct (next_pos _ _ hb d) as [x y].
  unfold get_game. rewrite (bind_step _ _ w w (game w)) by reflexivity.
  rewrite Hq. rewrite (bind_step _ _ w w a) by now apply deref_Some.
  now rewrite Hha.
Qed.

Lemma SnakeCheckDeath_pure (p : option loc) (d : snakeDirection) (w w' : World)
    (r : bool) :
  SnakeCheckDeath p d w = Ok r w' -> w' = w.
Proof.
  unfold SnakeCheckDeath, SnakeGetNextPos, get_game. intros H.
  apply bind_Ok in H as ([x y] & w1 & H1 & H).
  apply bind_Ok in H1 as (g & w2 & [= <- <-] & H1).
  apply bind_Ok in H1 as (b & w3 & Hb & H1).
  apply deref_Ok in Hb as [-> _].
  destruct (Body.Head b); [discriminate|]. injection H1 as _ <-.
  apply bind_Ok in H as (g' & w4 & [= <- <-] & H).
  apply bind_Ok in H as (a & w5 & Ha & H).
  apply deref_Ok in Ha as [-> _].
  destruct (Body.Head a) as [|? [|? ?]]; try discriminate.
  now injection H.
Qed.

Lemma occupies_spec (x y : Z) (segs : list Seg.SnakeBodySegment) :
  occupies x y segs = true <-> exists seg, seg ∈ segs /\ (Seg.x seg, Seg.y seg) = (x, y).
Proof.
  unfold occupies. rewrite existsb_exists. split.
  - intros (seg & Hin & Hxy). exists seg. split; [now apply list_elem_of_In|].
    apply andb_true_iff in Hxy as [Hx%Z.eqb_eq Hy%Z.eqb_eq]. congruence.
  - intros (seg & Hin & [= Hx Hy]). exists seg. split; [now apply list_elem_of_In|].
    apply andb_true_iff. split; now apply Z.eqb_eq.
Qed.

(* decide the comparisons of a goal, innermost first *)
Ltac no_if t :=
  lazymatch t with
  | context [if _ then _ else _] => fail
  | _ => idtac
  end.

Ltac decide_bounds :=
  repeat match goal with
  | |- context [?a <? ?b] =>
      no_if a; no_if b; destruct (Z.ltb_spec a b); try lia
  | |- context [?a >? ?b] =>
      no_if a; no_if b; rewrite (Z.gtb_ltb a b);
      destruct (Z.ltb_spec b a); try lia
  end; try reflexivity.

(* On a board that fits Go's int, from a head on the board, [next_pos] is one
   step on the torus. *)
Lemma next_pos_torus (width height : Z) (h : Seg.SnakeBodySegment) (d : snakeDirection) :
  0 < width <= GoInt.max_int -> 0 < height <= GoInt.max_int ->
  0 <= Seg.x h < width -> 0 <= Seg.y h < height ->
  next_pos width height h d
  = match d with
    | UP => (Seg.x h, (Seg.y h - 1) mod height)
    | DOWN => (Seg.x h, (Seg.y h + 1) mod height)
    | LEFT => ((Seg.x h - 1) mod width, Seg.y h)
    | RIGHT => ((Seg.x h + 1) mod width, Seg.y h)
    end.
Proof.
  unfold GoInt.max_int. intros Hw Hh Hx Hy. unfold next_pos.
  assert (Hm1 : forall n, 0 < n -> (0 - 1) mod n = n - 1).
  { intros n Hn. replace (0 - 1) with (n - 1 + (-1) * n) by lia.
    rewrite Z.mod_add by lia. apply Z.mod_small. lia. }
  assert (Hn0 : forall n, 0 < n -> (n - 1 + 1) mod n = 0).
  { intros n Hn. replace (n - 1 + 1) with (0 + 1 * n) by lia.
    rewrite Z.mod_add by lia. apply Z.mod_small. lia. }
  destruct d; go_int.
  - destruct (Z.eq_dec (Seg.y h) 0) as [E|E].
    + rewrite E, Hm1 by lia.
      decide_bounds.
    + rewrite (Z.mod_small (Seg.y h - 1)) by lia.
      decide_bounds.
  - destruct (Z.eq_dec (Seg.y h) (height - 1)) as [E|E].
    + rewrite E, Hn0 by lia.
      decide_bounds.
    + rewrite (Z.mod_small (Seg.y h + 1)) by lia.
      decide_bounds.
  - destruct (Z.eq_dec (Seg.x h) 0) as [E|E].
    + rewrite E, Hm1 by lia.
      decide_bounds.
    + rewrite (Z.mod_small (Seg.x h - 1)) by lia.
      decide_bounds.
  - destruct (Z.eq_dec (Seg.x h) (width - 1)) as [E|E].
    + rewrite E, Hn0 by lia.
      decide_bounds.
    + rewrite (Z.mod_small (Seg.x h + 1)) by lia.
      decide_bounds.
Qed.

(** ** Spawning *)

(** C5: for every x and y, [SpawnSnake] returns (it cannot panic and has no
    loop) a new body, aliasing no existing one, of length 3 with the segments
    (x, y), (x, y+1), (x, y+2) from the head on, all facing UP, tiled
    SnakeHeadUp, SnakeBodyUp, SnakeTailUp.  The sums are Go's int sums, which
    are the mathematical ones as long as y+2 is an int. *)
Theorem SpawnSnake_three_segments_up (x y : Z) (w : World) :
  exists l : loc,
    heap w !! l = None /\
    SpawnSnake x y w
    = Ok l (set_heap
              (<[l := Body.mk [Seg.mk x y UP SnakeHeadUp false;
                               Seg.mk x (GoInt.add y 1) UP SnakeBodyUp false;
                               Seg.mk x (GoInt.add y 2) UP SnakeTailUp false]
                              false 3]> (heap w)) w) /\
    (GoInt.min_int <= y <= GoInt.max_int - 2 ->
     GoInt.add y 1 = y + 1 /\ GoInt.add y 2 = y + 2).
Proof.
  exists (fresh (dom (heap w))). split; [|split].
  - apply not_elem_of_dom, is_fresh.
  - reflexivity.
  - unfold GoInt.min_int, GoInt.max_int. intros Hy. now go_int.
Qed.

Lemma SpawnSnake_three_segments_up_witness :
  GoInt.add 10 1 = 11 /\ GoInt.add 10 2 = 12.
Proof.
  destruct (SpawnSnake_three_segments_up 13 10 playing_curled) as (l & _ & _ & H).
  apply H. unfold GoInt.min_int, GoInt.max_int. lia.
Defined.

(** ** Self-collision *)

(** C1: in the playing phase, where the body handed to [SnakeCheckDeath] is
    the game's own snake, the check returns true exactly when the cell the head
    would move to ([next_pos], the wrapped step of [next_pos_torus]) is the
    cell of a segment behind the head; the last segment counts, although the
    move would vacate it.  The snake has a segment behind its head in every
    state of a player session ([snake_ok_tail], [Update_snake_ok]). *)
Theorem SnakeCheckDeath_playing (w : World) (p : loc) (b : Body.SnakeBody)
    (h : Seg.SnakeBodySegment) (t : list Seg.SnakeBodySegment) (d : snakeDirection) :
  G.state (game w) = StateInGame ->
  G.SnakeBody (game w) = Some p ->
  heap w !! p = Some b ->
  Body.Head b = h :: t -> t <> [] ->
  exists r : bool,
    SnakeCheckDeath (G.SnakeBody (game w)) d w = Ok r w /\
    (r = true <->
     exists s, s ∈ t /\
       (Seg.x s, Seg.y s) = next_pos (G.width (game w)) (G.height (game w)) h d) /\
    (forall tl, last t = Some tl ->
       (Seg.x tl, Seg.y tl) = next_pos (G.width (game w)) (G.height (game w)) h d ->
       r = true).
Proof.
  intros _ Hp Hb Hh Ht. destruct t as [|s t]; [congruence|]. rewrite Hp.
  rewrite (SnakeCheckDeath_scan w p p b b h h s (s :: t) t d Hb Hh Hp Hb Hh).
  destruct (next_pos _ _ h d) as [x y]. eexists. split; [reflexivity|].
  split; [apply occupies_spec|].
  intros tl Htl Hxy. apply occupies_spec. exists tl. split; [|exact Hxy].
  now apply last_Some_elem_of.
Qed.

Lemma SnakeCheckDeath_playing_witness :
  exists r : bool,
    SnakeCheckDeath (Some 1%positive) LEFT playing_curled = Ok r playing_curled /\
    (r = true <->
     exists s, s ∈ [seg 5 6 RIGHT SnakeBendLU; seg 4 6 DOWN SnakeBendRD;
                    seg 4 5 DOWN SnakeTailDown] /\
       (Seg.x s, Seg.y s) = (4, 5)) /\
    (forall tl, Some (seg 4 5 DOWN SnakeTailDown) = Some tl ->
       (Seg.x tl, Seg.y tl) = (4, 5) -> r = true).
Proof.
  apply (SnakeCheckDeath_playing playing_curled 1%positive curled
           (seg 5 5 UP SnakeHeadUp)
           [seg 5 6 RIGHT SnakeBendLU; seg 4 6 DOWN SnakeBendRD;
            seg 4 5 DOWN SnakeTailDown] LEFT);
    [reflexivity | reflexivity | reflexivity | reflexivity | discriminate].
Defined.



(** ** The movement engine *)

Lemma ChangeState_GameEnd (fuel : nat) (w : World) :
  ChangeState fuel StateGameEnd w
  = Ok tt (set_game (G.set_state StateGameEnd (game w)) w).
Proof. reflexivity. Qed.

(** C2: when [SnakeMove] is called with checkDeath and the self-collision
    check reports a collision, the call returns with the store of bodies, the
    score, the food and the random stream as they were, and the game in
    StateGameEnd. *)
Theorem SnakeMove_collision_freezes_body (fuel : nat) (w w1 : World)
    (p : option loc) (d : snakeDirection) (checkFood : bool) :
  SnakeCheckDeath p d w = Ok true w1 ->
  SnakeMove fuel p d true checkFood w
  = Ok tt (set_game (G.set_state StateGameEnd (game w)) w) /\
  heap (set_game (G.set_state StateGameEnd (game w)) w) = heap w /\
  G.score (G.set_state StateGameEnd (game w)) = G.score (game w) /\
  G.food (G.set_state StateGameEnd (game w)) = G.food (game w) /\
  G.state (G.set_state StateGameEnd (game w)) = StateGameEnd.
Proof.
  intros H. pose proof (SnakeCheckDeath_pure _ _ _ _ _ H) as ->.
  split; [|repeat split].
  unfold SnakeMove. rewrite (bind_step _ _ _ _ _ H). apply ChangeState_GameEnd.
Qed.

Lemma SnakeMove_collision_freezes_body_witness :
  SnakeMove 10 (Some 1%positive) LEFT true true playing_curled
  = Ok tt (set_game (G.set_state StateGameEnd (game playing_curled)) playing_curled).
Proof.
  apply (SnakeMove_collision_freezes_body 10 playing_curled playing_curled
           (Some 1%positive) LEFT true).
  reflexivity.
Defined.

Lemma store_Some (l : loc) (b : Body.SnakeBody) (w : World) :
  store (Some l) b w = Ok tt (set_heap (<[l := b]> (heap w)) w).
Proof. reflexivity. Qed.

Lemma next_pos_set_tile (width height tile : Z) (h : Seg.SnakeBodySegment)
    (d : snakeDirection) :
  next_pos width height (Seg.set_tile tile h) d = next_pos width height h d.
Proof. reflexivity. Qed.

(* [SnakeAdvance] on a body with a head: the old head is re-tiled and a new
   head is put in front of it, one [next_pos] step away. *)
Lemma SnakeAdvance_ok (w : World) (p : loc) (b : Body.SnakeBody)
    (h : Seg.SnakeBodySegment) (t : list Seg.SnakeBodySegment) (d : snakeDirection) :
  heap w !! p = Some b -> Body.Head b = h :: t ->
  SnakeAdvance (Some p) d w
  = Ok tt (set_heap
             (<[p := Body.mk
                       (Seg.mk (next_pos (G.width (game w)) (G.height (game w)) h d).1
                               (next_pos (G.width (game w)) (G.height (game w)) h d).2
                               d (advance_tiles d (Seg.facing h)).1 false
                        :: Seg.set_tile (advance_tiles d (Seg.facing h)).2 h :: t)
                       (Body.grow b) (GoInt.add (Body.length b) 1)]> (heap w)) w).
Proof.
  intros Hp Hh. unfold SnakeAdvance.
  rewrite (bind_step _ _ w w b) by now apply deref_Some.
  rewrite Hh. destruct (advance_tiles d (Seg.facing h)) as [headTile oldTile] eqn:Et.
  rewrite (bind_step _ _ _ _ _ (store_Some p _ w)).
  set (b1 := Body.set_Head (Seg.set_tile oldTile h :: t) b).
  set (w1 := set_heap (<[p := b1]> (heap w)) w).
  assert (Hp1 : heap w1 !! p = Some b1) by apply lookup_insert_eq.
  rewrite (bind_step _ _ _ _ _
             (SnakeGetNextPos_head w1 p b1 (Seg.set_tile oldTile h) t d Hp1 eq_refl)).
  rewrite next_pos_set_tile. simpl (G.width (game w1)). simpl (G.height (game w1)).
  destruct (next_pos (G.width (game w)) (G.height (game w)) h d) as [x y].
  rewrite (bind_step _ _ w1 w1 b1) by now apply deref_Some.
  rewrite store_Some. unfold w1, set_heap. simpl. now rewrite insert_insert_eq.
Qed.

Lemma tail_walk_ok (k : nat) (chain : list Seg.SnakeBodySegment) (iprev iseg : nat) :
  (iseg + k <= length chain)%nat ->
  tail_walk k chain iprev iseg
  = Some (match k with O => iprev | S k' => (iseg + k')%nat end, (iseg + k)%nat).
Proof.
  revert iprev iseg. induction k as [|k IH]; intros iprev iseg Hlen; simpl.
  - now rewrite Nat.add_0_r.
  - destruct (lookup_lt_is_Some_2 chain iseg) as [s Hs]; [lia|]. rewrite Hs.
    rewrite IH by lia. destruct k; f_equal; f_equal; lia.
Qed.

(* [SnakeRemoveTail] on a chain of n >= 3 segments whose counter is n: the
   chain is cut after segment n-2, which is re-tiled by its position relative
   to segment n-3. *)
Lemma SnakeRemoveTail_ok (w : World) (p : loc) (b : Body.SnakeBody) (n : nat)
    (prevSeg seg0 : Seg.SnakeBodySegment) :
  heap w !! p = Some b ->
  length (Body.Head b) = S (S (S n)) ->
  Body.length b = Z.of_nat (S (S (S n))) ->
  Body.length b <= GoInt.max_int ->
  Body.Head b !! n = Some prevSeg -> Body.Head b !! S n = Some seg0 ->
  SnakeRemoveTail (Some p) w
  = Ok tt (set_heap
             (<[p := Body.mk
                       (take (S n) (Body.Head b)
                        ++ [Seg.set_tile (tail_tile prevSeg seg0) seg0])
                       (Body.grow b) (Body.length b - 1)]> (heap w)) w).
Proof.
  unfold GoInt.max_int. intros Hp Hlen Hcnt Hmax Hprev Hseg. unfold SnakeRemoveTail.
  rewrite (bind_step _ _ w w b) by now apply deref_Some.
  rewrite sub_exact by (apply in_range_bounds; lia).
  replace (Z.to_nat (Body.length b - 1 - 1)) with (S n) by lia.
  rewrite tail_walk_ok by (rewrite Hlen; lia).
  simpl (0 + n)%nat. simpl (0 + S n)%nat. now rewrite Hprev, Hseg.
Qed.

Lemma SnakeCheckFood_frame (p : loc) (w w' : World) (r : bool) (b : Body.SnakeBody) :
  heap w !! p = Some b ->
  SnakeCheckFood (Some p) w = Ok r w' ->
  exists b', heap w' !! p = Some b' /\ Body.Head b' = Body.Head b /\
             Body.length b' = Body.length b /\ Body.grow b' = (r || Body.grow b) /\
             G.SnakeBody (game w') = G.SnakeBody (game w).
Proof.
  intros Hp H. unfold SnakeCheckFood in H.
  rewrite (bind_step _ _ w w b) in H by now apply deref_Some.
  unfold get_game in H. rewrite (bind_step _ _ w w (game w)) in H by reflexivity.
  destruct (Body.Head b) as [|s t] eqn:Hh; [discriminate|].
  destruct (G.food (game w)) as [f|]; [|discriminate].
  destruct ((Seg.x s =? Food.x f) && (Seg.y s =? Food.y f)).
  - injection H as <- <-. exists (Body.set_grow true b). simpl.
    rewrite lookup_insert_eq. now rewrite Hh.
  - injection H as <- <-. exists b. now rewrite Hh.
Qed.

Lemma SpawnFood_frame (fuel : nat) (w w' : World) :
  SpawnFood fuel w = Ok tt w' ->
  heap w' = heap w /\ exists f, game w' = G.set_food (Some f) (game w).
Proof.
  revert w. induction fuel as [|fuel IH]; intros w H; [discriminate|].
  simpl in H. unfold get_game in H.
  rewrite (bind_step _ _ w w (game w)) in H by reflexivity.
  apply bind_Ok in H as (x & w1 & Hx & H).
  apply bind_Ok in H as (y & w2 & Hy & H).
  apply bind_Ok in H as (a & w3 & Ha & H).
  apply deref_Ok in Ha as [-> _].
  unfold Intn in Hx, Hy.
  destruct (_ <=? 0) in Hx; [discriminate|]. injection Hx as _ <-.
  destruct (_ <=? 0) in Hy; [discriminate|]. injection Hy as _ <-.
  destruct (Body.Head a) as [|s t]; [discriminate|].
  match type of H with (if ?c then _ else _) _ = _ => destruct c end.
  - apply IH in H. exact H.
  - injection H as <-. split; [reflexivity|]. now eexists.
Qed.

(* [SnakeMove] past the death check *)
Lemma SnakeMove_alive (fuel : nat) (w : World) (p : loc) (b : Body.SnakeBody)
    (d : snakeDirection) (checkDeath checkFood : bool) :
  heap w !! p = Some b ->
  (checkDeath = true -> SnakeCheckDeath (Some p) d w = Ok false w) ->
  SnakeMove fuel (Some p) d checkDeath checkFood w
  = ((if Body.grow b
      then (SnakeAdvance (Some p) d ;;;
            let* b' := deref (Some p) in store (Some p) (Body.set_grow false b'))
      else (SnakeRemoveTail (Some p) ;;; SnakeAdvance (Some p) d)) ;;;
     if checkFood then
       let* ate := SnakeCheckFood (Some p) in
       if ate then
         let* b' := deref (Some p) in
         store (Some p) (Body.set_grow true b') ;;; SpawnFood fuel
       else ret tt
     else ret tt) w.
Proof.
  intros Hp Hcd. unfold SnakeMove.
  assert (Hdead : (if checkDeath then SnakeCheckDeath (Some p) d else ret false) w
                  = Ok false w).
  { destruct checkDeath; [now apply Hcd | reflexivity]. }
  rewrite (bind_step _ _ _ _ _ Hdead).
  rewrite (bind_step _ _ w w b) by now apply deref_Some.
  now destruct (Body.grow b).
Qed.

(* the part of [SnakeMove] that moves the body: it returns, and leaves a body
   whose counter is again the number of its segments *)
Lemma SnakeMove_body (w : World) (p : loc) (b : Body.SnakeBody) (d : snakeDirection) :
  heap w !! p = Some b ->
  Body.length b = Z.of_nat (length (Body.Head b)) ->
  3 <= Body.length b < GoInt.max_int ->
  exists w1 b1,
    (if Body.grow b
     then (SnakeAdvance (Some p) d ;;;
           let* b' := deref (Some p) in store (Some p) (Body.set_grow false b'))
     else (SnakeRemoveTail (Some p) ;;; SnakeAdvance (Some p) d)) w = Ok tt w1 /\
    heap w1 !! p = Some b1 /\ Body.grow b1 = false /\
    Body.length b1 = (if Body.grow b then Body.length b + 1 else Body.length b) /\
    Z.of_nat (length (Body.Head b1)) = Body.length b1 /\
    game w1 = game w.
Proof.
  unfold GoInt.max_int. intros Hp Hcnt Hlen.
  destruct (Body.Head b) as [|h t] eqn:Hh; [simpl in Hcnt; lia|].
  destruct (Body.grow b) eqn:Hg.
  - rewrite (bind_step _ _ _ _ _ (SnakeAdvance_ok w p b h t d Hp Hh)).
    match goal with |- context [set_heap (<[p := ?b']> _) w] => set (ba := b') end.
    set (wa := set_heap (<[p := ba]> (heap w)) w).
    rewrite (bind_step _ _ wa wa ba) by (apply deref_Some, lookup_insert_eq).
    rewrite store_Some. eexists _, _. split; [reflexivity|].
    split; [apply lookup_insert_eq|]. simpl. try rewrite Hg.
    rewrite add_exact by (apply in_range_bounds; lia).
    repeat split. simpl in Hcnt. lia.
  - assert (Hn : exists n, length (h :: t) = S (S (S n))).
    { simpl in *. exists (length t - 2)%nat. lia. }
    destruct Hn as [n Hn].
    destruct (lookup_lt_is_Some_2 (h :: t) n) as [prevSeg Hprev]; [lia|].
    destruct (lookup_lt_is_Some_2 (h :: t) (S n)) as [seg0 Hseg]; [lia|].
    assert (Hcnt' : Body.length b = Z.of_nat (S (S (S n)))) by (rewrite <- Hn; exact Hcnt).
    assert (Hmax : Body.length b <= 2 ^ 63 - 1) by lia.
    rewrite <- Hh in Hn, Hprev, Hseg.
    rewrite (bind_step _ _ _ _ _
               (SnakeRemoveTail_ok w p b n prevSeg seg0 Hp Hn Hcnt' Hmax Hprev Hseg)).
    match goal with |- context [set_heap (<[p := ?b']> _) w] => set (br := b') end.
    set (wr := set_heap (<[p := br]> (heap w)) w).
    assert (Hpr : heap wr !! p = Some br) by apply lookup_insert_eq.
    assert (Hhr : Body.Head br
                  = h :: (take n t ++ [Seg.set_tile (tail_tile prevSeg seg0) seg0])).
    { unfold br. simpl. now rewrite Hh. }
    rewrite (SnakeAdvance_ok wr p br h _ d Hpr Hhr).
    eexists _, _. split; [reflexivity|].
    split; [apply lookup_insert_eq|]. simpl. try rewrite Hg.
    rewrite add_exact by (apply in_range_bounds; lia).
    repeat split; [lia|].
    rewrite length_app, length_take. simpl. rewrite Hh in Hn. simpl in Hn. lia.
Qed.

(** C3: a [SnakeMove] that is not stopped by the death check, on a body whose
    counter is the number of its segments and at least 3.  Without pending
    growth it is [SnakeRemoveTail] followed by [SnakeAdvance] and the length is
    as before; with pending growth it is [SnakeAdvance] alone, the length is
    one more, and the flag has been cleared.  That is the state at the end of
    a call without food check; a food check changes neither the chain nor the
    counter. *)
Theorem SnakeMove_length (fuel : nat) (w : World) (p : loc) (b : Body.SnakeBody)
    (d : snakeDirection) (checkDeath : bool) :
  heap w !! p = Some b ->
  Body.length b = Z.of_nat (length (Body.Head b)) ->
  3 <= Body.length b < GoInt.max_int ->
  (checkDeath = true -> SnakeCheckDeath (Some p) d w = Ok false w) ->
  exists (w1 : World) (b1 : Body.SnakeBody),
    (if Body.grow b
     then (SnakeAdvance (Some p) d ;;;
           let* b' := deref (Some p) in store (Some p) (Body.set_grow false b'))
     else (SnakeRemoveTail (Some p) ;;; SnakeAdvance (Some p) d)) w = Ok tt w1 /\
    SnakeMove fuel (Some p) d checkDeath false w = Ok tt w1 /\
    heap w1 !! p = Some b1 /\
    Body.grow b1 = false /\
    Body.length b1 = (if Body.grow b then Body.length b + 1 else Body.length b) /\
    Z.of_nat (length (Body.Head b1)) = Body.length b1 /\
    (forall w2, SnakeMove fuel (Some p) d checkDeath true w = Ok tt w2 ->
       exists b2, heap w2 !! p = Some b2 /\ Body.Head b2 = Body.Head b1 /\
                  Body.length b2 = Body.length b1).
Proof.
  intros Hp Hcnt Hlen Hcd.
  destruct (SnakeMove_body w p b d Hp Hcnt Hlen)
    as (w1 & b1 & Hrun & Hp1 & Hg1 & Hl1 & Hc1 & _).
  exists w1, b1. repeat split; try assumption.
  - rewrite (SnakeMove_alive fuel w p b d checkDeath false Hp Hcd).
    now rewrite (bind_step _ _ _ _ _ Hrun).
  - intros w2 H2.
    rewrite (SnakeMove_alive fuel w p b d checkDeath true Hp Hcd) in H2.
    rewrite (bind_step _ _ _ _ _ Hrun) in H2.
    apply bind_Ok in H2 as (ate & w3 & Hate & H2).
    destruct (SnakeCheckFood_frame p w1 w3 ate b1 Hp1 Hate)
      as (b3 & Hp3 & Hh3 & Hl3 & _ & _).
    destruct ate.
    + rewrite (bind_step _ _ w3 w3 b3) in H2 by now apply deref_Some.
      rewrite (bind_step _ _ _ _ _ (store_Some p _ w3)) in H2.
      apply SpawnFood_frame in H2 as (Hheap & _). rewrite Hheap. simpl.
      rewrite lookup_insert_eq. eexists. split; [reflexivity|]. now simpl.
    + injection H2 as <-. eauto.
Qed.

Lemma SnakeMove_length_witness :
  exists (w1 : World) (b1 : Body.SnakeBody),
    (SnakeRemoveTail (Some 1%positive) ;;; SnakeAdvance (Some 1%positive) LEFT)
      playing_straight = Ok tt w1 /\
    SnakeMove 10 (Some 1%positive) LEFT true false playing_straight = Ok tt w1 /\
    heap w1 !! 1%positive = Some b1 /\
    Body.grow b1 = false /\
    Body.length b1 = 3 /\
    Z.of_nat (length (Body.Head b1)) = Body.length b1 /\
    (forall w2,
       SnakeMove 10 (Some 1%positive) LEFT true true playing_straight = Ok tt w2 ->
       exists b2, heap w2 !! 1%positive = Some b2 /\ Body.Head b2 = Body.Head b1 /\
                  Body.length b2 = Body.length b1).
Proof.
  apply (SnakeMove_length 10 playing_straight 1%positive straight LEFT true).
  - reflexivity.
  - reflexivity.
  - unfold GoInt.max_int. simpl. lia.
  - intros _. reflexivity.
Defined.

(** ** Frames: what the engine leaves alone *)

(* take a successful run apart, one bind at a time *)
Ltac inv_M :=
  repeat match goal with
  | H : bind _ _ _ = Ok _ _ |- _ =>
      let a := fresh "a" in let w := fresh "w" in let Ha := fresh "Hrun" in
      apply bind_Ok in H as (a & w & Ha & H)
  | H : get_game _ = Ok _ _ |- _ => unfold get_game in H
  | H : modify_game _ _ = Ok _ _ |- _ => unfold modify_game in H
  | H : ret _ _ = Ok _ _ |- _ => unfold ret in H
  | H : panic _ = Ok _ _ |- _ => discriminate H
  | H : out_of_fuel _ = Ok _ _ |- _ => discriminate H
  | H : Panic = Ok _ _ |- _ => discriminate H
  | H : OutOfFuel = Ok _ _ |- _ => discriminate H
  | H : store (Some _) _ _ = Ok _ _ |- _ => rewrite store_Some in H
  | H : deref _ _ = Ok _ _ |- _ =>
      let l := fresh "l" in let Hp := fresh "Hp" in let Hl := fresh "Hl" in
      apply deref_Ok in H as (-> & l & Hp & Hl);
      first [ subst l | rewrite Hp in * | idtac ]
  | H : Ok _ _ = Ok _ _ |- _ =>
      inversion H; clear H;
      repeat match goal with E : _ = ?v |- _ => is_var v; subst v end
  | u : unit |- _ => destruct u
  end.

Lemma Intn_Ok (n r : Z) (w w' : World) :
  Intn n w = Ok r w' -> 0 <= r < n /\ w' = set_cursor (S (cursor w)) w.
Proof.
  unfold Intn. destruct (Z.leb_spec n 0); [discriminate|].
  intros [= <- <-]. split; [|reflexivity]. apply Z.mod_pos_bound. lia.
Qed.

Lemma SnakeRemoveTail_game (p : option loc) (w w' : World) :
  SnakeRemoveTail p w = Ok tt w' -> game w' = game w.
Proof.
  unfold SnakeRemoveTail. intros H. inv_M.
  destruct (tail_walk _ _ _ _) as [[iprev iseg]|]; [|discriminate].
  destruct (_ !! iprev); [|discriminate]. destruct (_ !! iseg); [|discriminate].
  now inv_M.
Qed.

Lemma SnakeAdvance_game (p : option loc) (d : snakeDirection) (w w' : World) :
  SnakeAdvance p d w = Ok tt w' -> game w' = game w.
Proof.
  unfold SnakeAdvance, SnakeGetNextPos. intros H. inv_M.
  destruct (Body.Head _) as [|h t]; [discriminate|].
  destruct (advance_tiles _ _). inv_M.
  destruct (Body.Head _); [discriminate|]. inv_M.
  match goal with H : (let '(_, _) := ?c in _) _ = _ |- _ => destruct c end.
  now inv_M.
Qed.

Lemma SnakeCheckFood_game (p : option loc) (w w' : World) (r : bool) :
  SnakeCheckFood p w = Ok r w' ->
  game w' = if r then G.set_score (GoInt.add (G.score (game w)) 1) (game w)
            else game w.
Proof.
  unfold SnakeCheckFood. intros H. inv_M.
  destruct (Body.Head _); [discriminate|].
  destruct (G.food _); [|discriminate].
  match type of H with (if ?c then _ else _) _ = _ => destruct c end; now inv_M.
Qed.

Lemma SnakeMove_score (fuel : nat) (p : option loc) (d : snakeDirection)
    (checkDeath checkFood : bool) (w w' : World) :
  SnakeMove fuel p d checkDeath checkFood w = Ok tt w' ->
  G.score (game w') = G.score (game w) \/
  G.score (game w') = GoInt.add (G.score (game w)) 1.
Proof.
  unfold SnakeMove. intros H.
  apply bind_Ok in H as (dead & w0 & Hdead & H).
  assert (w0 = w) as ->.
  { destruct checkDeath; [now apply SnakeCheckDeath_pure in Hdead | now inv_M]. }
  destruct dead; [rewrite ChangeState_GameEnd in H; inv_M; now left|].
  apply bind_Ok in H as (b & w1 & Hb & H). apply deref_Ok in Hb as (-> & _).
  apply bind_Ok in H as ([] & w2 & Hmove & H).
  assert (Hg2 : game w2 = game w).
  { destruct (negb (Body.grow b)).
    - apply bind_Ok in Hmove as ([] & w3 & Hr & Ha).
      apply SnakeRemoveTail_game in Hr. apply SnakeAdvance_game in Ha. congruence.
    - apply bind_Ok in Hmove as ([] & w3 & Ha & Hs).
      apply SnakeAdvance_game in Ha. inv_M. exact Ha. }
  destruct checkFood; [|inv_M; left; now rewrite Hg2].
  apply bind_Ok in H as (ate & w3 & Hate & H).
  apply SnakeCheckFood_game in Hate. destruct ate.
  - inv_M. apply SpawnFood_frame in H as (_ & f & ->). simpl.
    right. rewrite Hate. simpl. now rewrite Hg2.
  - inv_M. left. congruence.
Qed.

Lemma head_facing_pure (w w' : World) (f : snakeDirection) :
  head_facing w = Ok f w' -> w' = w.
Proof.
  unfold head_facing. intros H. inv_M.
  destruct (Body.Head _); [discriminate|]. now inv_M.
Qed.

Lemma RandomSnakeTongue_frame (w w' : World) :
  RandomSnakeTongue w = Ok tt w' ->
  G.score (game w') = G.score (game w) /\
  G.ticksPerMovement (game w') = G.ticksPerMovement (game w) /\
  G.state (game w') = G.state (game w).
Proof.
  unfold RandomSnakeTongue. intros H. inv_M. simpl in H.
  destruct (_ >=? _); [|now inv_M].
  inv_M. destruct (G.tongueShow _); inv_M; [easy|].
  match goal with H : Intn _ _ = _ |- _ => apply Intn_Ok in H as (_ & ->) end.
  destruct (_ >? _); now inv_M.
Qed.

(** ** The speed law *)

Lemma speed_max (score : Z) :
  0 <= score <= GoInt.max_int -> speed score = Z.max (40 - score) 7.
Proof.
  unfold GoInt.max_int, speed. intros Hs.
  rewrite sub_exact by (apply in_range_bounds; lia). lia.
Qed.

Lemma Reset_game (fuel : nat) (w w' : World) :
  Reset fuel w = Ok tt w' ->
  G.ticksPerMovement (game w') = 30 /\ G.score (game w') = 0.
Proof.
  unfold Reset, SpawnSnake, alloc. intros H. inv_M.
  apply SpawnFood_frame in H as (_ & f & ->). now simpl.
Qed.

(* the key handling of [UpdateInGame] *)
Lemma UpdateInGame_keys_frame (k : Keys.Keys) (w w' : World) :
  (if Keys.ArrowUp k then
     let* f := head_facing in
     if bool_decide (f = LEFT) || bool_decide (f = RIGHT)
     then modify_game (G.set_SnakeDirection UP) else ret tt
   else if Keys.ArrowDown k then
     let* f := head_facing in
     if bool_decide (f = LEFT) || bool_decide (f = RIGHT)
     then modify_game (G.set_SnakeDirection DOWN) else ret tt
   else if Keys.ArrowLeft k then
     let* f := head_facing in
     if bool_decide (f = UP) || bool_decide (f = DOWN)
     then modify_game (G.set_SnakeDirection LEFT) else ret tt
   else if Keys.ArrowRight k then
     let* f := head_facing in
     if bool_decide (f = UP) || bool_decide (f = DOWN)
     then modify_game (G.set_SnakeDirection RIGHT) else ret tt
   else ret tt) w = Ok tt w' ->
  G.score (game w') = G.score (game w) /\
  G.ticks (game w') = G.ticks (game w) /\
  G.ticksPerMovement (game w') = G.ticksPerMovement (game w).
Proof.
  intros H.
  repeat match type of H with
         | (if ?c then _ else _) _ = _ => destruct c
         end;
    try (apply bind_Ok in H as (f & w1 & Hf & H); apply head_facing_pure in Hf;
         subst w1;
         match type of H with (if ?c then _ else _) _ = _ => destruct c end);
    now inv_M.
Qed.

(* the key handling of [UpdateInGame] leaves the phase alone *)
Lemma UpdateInGame_keys_state (k : Keys.Keys) (w w' : World) :
  (if Keys.ArrowUp k then
     let* f := head_facing in
     if bool_decide (f = LEFT) || bool_decide (f = RIGHT)
     then modify_game (G.set_SnakeDirection UP) else ret tt
   else if Keys.ArrowDown k then
     let* f := head_facing in
     if bool_decide (f = LEFT) || bool_decide (f = RIGHT)
     then modify_game (G.set_SnakeDirection DOWN) else ret tt
   else if Keys.ArrowLeft k then
     let* f := head_facing in
     if bool_decide (f = UP) || bool_decide (f = DOWN)
     then modify_game (G.set_SnakeDirection LEFT) else ret tt
   else if Keys.ArrowRight k then
     let* f := head_facing in
     if bool_decide (f = UP) || bool_decide (f = DOWN)
     then modify_game (G.set_SnakeDirection RIGHT) else ret tt
   else ret tt) w = Ok tt w' ->
  G.state (game w') = G.state (game w).
Proof.
  intros H.
  repeat match type of H with
         | (if ?c then _ else _) _ = _ => destruct c
         end;
    try (apply bind_Ok in H as (f & w1 & Hf & H); apply head_facing_pure in Hf;
         subst w1;
         match type of H with (if ?c then _ else _) _ = _ => destruct c end);
    now inv_M.
Qed.

Lemma RandomSnakeTongue_ticks (w w' : World) :
  RandomSnakeTongue w = Ok tt w' -> G.ticks (game w') = G.ticks (game w).
Proof.
  unfold RandomSnakeTongue. intros H. inv_M. simpl in H.
  destruct (_ >=? _); [|now inv_M].
  inv_M. destruct (G.tongueShow _); inv_M; [easy|].
  match goal with H : Intn _ _ = _ |- _ => apply Intn_Ok in H as (_ & ->) end.
  destruct (_ >? _); now inv_M.
Qed.

(** C4 (amended): [Reset] starts a session at 30 ticks per move and score 0,
    and the countdown changes neither; in the playing phase, a tick on which
    no move is due counts the tick and leaves the phase, ticks-per-move and
    the score as they were, so the 30 holds until the first move; a tick on
    which the snake's move is due leaves ticks-per-move at max(40 - score, 7)
    for the score after the move, whether the move went through or ended the
    game; that is 40 at score 0, 7 at score 33 and 7 at score 100. *)
Theorem speed_law (fuel : nat) (k : Keys.Keys) (w w' : World) (e : error) :
  (ChangeState fuel StateGameStart w = Ok tt w' ->
   G.ticksPerMovement (game w') = 30 /\ G.score (game w') = 0) /\
  (G.state (game w) = StateGameStart -> Update fuel k w = Ok e w' ->
   G.ticksPerMovement (game w') = G.ticksPerMovement (game w) /\
   G.score (game w') = G.score (game w)) /\
  (G.state (game w) = StateInGame -> Keys.Q k = false ->
   0 <= G.score (game w) < GoInt.max_int ->
   G.ticksPerMovement (game w) <= GoInt.add (G.ticks (game w)) 1 ->
   Update fuel k w = Ok e w' ->
   G.ticksPerMovement (game w') = Z.max (40 - G.score (game w')) 7) /\
  (G.state (game w) = StateInGame -> Keys.Q k = false ->
   GoInt.add (G.ticks (game w)) 1 < G.ticksPerMovement (game w) ->
   Update fuel k w = Ok e w' ->
   G.state (game w') = StateInGame /\
   G.ticksPerMovement (game w') = G.ticksPerMovement (game w) /\
   G.score (game w') = G.score (game w) /\
   G.ticks (game w') = GoInt.add (G.ticks (game w)) 1) /\
  speed 0 = 40 /\ speed 33 = 7 /\ speed 100 = 7.
Proof.
  split; [|split; [|split; [|split; [|now vm_compute]]]].
  - unfold ChangeState. intros H. inv_M.
    match goal with H : Reset _ _ = _ |- _ => apply Reset_game in H end. now simpl.
  - unfold Update. intros Hst H. destruct (Keys.Q k); [now inv_M|].
    inv_M. rewrite Hst in *. inv_M. simpl in *.
    repeat match goal with
           | H : (if ?c then _ else _) _ = Ok _ _ |- _ => destruct c; inv_M
           end; unfold ChangeState in *; inv_M; now simpl.
  - unfold GoInt.max_int, Update. intros Hst -> Hsc Hdue H.
    inv_M. rewrite Hst in *. unfold UpdateInGame in *. inv_M.
    match goal with H : _ = Ok tt _ |- _ =>
      apply UpdateInGame_keys_frame in H as (Hs1 & Ht1 & Hp1) end.
    match goal with H : RandomSnakeTongue _ = _ |- _ =>
      apply RandomSnakeTongue_frame in H as (Hs2 & Hp2 & _) end.
    rewrite Hs2, Hp2. simpl in *. rewrite Ht1, Hp1 in *.
    destruct (Z.geb_spec (GoInt.add (G.ticks (game w)) 1) (G.ticksPerMovement (game w)));
      [|lia].
    inv_M. simpl.
    match goal with H : SnakeMove _ _ _ _ _ _ = _ |- _ =>
      apply SnakeMove_score in H; simpl in H; rewrite Hs1 in H end.
    apply speed_max. unfold GoInt.max_int.
    match goal with H : _ \/ _ |- _ => destruct H as [-> | ->] end; [lia|].
    rewrite add_exact by (apply in_range_bounds; lia). lia.
  - unfold Update. intros Hst -> Hwait H.
    inv_M. rewrite Hst in *. unfold UpdateInGame in *. inv_M.
    match goal with H : _ = Ok tt _ |- _ =>
      pose proof (UpdateInGame_keys_state _ _ _ H) as Hst1;
      apply UpdateInGame_keys_frame in H as (Hs1 & Ht1 & Hp1) end.
    match goal with H : RandomSnakeTongue _ = _ |- _ =>
      pose proof (RandomSnakeTongue_ticks _ _ H) as Ht2;
      apply RandomSnakeTongue_frame in H as (Hs2 & Hp2 & Hst2) end.
    rewrite Hs2, Hp2, Hst2, Ht2. simpl in *. rewrite Ht1, Hp1 in *.
    destruct (Z.geb_spec (GoInt.add (G.ticks (game w)) 1) (G.ticksPerMovement (game w)));
      [lia|].
    inv_M. simpl. repeat split; congruence.
Qed.

Lemma speed_law_witness :
  G.ticksPerMovement (game after_move)
  = Z.max (40 - G.score (game after_move)) 7 /\
  (G.state (game after_wait) = StateInGame /\
   G.ticksPerMovement (game after_wait) = G.ticksPerMovement (game playing_straight) /\
   G.score (game after_wait) = G.score (game playing_straight) /\
   G.ticks (game after_wait) = GoInt.add (G.ticks (game playing_straight)) 1).
Proof.
  split.
  - destruct (speed_law 10 Keys.none about_to_move after_move nil)
      as (_ & _ & H & _).
    apply H.
    + reflexivity.
    + reflexivity.
    + unfold GoInt.max_int. simpl. lia.
    + vm_compute. discriminate.
    + reflexivity.
  - destruct (speed_law 10 Keys.none playing_straight after_wait nil)
      as (_ & _ & _ & H & _).
    apply H.
    + reflexivity.
    + reflexivity.
    + vm_compute. reflexivity.
    + reflexivity.
Defined.

(** C4, as stated, fails at the start of a session: after the program start,
    Space in the menu and the countdown, the game is in the playing phase with
    score 0 and 30 ticks per move, not 40. *)
Lemma speed_law_counterexample :
  exists w' : World,
    session_start empty_world = Ok tt w' /\
    G.state (game w') = StateInGame /\
    G.score (game w') = 0 /\
    G.ticksPerMovement (game w') = 30 /\
    G.ticksPerMovement (game w') <> Z.max (40 - G.score (game w')) 7.
Proof.
  eexists. split; [vm_compute; reflexivity|].
  repeat split. discriminate.
Qed.

(** ** Food placement *)

Lemma SpawnFood_S (fuel : nat) :
  SpawnFood (S fuel)
  = (let* g := get_game in
     let* x := Intn (GoInt.sub (G.width g) 1) in
     let* y := Intn (GoInt.sub (G.height g) 1) in
     let* active := deref (G.SnakeBody g) in
     match Body.Head active with
     | [] => panic
     | chain =>
         if occupies x y chain then SpawnFood fuel
         else modify_game (G.set_food (Some (Food.mk x y)))
     end).
Proof. reflexivity. Qed.

(** C6: the food is never on a segment of the active snake, but the two draws
    are [rand.Intn(g.width - 1)] and [rand.Intn(g.height - 1)], so the food
    is never in the last column nor in the last row of the board either,
    whatever the random stream. *)
Theorem SpawnFood_misses_last_row_and_column (fuel : nat) (w w' : World) :
  0 < G.width (game w) <= GoInt.max_int ->
  0 < G.height (game w) <= GoInt.max_int ->
  SpawnFood fuel w = Ok tt w' ->
  exists (f : Food.Food) (a : Body.SnakeBody),
    G.food (game w') = Some f /\
    0 <= Food.x f < G.width (game w) - 1 /\
    0 <= Food.y f < G.height (game w) - 1 /\
    deref (G.SnakeBody (game w)) w = Ok a w /\
    forall s, s ∈ Body.Head a -> (Seg.x s, Seg.y s) <> (Food.x f, Food.y f).
Proof.
  unfold GoInt.max_int. intros Hw Hh.
  revert w Hw Hh. induction fuel as [|fuel IH]; intros w Hw Hh H; [discriminate|].
  rewrite SpawnFood_S in H. unfold get_game in H.
  rewrite (bind_step _ _ w w (game w)) in H by reflexivity.
  apply bind_Ok in H as (x & w1 & Hx & H). apply Intn_Ok in Hx as (Hx & ->).
  apply bind_Ok in H as (y & w2 & Hy & H). apply Intn_Ok in Hy as (Hy & ->).
  apply bind_Ok in H as (a & w3 & Ha & H).
  apply deref_Ok in Ha as (-> & l & Hl & Hheap). simpl in Hy, Hl, Hheap.
  rewrite sub_exact in Hx, Hy by (apply in_range_bounds; lia).
  assert (Ha : deref (G.SnakeBody (game w)) w = Ok a w).
  { rewrite Hl. now apply deref_Some. }
  destruct (Body.Head a) as [|s t] eqn:Hs; [discriminate|].
  destruct (occupies x y (s :: t)) eqn:Hocc.
  - apply IH in H as (f & a1 & Hf & Hfx & Hfy & Ha1 & Hfree);
      [|exact Hw|exact Hh].
    exists f, a. simpl in Hfx, Hfy. repeat split; try assumption; try lia.
    simpl in Ha1. rewrite Hl in Ha1. unfold deref in Ha1. simpl in Ha1.
    rewrite Hheap in Ha1. injection Ha1 as <-. exact Hfree.
  - injection H as <-. exists (Food.mk x y), a.
    simpl. repeat split; try lia; try assumption.
    intros s0 Hin Heq. rewrite <- Hs in Hocc.
    assert (occupies x y (Body.Head a) = true) by (apply occupies_spec; eauto).
    congruence.
Qed.

Lemma SpawnFood_misses_last_row_and_column_witness :
  exists (f : Food.Food) (a : Body.SnakeBody),
    G.food (game after_food) = Some f /\
    0 <= Food.x f < 27 - 1 /\
    0 <= Food.y f < 20 - 1 /\
    deref (Some 1%positive) playing_straight = Ok a playing_straight /\
    forall s, s ∈ Body.Head a -> (Seg.x s, Seg.y s) <> (Food.x f, Food.y f).
Proof.
  apply (SpawnFood_misses_last_row_and_column 10 playing_straight after_food).
  - unfold GoInt.max_int. simpl. lia.
  - unfold GoInt.max_int. simpl. lia.
  - reflexivity.
Defined.

(* one round of [SpawnFood]: the two draws and the scan *)
Lemma SpawnFood_round (fuel : nat) (w : World) (a : Body.SnakeBody)
    (s : Seg.SnakeBodySegment) (t : list Seg.SnakeBodySegment) :
  0 < GoInt.sub (G.width (game w)) 1 -> 0 < GoInt.sub (G.height (game w)) 1 ->
  deref (G.SnakeBody (game w)) w = Ok a w -> Body.Head a = s :: t ->
  SpawnFood (S fuel) w
  = if occupies (draws w (cursor w) mod GoInt.sub (G.width (game w)) 1)
                (draws w (S (cursor w)) mod GoInt.sub (G.height (game w)) 1)
                (s :: t)
    then SpawnFood fuel (set_cursor (S (S (cursor w))) w)
    else Ok tt (set_game
                  (G.set_food
                     (Some (Food.mk
                        (draws w (cursor w) mod GoInt.sub (G.width (game w)) 1)
                        (draws w (S (cursor w)) mod GoInt.sub (G.height (game w)) 1)))
                     (game w))
                  (set_cursor (S (S (cursor w))) w)).
Proof.
  intros Hw Hh Ha Hs. rewrite SpawnFood_S.
  rewrite (bind_step _ _ w w (game w)) by reflexivity.
  rewrite (bind_step _ _ w (set_cursor (S (cursor w)) w)
             (draws w (cursor w) mod GoInt.sub (G.width (game w)) 1)).
  2:{ unfold Intn. destruct (Z.leb_spec (GoInt.sub (G.width (game w)) 1) 0); [lia|].
      reflexivity. }
  rewrite (bind_step _ _ _ (set_cursor (S (S (cursor w))) w)
             (draws w (S (cursor w)) mod GoInt.sub (G.height (game w)) 1)).
  2:{ unfold Intn. simpl.
      destruct (Z.leb_spec (GoInt.sub (G.height (game w)) 1) 0); [lia|]. reflexivity. }
  rewrite (bind_step _ _ _ (set_cursor (S (S (cursor w))) w) a).
  2:{ unfold deref in *. simpl. destruct (G.SnakeBody (game w)); [|discriminate].
      destruct (heap w !! l); [|discriminate]. now injection Ha as ->. }
  rewrite Hs. now destruct (occupies _ _ (s :: t)).
Qed.

(* Every free cell outside the last row and column can be drawn, and then the
   call returns with the food there: the loop ends as soon as the stream
   offers a free cell. *)
Lemma SpawnFood_reaches (fuel : nat) (w : World) (a : Body.SnakeBody) (x y : Z) :
  G.width (game w) <= GoInt.max_int -> G.height (game w) <= GoInt.max_int ->
  0 <= x < G.width (game w) - 1 -> 0 <= y < G.height (game w) - 1 ->
  deref (G.SnakeBody (game w)) w = Ok a w -> Body.Head a <> [] ->
  occupies x y (Body.Head a) = false ->
  draws w (cursor w) = x -> draws w (S (cursor w)) = y ->
  SpawnFood (S fuel) w
  = Ok tt (set_game (G.set_food (Some (Food.mk x y)) (game w))
             (set_cursor (S (S (cursor w))) w)).
Proof.
  unfold GoInt.max_int. intros Hw Hh Hx Hy Ha Hne Hfree Hdx Hdy.
  destruct (Body.Head a) as [|s t] eqn:Hs; [congruence|].
  rewrite (SpawnFood_round fuel w a s t);
    rewrite ?sub_exact by (apply in_range_bounds; lia); try lia; try assumption.
  rewrite Hdx, Hdy, !Z.mod_small by lia. now rewrite Hfree.
Qed.

(** ** Tail removal on a short body *)

Lemma tail_tile_same (s : Seg.SnakeBodySegment) :
  Seg.set_tile (tail_tile s s) s = s.
Proof.
  unfold tail_tile. rewrite !Z.ltb_irrefl, !Z.gtb_ltb, !Z.ltb_irrefl. now destruct s.
Qed.

(** C8 (amended): on a body whose length counter is at most 1,
    [SnakeRemoveTail] checks nothing.  With a head segment it returns: the
    chain is cut after the head, whose tile stays, and the counter goes down
    by one, to 0 or below.  Only a nil head stops it, by the nil dereference
    of [seg.next = nil]. *)
Theorem SnakeRemoveTail_short_body (w : World) (p : loc) (b : Body.SnakeBody) :
  heap w !! p = Some b ->
  GoInt.min_int < Body.length b <= 1 ->
  SnakeRemoveTail (Some p) w
  = match Body.Head b with
    | [] => Panic
    | h :: _ =>
        Ok tt (set_heap
                 (<[p := Body.mk [h] (Body.grow b) (Body.length b - 1)]> (heap w)) w)
    end.
Proof.
  unfold GoInt.min_int. intros Hp Hlen. unfold SnakeRemoveTail.
  rewrite (bind_step _ _ w w b) by now apply deref_Some.
  rewrite sub_exact by (apply in_range_bounds; lia).
  replace (Z.to_nat (Body.length b - 1 - 1)) with 0%nat by lia.
  simpl. destruct (Body.Head b) as [|h t]; [reflexivity|].
  simpl. now rewrite tail_tile_same.
Qed.

Lemma SnakeRemoveTail_short_body_witness :
  SnakeRemoveTail (Some 1%positive) lone_world
  = Ok tt (set_heap
             (<[1%positive := Body.mk [seg 5 5 UP SnakeHeadUp] false 0]>
                (heap lone_world)) lone_world).
Proof.
  apply (SnakeRemoveTail_short_body lone_world 1%positive lone).
  - reflexivity.
  - unfold GoInt.min_int. simpl. lia.
Defined.

(** C8, as stated, fails on a body of one segment with counter 1: the call
    does not fail, and leaves the body with its segment and a counter of 0. *)
Lemma SnakeRemoveTail_short_body_counterexample :
  Body.length lone <= 1 /\
  exists w' : World,
    SnakeRemoveTail (Some 1%positive) lone_world = Ok tt w' /\
    heap w' !! 1%positive = Some (Body.mk [seg 5 5 UP SnakeHeadUp] false 0) /\
    heap w' !! 1%positive <> heap lone_world !! 1%positive.
Proof.
  split; [simpl; lia|].
  eexists. split; [vm_compute; reflexivity|]. split; [reflexivity|]. discriminate.
Qed.

(** ** The menu snake's direction *)

Lemma RandomSnakeDirection_loop_left (fuel : nat) (cur d : snakeDirection)
    (w w' : World) :
  cur = UP \/ cur = DOWN ->
  RandomSnakeDirection_loop fuel cur w = Ok d w' -> d = LEFT.
Proof.
  intros Hcur. revert w. induction fuel as [|fuel IH]; intros w H; [discriminate|].
  simpl in H. apply bind_Ok in H as (n & w1 & Hn & H).
  apply Intn_Ok in Hn as (Hn & ->).
  assert (Hcases : n = 0 \/ n = 1 \/ n = 2) by lia.
  destruct Hcur as [-> | ->]; destruct Hcases as [-> | [-> | ->]];
    vm_compute snakeDirection_of_int in H;
    first [ now apply IH in H | now injection H ].
Qed.

(** C9: from a facing of UP or DOWN, [RandomSnakeDirection] returns the
    current direction or LEFT, on every random stream: the turn is drawn by
    [rand.Intn(3) + 1], which is UP, DOWN or LEFT and never RIGHT. *)
Theorem RandomSnakeDirection_never_turns_right (fuel : nat)
    (cur d : snakeDirection) (w w' : World) :
  cur = UP \/ cur = DOWN ->
  RandomSnakeDirection fuel cur w = Ok d w' ->
  d = cur \/ d = LEFT.
Proof.
  intros Hcur H. unfold RandomSnakeDirection in H.
  apply bind_Ok in H as (n & w1 & Hn & H).
  destruct (n <=? 50).
  - left. now injection H.
  - right. exact (RandomSnakeDirection_loop_left fuel cur d w1 w' Hcur H).
Qed.

Lemma RandomSnakeDirection_never_turns_right_witness :
  LEFT = UP \/ LEFT = LEFT.
Proof.
  apply (RandomSnakeDirection_never_turns_right 5 UP LEFT turning_world
           (set_cursor 2 turning_world)).
  - left. reflexivity.
  - reflexivity.
Defined.

(* The straight branch is taken on 51 of the 100 values of [rand.Intn(100)]:
   the test is [<= 50]. *)
Lemma RandomSnakeDirection_straight (fuel : nat) (cur : snakeDirection) (w : World) :
  RandomSnakeDirection fuel cur w
  = if draws w (cursor w) mod 100 <=? 50
    then Ok cur (set_cursor (S (cursor w)) w)
    else RandomSnakeDirection_loop fuel cur (set_cursor (S (cursor w)) w).
Proof.
  unfold RandomSnakeDirection.
  rewrite (bind_step _ _ w (set_cursor (S (cursor w)) w) (draws w (cursor w) mod 100))
    by reflexivity.
  now destruct (_ <=? 50).
Qed.

Lemma straight_draws_count :
  length (filter (fun n => n <=? 50) (seqZ 0 100)) = 51%nat.
Proof. reflexivity. Qed.

(* From LEFT or RIGHT both turns are there: a draw of 0 turns UP, 1 DOWN. *)
Lemma RandomSnakeDirection_loop_sideways (fuel : nat) (cur : snakeDirection) (w : World) :
  cur = LEFT \/ cur = RIGHT ->
  (draws w (cursor w) mod 3 = 0 ->
   RandomSnakeDirection_loop (S fuel) cur w = Ok UP (set_cursor (S (cursor w)) w)) /\
  (draws w (cursor w) mod 3 = 1 ->
   RandomSnakeDirection_loop (S fuel) cur w = Ok DOWN (set_cursor (S (cursor w)) w)).
Proof.
  intros Hcur. split; intros Hd; simpl; unfold bind, Intn; simpl; rewrite Hd;
    destruct Hcur as [-> | ->]; reflexivity.
Qed.

(** ** The dying phase *)

Lemma skeletonize_behind_marked (l1 l2 : list Seg.SnakeBodySegment) :
  skeletonize (map (Seg.set_skeleton true) l1 ++ l2)
  = match skeletonize l2 with
    | Some l2' => Some (map (Seg.set_skeleton true) l1 ++ l2')
    | None => None
    end.
Proof.
  induction l1 as [|s l1 IH]; simpl.
  - now destruct (skeletonize l2).
  - rewrite IH. now destruct (skeletonize l2).
Qed.

Lemma skeletonize_marked (chain : list Seg.SnakeBodySegment) (k : nat)
    (s : Seg.SnakeBodySegment) :
  Forall (fun s => Seg.skeleton s = false) chain ->
  chain !! k = Some s ->
  skeletonize (marked k chain) = Some (marked (S k) chain).
Proof.
  intros Hfresh Hk. unfold marked.
  rewrite skeletonize_behind_marked, (drop_S _ _ _ Hk). simpl.
  rewrite (proj1 (Forall_lookup _ _) Hfresh k s Hk). simpl.
  rewrite (take_S_r _ _ _ Hk), map_app. simpl. now rewrite <- app_assoc.
Qed.

Lemma skeletonize_all_marked (chain : list Seg.SnakeBodySegment) :
  skeletonize (marked (length chain) chain) = None.
Proof.
  unfold marked. rewrite skeletonize_behind_marked, drop_all. reflexivity.
Qed.

Lemma marked_all (chain : list Seg.SnakeBodySegment) :
  marked (length chain) chain = map (Seg.set_skeleton true) chain.
Proof. unfold marked. now rewrite firstn_all, drop_all, app_nil_r. Qed.

Lemma marked_nonempty (chain : list Seg.SnakeBodySegment) (k : nat) :
  chain <> [] -> marked k chain <> [].
Proof.
  unfold marked. destruct chain as [|s t]; [congruence|]. intros _.
  destruct k; discriminate.
Qed.

Lemma Update_dying (fuel : nat) (w : World) :
  G.state (game w) = StateGameEnd ->
  Update fuel Keys.none w = (UpdateEndGame fuel ;;; ret nil) w.
Proof.
  intros Hst. unfold Update. simpl (Keys.Q Keys.none). cbv iota.
  rewrite (bind_step _ _ w w (game w)) by reflexivity. now rewrite Hst.
Qed.

(* the tick on which the timer only counts *)
Lemma tick_wait (fuel : nat) (p : loc) (chain : list Seg.SnakeBodySegment)
    (k : nat) (w : World) :
  dying_at p chain k 0 w ->
  exists w', Update fuel Keys.none w = Ok nil w' /\ dying_at p chain k 1 w'.
Proof.
  intros (Hst & Hp & Ht & Hper & b & Hb & Hh).
  rewrite (Update_dying fuel w Hst).
  unfold UpdateEndGame, bind, get_game, modify_game. simpl.
  rewrite Ht, Hper. simpl. eexists. split; [reflexivity|].
  unfold dying_at. simpl. repeat split; try assumption. eauto.
Qed.

(* the tick on which the next segment is turned *)
Lemma tick_mark (fuel : nat) (p : loc) (chain : list Seg.SnakeBodySegment)
    (k : nat) (s : Seg.SnakeBodySegment) (w : World) :
  Forall (fun s => Seg.skeleton s = false) chain ->
  chain !! k = Some s ->
  dying_at p chain k 1 w ->
  exists w', Update fuel Keys.none w = Ok nil w' /\ dying_at p chain (S k) 0 w'.
Proof.
  intros Hfresh Hk (Hst & Hp & Ht & Hper & b & Hb & Hh).
  assert (Hne : chain <> []) by (intros ->; discriminate).
  rewrite (Update_dying fuel w Hst).
  unfold UpdateEndGame, bind, get_game, modify_game. simpl.
  rewrite Ht, Hper. simpl. rewrite Hp. unfold deref. simpl. rewrite Hb, Hh.
  pose proof (marked_nonempty chain k Hne) as Hm.
  pose proof (skeletonize_marked chain k s Hfresh Hk) as Hsk.
  destruct (marked k chain) as [|m ms] eqn:Em; [congruence|].
  simpl in Hsk. rewrite Hsk. simpl.
  eexists. split; [reflexivity|].
  unfold dying_at. simpl. repeat split; try assumption.
  eexists. split; [apply lookup_insert_eq|]. reflexivity.
Qed.

(* the tick on which no segment is left to turn *)
Lemma tick_over (fuel : nat) (p : loc) (chain : list Seg.SnakeBodySegment)
    (w : World) :
  chain <> [] ->
  dying_at p chain (length chain) 1 w ->
  exists w', Update fuel Keys.none w = Ok nil w' /\
             G.state (game w') = StateGameOver /\
             exists b, heap w' !! p = Some b /\
                       Body.Head b = map (Seg.set_skeleton true) chain.
Proof.
  intros Hne (Hst & Hp & Ht & Hper & b & Hb & Hh).
  rewrite (Update_dying fuel w Hst).
  unfold UpdateEndGame, bind, get_game, modify_game. simpl.
  rewrite Ht, Hper. simpl. rewrite Hp. unfold deref. simpl. rewrite Hb, Hh.
  pose proof (marked_nonempty chain (length chain) Hne) as Hm.
  pose proof (skeletonize_all_marked chain) as Hsk.
  destruct (marked (length chain) chain) as [|m ms] eqn:Em; [congruence|].
  simpl in Hsk. rewrite Hsk. simpl.
  eexists. split; [reflexivity|]. simpl. split; [reflexivity|].
  exists b. split; [assumption|]. rewrite Hh, <- Em. apply marked_all.
Qed.

Lemma idle_ticks_snoc (fuel n : nat) (w w1 w2 : World) (e : error) :
  idle_ticks fuel n w = Ok tt w1 ->
  Update fuel Keys.none w1 = Ok e w2 ->
  idle_ticks fuel (S n) w = Ok tt w2.
Proof.
  revert w. induction n as [|n IH]; intros w Hn Hu.
  - injection Hn as ->. simpl. unfold bind. now rewrite Hu.
  - change (idle_ticks fuel (S n) w)
      with ((Update fuel Keys.none ;;; idle_ticks fuel n) w) in Hn.
    apply bind_Ok in Hn as (e0 & w0 & Hu0 & Hn).
    change (idle_ticks fuel (S (S n)) w)
      with ((Update fuel Keys.none ;;; idle_ticks fuel (S n)) w).
    rewrite (bind_step _ _ _ _ _ Hu0). now apply IH.
Qed.

Lemma marked_0 (chain : list Seg.SnakeBodySegment) : marked 0 chain = chain.
Proof. reflexivity. Qed.

(* after 2k ticks of the dying phase the first k segments are turned *)
Lemma dying_even_ticks (fuel : nat) (p : loc) (chain : list Seg.SnakeBodySegment)
    (w : World) (k : nat) :
  Forall (fun s => Seg.skeleton s = false) chain ->
  dying_at p chain 0 0 w ->
  (k <= length chain)%nat ->
  exists w1, idle_ticks fuel (2 * k) w = Ok tt w1 /\ dying_at p chain k 0 w1.
Proof.
  intros Hfresh H0. induction k as [|k IH]; intros Hk.
  - exists w. now split.
  - destruct IH as (w1 & Hrun & Hd); [lia|].
    destruct (tick_wait fuel p chain k w1 Hd) as (w2 & Hu2 & Hd2).
    destruct (lookup_lt_is_Some_2 chain k) as [s Hs]; [lia|].
    destruct (tick_mark fuel p chain k s w2 Hfresh Hs Hd2) as (w3 & Hu3 & Hd3).
    exists w3. split; [|exact Hd3].
    replace (2 * S k)%nat with (S (S (2 * k))) by lia.
    apply (idle_ticks_snoc fuel _ w w2 w3 nil); [|exact Hu3].
    apply (idle_ticks_snoc fuel _ w w1 w2 nil); assumption.
Qed.

(** C7 (amended): in the dying phase, with the timer at 0 and an interval of
    2 ticks, a body of n segments none of which is a skeleton has exactly its
    first k segments turned after 2k ticks and after 2k+1 ticks, for every
    k <= n, and the game is still in StateGameEnd then; so after 2n ticks all
    segments are skeleton, and the change to StateGameOver comes with tick
    2n+2, when a scan finds no segment left to turn. *)
Theorem dying_phase_skeletonizes (fuel : nat) (w : World) (p : loc)
    (b : Body.SnakeBody) :
  G.state (game w) = StateGameEnd ->
  G.SnakeBody (game w) = Some p ->
  heap w !! p = Some b ->
  Body.Head b <> [] ->
  Forall (fun s => Seg.skeleton s = false) (Body.Head b) ->
  G.skeleTicks (game w) = 0 ->
  G.skeleTicksPerSegment (game w) = 2 ->
  (forall k, (k <= length (Body.Head b))%nat ->
     exists w1 w2,
       idle_ticks fuel (2 * k) w = Ok tt w1 /\
       dying_at p (Body.Head b) k 0 w1 /\
       idle_ticks fuel (2 * k + 1) w = Ok tt w2 /\
       dying_at p (Body.Head b) k 1 w2) /\
  exists w' b',
    idle_ticks fuel (2 * length (Body.Head b) + 2) w = Ok tt w' /\
    G.state (game w') = StateGameOver /\
    heap w' !! p = Some b' /\
    Body.Head b' = map (Seg.set_skeleton true) (Body.Head b).
Proof.
  intros Hst Hp Hb Hne Hfresh Ht Hper.
  assert (H0 : dying_at p (Body.Head b) 0 0 w).
  { unfold dying_at. repeat split; try assumption. exists b. now split. }
  assert (Hstep : forall k, (k <= length (Body.Head b))%nat ->
     exists w1 w2,
       idle_ticks fuel (2 * k) w = Ok tt w1 /\
       dying_at p (Body.Head b) k 0 w1 /\
       idle_ticks fuel (2 * k + 1) w = Ok tt w2 /\
       dying_at p (Body.Head b) k 1 w2).
  { intros k Hk.
    destruct (dying_even_ticks fuel p (Body.Head b) w k Hfresh H0 Hk)
      as (w1 & Hrun & Hd).
    destruct (tick_wait fuel p (Body.Head b) k w1 Hd) as (w2 & Hu2 & Hd2).
    exists w1, w2. split; [exact Hrun|]. split; [exact Hd|]. split; [|exact Hd2].
    replace (2 * k + 1)%nat with (S (2 * k)) by lia.
    exact (idle_ticks_snoc fuel _ w w1 w2 nil Hrun Hu2). }
  split; [exact Hstep|].
  destruct (Hstep (length (Body.Head b)) (le_n _)) as (w1 & w2 & _ & _ & Hrun & Hd).
  destruct (tick_over fuel p (Body.Head b) w2 Hne Hd) as (w3 & Hu3 & Hst3 & b3 & Hb3 & Hh3).
  exists w3, b3. split; [|now repeat split].
  replace (2 * length (Body.Head b) + 2)%nat
    with (S (2 * length (Body.Head b) + 1)) by lia.
  exact (idle_ticks_snoc fuel _ w w2 w3 nil Hrun Hu3).
Qed.

Lemma dying_phase_skeletonizes_witness :
  exists w' b',
    idle_ticks 10 12 dying_five = Ok tt w' /\
    G.state (game w') = StateGameOver /\
    heap w' !! 1%positive = Some b' /\
    Body.Head b' = map (Seg.set_skeleton true) (Body.Head five).
Proof.
  apply (dying_phase_skeletonizes 10 dying_five 1%positive five).
  - reflexivity.
  - reflexivity.
  - reflexivity.
  - discriminate.
  - repeat constructor.
  - reflexivity.
  - reflexivity.
Defined.

(** C7, as stated, fails on a body of five: after 10 ticks of the dying
    phase all five segments are skeleton, but the game is still in
    StateGameEnd, not in StateGameOver. *)
Lemma dying_phase_counterexample :
  exists (w' : World) (b' : Body.SnakeBody),
    idle_ticks 10 10 dying_five = Ok tt w' /\
    heap w' !! 1%positive = Some b' /\
    length (Body.Head b') = 5%nat /\
    Forall (fun s => Seg.skeleton s = true) (Body.Head b') /\
    G.state (game w') = StateGameEnd /\
    G.state (game w') <> StateGameOver.
Proof.
  eexists. eexists. split; [vm_compute; reflexivity|].
  split; [vm_compute; reflexivity|].
  split; [reflexivity|]. split; [repeat constructor|].
  split; [reflexivity|discriminate].
Qed.

(** ** The player's snake keeps its three segments

    The hypotheses the statements above make on the active snake hold
    throughout a player session: [Reset] spawns a snake of three, and the
    countdown and the playing phase keep the counter equal to the number of
    segments and at least 3 (as long as the counter stays below the largest
    int). *)

Lemma snake_ok_tail (w : World) :
  snake_ok w ->
  exists p b h s t,
    G.SnakeBody (game w) = Some p /\ heap w !! p = Some b /\
    Body.Head b = h :: s :: t.
Proof.
  intros (p & b & Hp & Hb & Hcnt & Hlen).
  destruct (Body.Head b) as [|h [|s t]] eqn:Hh; simpl in Hcnt; try lia.
  exists p, b, h, s, t. now rewrite Hh.
Qed.

Lemma Reset_snake_ok (fuel : nat) (w w' : World) :
  Reset fuel w = Ok tt w' -> snake_ok w'.
Proof.
  unfold Reset, SpawnSnake, alloc. intros H. inv_M.
  apply SpawnFood_frame in H as (Hheap & f & Hgame).
  unfold snake_ok. rewrite Hgame, Hheap. simpl.
  eexists _, _. split; [reflexivity|]. split; [apply lookup_insert_eq|].
  simpl. split; [reflexivity|lia].
Qed.

Lemma SnakeMove_snake_ok (fuel : nat) (d : snakeDirection)
    (checkDeath checkFood : bool) (w w' : World) :
  snake_ok w ->
  (forall p b, G.SnakeBody (game w) = Some p -> heap w !! p = Some b ->
               Body.length b < GoInt.max_int) ->
  SnakeMove fuel (G.SnakeBody (game w)) d checkDeath checkFood w = Ok tt w' ->
  snake_ok w'.
Proof.
  intros (p & b & Hp & Hb & Hcnt & Hlen) Hmax H.
  specialize (Hmax p b Hp Hb). rewrite Hp in H.
  pose proof H as H0. unfold SnakeMove in H0.
  apply bind_Ok in H0 as (dead & w0 & Hdead & H0).
  assert (w0 = w) as ->.
  { destruct checkDeath; [now apply SnakeCheckDeath_pure in Hdead | now inv_M]. }
  destruct dead.
  - rewrite ChangeState_GameEnd in H0. injection H0 as <-.
    exists p, b. now simpl.
  - clear H0.
    assert (Hcd : checkDeath = true -> SnakeCheckDeath (Some p) d w = Ok false w).
    { intros ->. exact Hdead. }
    rewrite (SnakeMove_alive fuel w p b d checkDeath checkFood Hb Hcd) in H.
    destruct (SnakeMove_body w p b d Hb Hcnt (conj Hlen Hmax))
      as (w1 & b1 & Hrun & Hb1 & _ & Hl1 & Hc1 & Hg1).
    rewrite (bind_step _ _ _ _ _ Hrun) in H.
    assert (Hl3 : 3 <= Body.length b1) by (rewrite Hl1; destruct (Body.grow b); lia).
    destruct checkFood.
    + apply bind_Ok in H as (ate & w3 & Hate & H).
      destruct (SnakeCheckFood_frame p w1 w3 ate b1 Hb1 Hate)
        as (b3 & Hb3 & Hh3 & Hl3' & _ & Hsb3).
      destruct ate.
      * rewrite (bind_step _ _ w3 w3 b3) in H by now apply deref_Some.
        rewrite (bind_step _ _ _ _ _ (store_Some p _ w3)) in H.
        apply SpawnFood_frame in H as (Hheap & f & Hgame).
        exists p, (Body.set_grow true b3). rewrite Hgame, Hheap. simpl.
        rewrite Hsb3, Hg1, Hp, lookup_insert_eq, Hh3, Hl3'.
        repeat split; [congruence | lia].
      * injection H as <-. exists p, b3.
        rewrite Hsb3, Hg1, Hp, Hh3, Hl3'. repeat split; [assumption | congruence | lia].
    + injection H as <-. exists p, b1. rewrite Hg1. repeat split; [assumption.. | congruence | lia].
Qed.

Lemma RandomSnakeTongue_heap (w w' : World) :
  RandomSnakeTongue w = Ok tt w' ->
  heap w' = heap w /\ G.SnakeBody (game w') = G.SnakeBody (game w).
Proof.
  unfold RandomSnakeTongue. intros H. inv_M. simpl in H.
  destruct (_ >=? _); [|now inv_M].
  inv_M. destruct (G.tongueShow _); inv_M; [easy|].
  match goal with H : Intn _ _ = _ |- _ => apply Intn_Ok in H as (_ & ->) end.
  destruct (_ >? _); now inv_M.
Qed.

Lemma UpdateInGame_keys_heap (k : Keys.Keys) (w w' : World) :
  (if Keys.ArrowUp k then
     let* f := head_facing in
     if bool_decide (f = LEFT) || bool_decide (f = RIGHT)
     then modify_game (G.set_SnakeDirection UP) else ret tt
   else if Keys.ArrowDown k then
     let* f := head_facing in
     if bool_decide (f = LEFT) || bool_decide (f = RIGHT)
     then modify_game (G.set_SnakeDirection DOWN) else ret tt
   else if Keys.ArrowLeft k then
     let* f := head_facing in
     if bool_decide (f = UP) || bool_decide (f = DOWN)
     then modify_game (G.set_SnakeDirection LEFT) else ret tt
   else if Keys.ArrowRight k then
     let* f := head_facing in
     if bool_decide (f = UP) || bool_decide (f = DOWN)
     then modify_game (G.set_SnakeDirection RIGHT) else ret tt
   else ret tt) w = Ok tt w' ->
  heap w' = heap w /\ G.SnakeBody (game w') = G.SnakeBody (game w).
Proof.
  intros H.
  repeat match type of H with
         | (if ?c then _ else _) _ = _ => destruct c
         end;
    try (apply bind_Ok in H as (f & w1 & Hf & H); apply head_facing_pure in Hf;
         subst w1;
         match type of H with (if ?c then _ else _) _ = _ => destruct c end);
    now inv_M.
Qed.

Lemma snake_ok_ext (w w' : World) :
  heap w' = heap w -> G.SnakeBody (game w') = G.SnakeBody (game w) ->
  snake_ok w -> snake_ok w'.
Proof.
  intros Hh Hs (p & b & Hp & Hb & Hok). exists p, b. rewrite Hh, Hs. now split.
Qed.

(* a tick of the countdown or of the playing phase *)
Lemma Update_snake_ok (fuel : nat) (k : Keys.Keys) (e : error) (w w' : World) :
  G.state (game w) = StateGameStart \/ G.state (game w) = StateInGame ->
  snake_ok w ->
  (forall p b, G.SnakeBody (game w) = Some p -> heap w !! p = Some b ->
               Body.length b < GoInt.max_int) ->
  Update fuel k w = Ok e w' ->
  snake_ok w'.
Proof.
  intros Hst Hok Hmax H. unfold Update in H.
  destruct (Keys.Q k); [now inv_M|].
  apply bind_Ok in H as (g & w0 & Hg & H). injection Hg as <- <-.
  apply bind_Ok in H as ([] & w1 & H & Hret). injection Hret as _ <-.
  destruct Hst as [Hst | Hst]; rewrite Hst in H.
  - inv_M. simpl in *.
    repeat match goal with
           | H : (if ?c then _ else _) _ = Ok _ _ |- _ => destruct c; inv_M
           end; unfold ChangeState in *; inv_M;
      (eapply snake_ok_ext; [| |exact Hok]; reflexivity).
  - unfold UpdateInGame in H.
    apply bind_Ok in H as ([] & w2 & Hkeys & H).
    apply UpdateInGame_keys_heap in Hkeys as (Hh2 & Hs2).
    apply bind_Ok in H as (g2 & w3 & Hg & H). injection Hg as <- <-.
    apply bind_Ok in H as ([] & w3 & Hm & H). injection Hm as <-.
    apply bind_Ok in H as (g3 & w4 & Hg & H). injection Hg as <- <-.
    apply bind_Ok in H as ([] & w5 & Hmove & Htongue).
    apply RandomSnakeTongue_heap in Htongue as (Hh6 & Hs6).
    eapply snake_ok_ext; [exact Hh6 | exact Hs6 |].
    simpl in Hmove.
    destruct (_ >=? _) in Hmove; [|injection Hmove as <-;
      eapply snake_ok_ext; [| |exact Hok]; simpl; congruence].
    apply bind_Ok in Hmove as ([] & w6 & Hm & Hmove). injection Hm as <-.
    apply bind_Ok in Hmove as ([] & w7 & Hmove & Hspeed).
    apply bind_Ok in Hspeed as (g7 & w8 & Hg & Hspeed). injection Hg as <- <-.
    injection Hspeed as <-.
    apply (snake_ok_ext w7); [reflexivity | reflexivity |].
    simpl in Hmove.
    set (wm := set_game (G.set_ticks 0 (G.set_ticks (GoInt.add (G.ticks (game w2)) 1)
                                          (game w2)))
                 (set_game (G.set_ticks (GoInt.add (G.ticks (game w2)) 1) (game w2)) w2))
      in *.
    apply (SnakeMove_snake_ok fuel (G.SnakeDirection (game w2)) true true wm w7).
    + apply (snake_ok_ext w); [exact Hh2 | exact Hs2 | exact Hok].
    + intros p b Hp Hb. apply (Hmax p b).
      * simpl in Hp. congruence.
      * simpl in Hb. congruence.
    + exact Hmove.
Qed.

(** * Further properties of the engine *)

(** ** The board *)

(** X1: on a board of positive size, the position [SnakeGetNextPos] returns
    is on the board, wherever the head is. *)
Theorem SnakeGetNextPos_on_board (p : option loc) (d : snakeDirection)
    (w w' : World) (x y : Z) :
  0 < G.width (game w) <= GoInt.max_int ->
  0 < G.height (game w) <= GoInt.max_int ->
  SnakeGetNextPos p d w = Ok (x, y) w' ->
  0 <= x < G.width (game w) /\ 0 <= y < G.height (game w).
Proof.
  unfold GoInt.max_int, SnakeGetNextPos. intros Hw Hh H. inv_M.
  destruct (Body.Head _) as [|h t]; [discriminate|]. inv_M.
  match goal with H : next_pos _ _ _ _ = _ |- _ => revert H end.
  unfold next_pos.
  rewrite !(sub_exact (G.width _) 1), !(sub_exact (G.height _) 1)
    by (apply in_range_bounds; lia).
  generalize (GoInt.sub (Seg.x h) 1) (GoInt.add (Seg.x h) 1)
             (GoInt.sub (Seg.y h) 1) (GoInt.add (Seg.y h) 1)
             (Seg.x h) (Seg.y h).
  intros xl xr yu yd hx hy.
  destruct d; decide_bounds; intros [= <- <-]; lia.
Qed.

Lemma SnakeGetNextPos_on_board_witness :
  0 <= 5 < 27 /\ 0 <= 19 < 20.
Proof.
  apply (SnakeGetNextPos_on_board (Some 1%positive) UP
           (set_heap {[ 1%positive := Body.mk [seg 5 0 UP SnakeHeadUp] false 1 ]}
                     playing_curled)
           (set_heap {[ 1%positive := Body.mk [seg 5 0 UP SnakeHeadUp] false 1 ]}
                     playing_curled) 5 19).
  - unfold GoInt.max_int. simpl. lia.
  - unfold GoInt.max_int. simpl. lia.
  - reflexivity.
Defined.

(** X2: from a head on the board, [SnakeGetNextPos] returns the cell one
    step further in the direction given, and a step over an edge comes back
    in at the opposite edge: the coordinate moved is taken modulo the width
    or the height.  The call changes nothing. *)
Theorem SnakeGetNextPos_wraps (w : World) (p : loc) (b : Body.SnakeBody)
    (h : Seg.SnakeBodySegment) (t : list Seg.SnakeBodySegment)
    (d : snakeDirection) :
  0 < G.width (game w) <= GoInt.max_int ->
  0 < G.height (game w) <= GoInt.max_int ->
  heap w !! p = Some b -> Body.Head b = h :: t ->
  0 <= Seg.x h < G.width (game w) -> 0 <= Seg.y h < G.height (game w) ->
  SnakeGetNextPos (Some p) d w
  = Ok match d with
       | UP => (Seg.x h, (Seg.y h - 1) mod G.height (game w))
       | DOWN => (Seg.x h, (Seg.y h + 1) mod G.height (game w))
       | LEFT => ((Seg.x h - 1) mod G.width (game w), Seg.y h)
       | RIGHT => ((Seg.x h + 1) mod G.width (game w), Seg.y h)
       end w.
Proof.
  intros Hw Hh Hp Hb Hx Hy.
  rewrite (SnakeGetNextPos_head w p b h t d Hp Hb).
  now rewrite next_pos_torus.
Qed.

Lemma SnakeGetNextPos_wraps_witness :
  SnakeGetNextPos (Some 1%positive) UP
    (set_heap {[ 1%positive := Body.mk [seg 5 0 UP SnakeHeadUp] false 1 ]}
              playing_curled)
  = Ok (5, (0 - 1) mod 20)
       (set_heap {[ 1%positive := Body.mk [seg 5 0 UP SnakeHeadUp] false 1 ]}
                 playing_curled).
Proof.
  apply (SnakeGetNextPos_wraps
           (set_heap {[ 1%positive := Body.mk [seg 5 0 UP SnakeHeadUp] false 1 ]}
                     playing_curled)
           1%positive (Body.mk [seg 5 0 UP SnakeHeadUp] false 1)
           (seg 5 0 UP SnakeHeadUp) [] UP);
    first [ reflexivity | unfold GoInt.max_int; simpl; lia ].
Defined.

(** ** Tiles *)

(** X3: when [SnakeAdvance] turns the old head into a body piece, the new head
    gets the Head tile of the new direction; the old head gets the straight
    Body tile of the new direction if the snake keeps its line, and otherwise
    the bend that connects the side the snake came from (opposite to the old
    facing) with the side it leaves by (the new direction). *)
Theorem advance_tiles_connect (d facing : snakeDirection) :
  (advance_tiles d facing).1 = SnakeTypeHead + direction_rotation d /\
  (perpendicular d facing = false ->
   (advance_tiles d facing).2 = SnakeTypeBody + direction_rotation d) /\
  (perpendicular d facing = true ->
   Some (advance_tiles d facing).2 = bend_connecting (opposite facing) d).
Proof.
  destruct d, facing; repeat split; intros; try reflexivity; discriminate.
Qed.

Lemma advance_tiles_connect_witness :
  Some (advance_tiles RIGHT UP).2 = bend_connecting (opposite UP) RIGHT.
Proof.
  destruct (advance_tiles_connect RIGHT UP) as (_ & _ & H). apply H. reflexivity.
Defined.

(* decide the comparisons of [tail_tile] *)
Ltac decide_tail :=
  repeat match goal with
  | |- context [?a <? ?b] => destruct (Z.ltb_spec a b); try lia
  | |- context [?a >? ?b] =>
      rewrite (Z.gtb_ltb a b); destruct (Z.ltb_spec b a); try lia
  | |- context [?a =? ?b] => destruct (Z.eqb_spec a b); try lia
  end; try reflexivity.

(** X4: when [SnakeRemoveTail] re-tiles the new last segment, whose
    predecessor lies one [next_pos] step away in direction d, the tile is the
    Tail tile of d, also when that step wrapped around the board -- on a board
    at least 3 wide and 3 high, with the segment on the board. *)
Theorem tail_tile_follows_motion (width height : Z)
    (prevSeg seg0 : Seg.SnakeBodySegment) (d : snakeDirection) :
  3 <= width <= GoInt.max_int -> 3 <= height <= GoInt.max_int ->
  0 <= Seg.x seg0 < width -> 0 <= Seg.y seg0 < height ->
  (Seg.x prevSeg, Seg.y prevSeg) = next_pos width height seg0 d ->
  tail_tile prevSeg seg0 = tail_of d.
Proof.
  unfold GoInt.max_int. intros Hw Hh Hx Hy Hprev.
  rewrite next_pos_torus in Hprev by (unfold GoInt.max_int; lia).
  unfold tail_tile.
  destruct d; injection Hprev as -> ->.
  - destruct (Z.eq_dec (Seg.y seg0) 0) as [E|E].
    + rewrite E. replace ((0 - 1) mod height) with (height - 1).
      2:{ symmetry. replace (0 - 1) with (height - 1 + (-1) * height) by lia.
          rewrite Z.mod_add by lia. apply Z.mod_small. lia. }
      go_int. decide_tail.
    + rewrite (Z.mod_small (Seg.y seg0 - 1)) by lia. go_int. decide_tail.
  - destruct (Z.eq_dec (Seg.y seg0) (height - 1)) as [E|E].
    + rewrite E. replace ((height - 1 + 1) mod height) with 0.
      2:{ symmetry. replace (height - 1 + 1) with (0 + 1 * height) by lia.
          rewrite Z.mod_add by lia. apply Z.mod_small. lia. }
      go_int. decide_tail.
    + rewrite (Z.mod_small (Seg.y seg0 + 1)) by lia. go_int. decide_tail.
  - destruct (Z.eq_dec (Seg.x seg0) 0) as [E|E].
    + rewrite E. replace ((0 - 1) mod width) with (width - 1).
      2:{ symmetry. replace (0 - 1) with (width - 1 + (-1) * width) by lia.
          rewrite Z.mod_add by lia. apply Z.mod_small. lia. }
      go_int. decide_tail.
    + rewrite (Z.mod_small (Seg.x seg0 - 1)) by lia. go_int. decide_tail.
  - destruct (Z.eq_dec (Seg.x seg0) (width - 1)) as [E|E].
    + rewrite E. replace ((width - 1 + 1) mod width) with 0.
      2:{ symmetry. replace (width - 1 + 1) with (0 + 1 * width) by lia.
          rewrite Z.mod_add by lia. apply Z.mod_small. lia. }
      go_int. decide_tail.
    + rewrite (Z.mod_small (Seg.x seg0 + 1)) by lia. go_int. decide_tail.
Qed.

Lemma tail_tile_follows_motion_witness :
  tail_tile (seg 26 4 LEFT SnakeHeadLeft) (seg 0 4 UP SnakeBodyUp) = SnakeTailLeft.
Proof.
  apply (tail_tile_follows_motion 27 20 (seg 26 4 LEFT SnakeHeadLeft)
           (seg 0 4 UP SnakeBodyUp) LEFT);
    first [ unfold GoInt.max_int; simpl; lia | reflexivity ].
Defined.

(** ** Drawing the snake *)

Lemma named_tile_drawable (tile : Z) :
  named_tile tile = true -> drawable_tile tile = true.
Proof.
  unfold named_tile, named_tiles. rewrite existsb_exists.
  intros (c & Hin & ->%Z.eqb_eq). simpl in Hin.
  repeat (destruct Hin as [<- | Hin]; [reflexivity|]). destruct Hin.
Qed.

Lemma draw_segment_drawable (tongueShow : bool) (yOffset : Z) (dimmed : bool)
    (seg0 : Seg.SnakeBodySegment) :
  is_Some (draw_segment tongueShow yOffset dimmed seg0)
  <-> drawable_tile (Seg.tile seg0) = true.
Proof.
  unfold draw_segment, pick_image, pick_rotation, drawable_tile. simpl.
  destruct (tile_type (Seg.tile seg0) =? SnakeTypeHead);
    destruct (tile_type (Seg.tile seg0) =? SnakeTypeBody);
    destruct (tile_type (Seg.tile seg0) =? SnakeTypeBend);
    destruct (tile_type (Seg.tile seg0) =? SnakeTypeTail);
    destruct (tile_rotation (Seg.tile seg0) =? SnakeRotationNone);
    destruct (tile_rotation (Seg.tile seg0) =? SnakeRotationCCW90);
    destruct (tile_rotation (Seg.tile seg0) =? SnakeRotationCW90);
    destruct (tile_rotation (Seg.tile seg0) =? SnakeRotation180);
    destruct (Seg.skeleton seg0); destruct tongueShow; simpl;
    split; intros H; first [ reflexivity | discriminate | now destruct H | now eexists ].
Qed.

Lemma draw_chain_drawable (tongueShow : bool) (yOffset : Z) (dimmed : bool)
    (chain : list Seg.SnakeBodySegment) :
  Forall (fun s => drawable_tile (Seg.tile s) = true) chain ->
  exists sprites,
    draw_chain tongueShow yOffset dimmed chain = Some sprites /\
    Forall2 (fun s sp => draw_segment tongueShow yOffset dimmed s = Some sp)
            chain sprites.
Proof.
  induction 1 as [|s chain Hs _ IH]; simpl.
  - exists []. split; [reflexivity | constructor].
  - apply (draw_segment_drawable tongueShow yOffset dimmed) in Hs as [sp Hsp].
    destruct IH as (sprites & -> & Hall). rewrite Hsp.
    exists (sp :: sprites). split; [reflexivity | now constructor].
Qed.

Lemma draw_chain_undrawable (tongueShow : bool) (yOffset : Z) (dimmed : bool)
    (chain : list Seg.SnakeBodySegment) :
  Exists (fun s => drawable_tile (Seg.tile s) = false) chain ->
  draw_chain tongueShow yOffset dimmed chain = None.
Proof.
  induction 1 as [s chain Hs | s chain _ IH]; simpl.
  - destruct (draw_segment tongueShow yOffset dimmed s) as [sp|] eqn:E;
      [|reflexivity].
    assert (drawable_tile (Seg.tile s) = true)
      by (apply (draw_segment_drawable tongueShow yOffset dimmed); eauto).
    congruence.
  - rewrite IH. now destruct (draw_segment tongueShow yOffset dimmed s).
Qed.

(** X5: [DrawSnake] draws a body with a head exactly when the type bits of
    every tile are those of Head, Body, Bend or Tail and the rotation bits
    those of one of the four rotations: then it returns, having drawn one
    image per segment, and with any other tile in the chain it panics.  All
    sixteen tile constants can be drawn. *)
Theorem DrawSnake_draws_drawable (w : World) (p : loc) (b : Body.SnakeBody)
    (yOffset : Z) (dimmed : bool) :
  heap w !! p = Some b -> Body.Head b <> [] ->
  (Forall (fun s => drawable_tile (Seg.tile s) = true) (Body.Head b) ->
   exists sprites,
     DrawSnake (Some p) yOffset dimmed w = Ok sprites w /\
     length sprites = length (Body.Head b)) /\
  (Exists (fun s => drawable_tile (Seg.tile s) = false) (Body.Head b) ->
   DrawSnake (Some p) yOffset dimmed w = Panic) /\
  Forall (fun tile => drawable_tile tile = true) named_tiles.
Proof.
  intros Hp Hne. unfold DrawSnake.
  rewrite (bind_step _ _ w w b) by now apply deref_Some.
  unfold get_game. rewrite (bind_step _ _ w w (game w)) by reflexivity.
  destruct (Body.Head b) as [|s t] eqn:Hh; [congruence|].
  split; [|split].
  - intros Hall.
    destruct (draw_chain_drawable (G.tongueShow (game w)) yOffset dimmed _ Hall)
      as (sprites & Hd & H2).
    rewrite Hd. exists sprites. split; [reflexivity|].
    symmetry. exact (Forall2_length _ _ _ H2).
  - intros Hex.
    now rewrite (draw_chain_undrawable (G.tongueShow (game w)) yOffset dimmed _ Hex).
  - repeat constructor.
Qed.

Lemma DrawSnake_draws_drawable_witness :
  exists sprites,
    DrawSnake (Some 1%positive) 15 false playing_curled = Ok sprites playing_curled /\
    length sprites = length (Body.Head curled).
Proof.
  destruct (DrawSnake_draws_drawable playing_curled 1%positive curled 15 false)
    as (H & _ & _); [reflexivity | discriminate |].
  apply H. repeat constructor.
Defined.

(** X6: what [DrawSnake] draws for the i-th segment: an image at the pixel
    (16 x, 16 y + yOffset), faded exactly when [dimmed]; a skeleton image
    exactly for a skeleton segment; and the tall tongue image, moved up by
    one tile, exactly for a head tile that is not a skeleton while the tongue
    shows. *)
Theorem DrawSnake_sprites (w w' : World) (p : loc) (b : Body.SnakeBody)
    (yOffset : Z) (dimmed : bool) (sprites : list sprite) (i : nat)
    (seg0 : Seg.SnakeBodySegment) :
  heap w !! p = Some b ->
  DrawSnake (Some p) yOffset dimmed w = Ok sprites w' ->
  Body.Head b !! i = Some seg0 ->
  exists sp,
    sprites !! i = Some sp /\
    sp_x sp = int_mul (Seg.x seg0) 16 /\
    sp_y sp = GoInt.add (int_mul (Seg.y seg0) 16) yOffset /\
    sp_dimmed sp = dimmed /\
    skeleton_image (sp_img sp) = Seg.skeleton seg0 /\
    (sp_lifted sp = true <->
     tile_type (Seg.tile seg0) = SnakeTypeHead /\ Seg.skeleton seg0 = false /\
     G.tongueShow (game w) = true) /\
    (sp_lifted sp = true <-> sp_img sp = ImgSnakeHeadTongueOut).
Proof.
  intros Hp H Hi. unfold DrawSnake in H.
  rewrite (bind_step _ _ w w b) in H by now apply deref_Some.
  unfold get_game in H. rewrite (bind_step _ _ w w (game w)) in H by reflexivity.
  destruct (Body.Head b) as [|s t] eqn:Hh; [discriminate|].
  destruct (draw_chain _ _ _ (s :: t)) as [sps|] eqn:Hd; [|discriminate].
  injection H as -> _. clear Hh.
  revert sprites i Hd Hi. generalize (s :: t). clear s t.
  induction l as [|s t IH]; intros sprites i Hd Hi; [discriminate|].
  simpl in Hd.
  destruct (draw_segment _ _ _ s) as [sp|] eqn:Hs; [|discriminate].
  destruct (draw_chain _ _ _ t) as [sps|] eqn:Ht; [|discriminate].
  injection Hd as <-. destruct i as [|i].
  - injection Hi as ->. exists sp. split; [reflexivity|].
    unfold draw_segment, pick_image, pick_rotation in Hs.
    destruct (Z.eqb_spec (tile_type (Seg.tile seg0)) SnakeTypeHead) as [E|E];
      [|destruct (tile_type (Seg.tile seg0) =? SnakeTypeBody);
        [|destruct (tile_type (Seg.tile seg0) =? SnakeTypeBend);
          [|destruct (tile_type (Seg.tile seg0) =? SnakeTypeTail);
            [|discriminate]]]];
      destruct (Seg.skeleton seg0); destruct (G.tongueShow (game w));
      destruct (tile_rotation (Seg.tile seg0) =? SnakeRotationNone);
      try destruct (tile_rotation (Seg.tile seg0) =? SnakeRotationCCW90);
      try destruct (tile_rotation (Seg.tile seg0) =? SnakeRotationCW90);
      try destruct (tile_rotation (Seg.tile seg0) =? SnakeRotation180);
      try discriminate; injection Hs as <-; simpl;
      repeat split; try reflexivity; try discriminate; try tauto;
      intros; try tauto; try discriminate; intuition congruence.
  - apply (IH sps i eq_refl Hi).
Qed.

Lemma DrawSnake_sprites_witness :
  exists sp,
    [mkSprite ImgSnakeHead false RotNone 80 95 false;
     mkSprite ImgSnakeBend false RotCW90 80 111 false;
     mkSprite ImgSnakeBend false RotCCW90 64 111 false;
     mkSprite ImgSnakeTail false Rot180 64 95 false] !! 0%nat = Some sp /\
    sp_x sp = int_mul (Seg.x (seg 5 5 UP SnakeHeadUp)) 16 /\
    sp_y sp = GoInt.add (int_mul (Seg.y (seg 5 5 UP SnakeHeadUp)) 16) 15 /\
    sp_dimmed sp = false /\
    skeleton_image (sp_img sp) = Seg.skeleton (seg 5 5 UP SnakeHeadUp) /\
    (sp_lifted sp = true <->
     tile_type (Seg.tile (seg 5 5 UP SnakeHeadUp)) = SnakeTypeHead /\
     Seg.skeleton (seg 5 5 UP SnakeHeadUp) = false /\
     G.tongueShow (game playing_curled) = true) /\
    (sp_lifted sp = true <-> sp_img sp = ImgSnakeHeadTongueOut).
Proof.
  apply (DrawSnake_sprites playing_curled playing_curled 1%positive curled 15 false
           _ 0 (seg 5 5 UP SnakeHeadUp));
    [reflexivity | vm_compute; reflexivity | reflexivity].
Defined.

(** ** What each function does to the store *)

Lemma SnakeAdvance_inv (p : option loc) (d : snakeDirection) (w w' : World) :
  SnakeAdvance p d w = Ok tt w' ->
  exists l b h t,
    p = Some l /\ heap w !! l = Some b /\ Body.Head b = h :: t /\
    w' = set_heap
           (<[l := Body.mk (advanced (G.width (game w)) (G.height (game w)) d h t)
                           (Body.grow b) (GoInt.add (Body.length b) 1)]> (heap w)) w.
Proof.
  intros H. pose proof H as H0. unfold SnakeAdvance in H0.
  apply bind_Ok in H0 as (b & w0 & Hb & H0).
  apply deref_Ok in Hb as (-> & l & -> & Hl).
  destruct (Body.Head b) as [|h t] eqn:Hh; [discriminate|]. clear H0.
  rewrite (SnakeAdvance_ok w l b h t d Hl Hh) in H. injection H as <-.
  exists l, b, h, t. repeat split; assumption.
Qed.

Lemma tail_walk_shape (k : nat) (chain : list Seg.SnakeBodySegment)
    (iprev iseg a b : nat) :
  tail_walk k chain iprev iseg = Some (a, b) ->
  (a = iprev /\ b = iseg) \/ S a = b.
Proof.
  revert iprev iseg. induction k as [|k IH]; intros iprev iseg H; simpl in H.
  - injection H as <- <-. now left.
  - destruct (chain !! iseg); [|discriminate].
    apply IH in H as [[-> ->] | H]; now right.
Qed.

Lemma SnakeRemoveTail_inv (p : option loc) (w w' : World) :
  SnakeRemoveTail p w = Ok tt w' ->
  exists l b iprev iseg prevSeg seg0,
    p = Some l /\ heap w !! l = Some b /\
    Body.Head b !! iprev = Some prevSeg /\ Body.Head b !! iseg = Some seg0 /\
    (iprev = iseg \/ S iprev = iseg) /\
    w' = set_heap
           (<[l := Body.mk (cut (Body.Head b) iseg prevSeg seg0)
                           (Body.grow b) (GoInt.sub (Body.length b) 1)]> (heap w)) w.
Proof.
  unfold SnakeRemoveTail. intros H.
  apply bind_Ok in H as (b & w0 & Hb & H).
  apply deref_Ok in Hb as (-> & l & -> & Hl).
  destruct (tail_walk _ _ _ _) as [[iprev iseg]|] eqn:Hwalk; [|discriminate].
  destruct (Body.Head b !! iprev) as [prevSeg|] eqn:Hprev; [|discriminate].
  destruct (Body.Head b !! iseg) as [seg0|] eqn:Hseg; [|discriminate].
  rewrite store_Some in H. injection H as <-.
  exists l, b, iprev, iseg, prevSeg, seg0. repeat split; try assumption.
  apply tail_walk_shape in Hwalk as [[-> ->] | Hw]; [now left | now right].
Qed.

Lemma quiet_refl (w : World) : quiet w w.
Proof. now repeat split. Qed.

Lemma quiet_trans (w1 w2 w3 : World) : quiet w1 w2 -> quiet w2 w3 -> quiet w1 w3.
Proof.
  unfold quiet, same_fields. intros (? & ? & ? & ? & ? & ?) (? & ? & ? & ? & ? & ?).
  repeat split; congruence.
Qed.

Lemma same_fields_trans (w1 w2 w3 : World) :
  same_fields w1 w2 -> same_fields w2 w3 -> same_fields w1 w3.
Proof.
  unfold same_fields. intros (? & ? & ? & ? & ?) (? & ? & ? & ? & ?).
  repeat split; congruence.
Qed.

Lemma quiet_active_chain (w w' : World) :
  quiet w w' -> active_chain w' = active_chain w.
Proof.
  unfold quiet, same_fields, active_chain. intros (Hh & _ & _ & Hs & _).
  now rewrite Hs, Hh.
Qed.

Lemma SnakeCheckDeath_quiet (p : option loc) (d : snakeDirection) (w w' : World)
    (r : bool) :
  SnakeCheckDeath p d w = Ok r w' -> quiet w w'.
Proof. intros H. apply SnakeCheckDeath_pure in H as ->. apply quiet_refl. Qed.

Lemma SpawnFood_quiet (fuel : nat) (w w' : World) :
  SpawnFood fuel w = Ok tt w' -> quiet w w'.
Proof.
  intros H. apply SpawnFood_frame in H as (Hh & f & Hg).
  unfold quiet, same_fields. now rewrite Hh, Hg.
Qed.

Lemma RandomSnakeDirection_quiet (fuel : nat) (cur d : snakeDirection)
    (w w' : World) :
  RandomSnakeDirection fuel cur w = Ok d w' -> quiet w w'.
Proof.
  unfold RandomSnakeDirection. intros H.
  apply bind_Ok in H as (n & w1 & Hn & H). apply Intn_Ok in Hn as (_ & ->).
  destruct (n <=? 50); [injection H as _ <-; now repeat split|].
  apply (quiet_trans _ (set_cursor (S (cursor w)) w)); [now repeat split|].
  generalize dependent (set_cursor (S (cursor w)) w). clear w.
  induction fuel as [|fuel IH]; intros w H; [discriminate|].
  simpl in H. apply bind_Ok in H as (m & w1 & Hm & H).
  apply Intn_Ok in Hm as (_ & ->).
  assert (Hq : quiet w (set_cursor (S (cursor w)) w)) by now repeat split.
  destruct (snakeDirection_of_int _) as [d0|];
    [|exact (quiet_trans _ _ _ Hq (IH _ H))].
  destruct cur;
    match type of H with (if ?c then _ else _) _ = _ => destruct c end;
    first [ injection H as _ <-; exact Hq | exact (quiet_trans _ _ _ Hq (IH _ H)) ].
Qed.

Lemma RandomSnakeTongue_quiet (w w' : World) :
  RandomSnakeTongue w = Ok tt w' -> quiet w w'.
Proof.
  unfold RandomSnakeTongue. intros H. inv_M. simpl in H.
  destruct (_ >=? _); [|inv_M; now repeat split].
  inv_M. destruct (G.tongueShow _); inv_M; [now repeat split|].
  match goal with H : Intn _ _ = _ |- _ => apply Intn_Ok in H as (_ & ->) end.
  destruct (_ >? _); inv_M; now repeat split.
Qed.

Lemma quiet_calm (w w' : World) : quiet w w' -> calm w w'.
Proof. intros H. split; [apply H | now apply quiet_active_chain]. Qed.

Lemma calm_refl (w : World) : calm w w.
Proof. apply quiet_calm, quiet_refl. Qed.

Lemma calm_trans (w1 w2 w3 : World) : calm w1 w2 -> calm w2 w3 -> calm w1 w3.
Proof.
  intros [H1 E1] [H2 E2]. split; [exact (same_fields_trans _ _ _ H1 H2) | congruence].
Qed.

(* a write that keeps the chain of the body it overwrites *)
Lemma store_calm (l : loc) (b b' : Body.SnakeBody) (w : World) :
  heap w !! l = Some b -> Body.Head b' = Body.Head b ->
  calm w (set_heap (<[l := b']> (heap w)) w).
Proof.
  intros Hl Hh. split; [now repeat split|].
  unfold active_chain. simpl. destruct (G.SnakeBody (game w)) as [q|]; [|reflexivity].
  destruct (decide (l = q)) as [->|Hne].
  - rewrite lookup_insert_eq, Hl. now rewrite Hh.
  - now rewrite lookup_insert_ne.
Qed.

Lemma calm_game (g : G.Game) (w : World) :
  G.width g = G.width (game w) -> G.height g = G.height (game w) ->
  G.SnakeBody g = G.SnakeBody (game w) ->
  G.skeleTicks g = G.skeleTicks (game w) ->
  G.skeleTicksPerSegment g = G.skeleTicksPerSegment (game w) ->
  calm w (set_game g w).
Proof.
  intros Hw Hh Hs Ht Hp. apply quiet_calm. now repeat split.
Qed.

Lemma SnakeCheckFood_calm (p : option loc) (w w' : World) (r : bool) :
  SnakeCheckFood p w = Ok r w' -> calm w w'.
Proof.
  unfold SnakeCheckFood. intros H.
  apply bind_Ok in H as (b & w0 & Hb & H).
  apply deref_Ok in Hb as (-> & l & -> & Hl).
  unfold get_game in H. rewrite (bind_step _ _ w w (game w)) in H by reflexivity.
  destruct (Body.Head b); [discriminate|].
  destruct (G.food (game w)); [|discriminate].
  match type of H with (if ?c then _ else _) _ = _ => destruct c end.
  - apply bind_Ok in H as ([] & w1 & Hm & H). injection Hm as <-.
    apply bind_Ok in H as ([] & w2 & Hs & H). rewrite store_Some in Hs.
    injection Hs as <-. injection H as _ <-.
    apply (calm_trans _ (set_game (G.set_score (GoInt.add (G.score (game w)) 1)
                                     (game w)) w)).
    + now apply calm_game.
    + now apply (store_calm l b (Body.set_grow true b)
                   (set_game (G.set_score (GoInt.add (G.score (game w)) 1)
                                (game w)) w)).
  - injection H as _ <-. apply calm_refl.
Qed.

(* what [Reset] leaves behind *)
Lemma Reset_effect (fuel : nat) (w w' : World) :
  Reset fuel w = Ok tt w' ->
  G.width (game w') = G.width (game w) /\
  G.height (game w') = G.height (game w) /\
  G.skeleTicksPerSegment (game w') = G.skeleTicksPerSegment (game w) /\
  G.state (game w') = G.state (game w) /\
  G.ticksPerMovement (game w') = 30 /\
  G.SnakeDirection (game w') = UP /\
  G.countDownNum (game w') = 3 /\
  G.score (game w') = 0 /\
  G.skeleTicks (game w') = 0 /\
  (exists f, G.food (game w') = Some f) /\
  exists l,
    heap w !! l = None /\
    G.SnakeBody (game w') = Some l /\
    heap w'
    = <[l := Body.mk (spawn_chain (GoInt.div (G.width (game w)) 2)
                                  (GoInt.div (G.height (game w)) 2)) false 3]>
        (heap w).
Proof.
  unfold Reset, SpawnSnake, alloc. intros H. inv_M.
  apply SpawnFood_frame in H as (Hheap & f & Hgame).
  rewrite Hgame, Hheap. simpl. repeat split; eauto.
  eexists. split; [|split; reflexivity].
  apply not_elem_of_dom, is_fresh.
Qed.

Section ChainInvariant.

Variables (width height : Z) (P : list Seg.SnakeBodySegment -> Prop).
Hypothesis HP : chain_closed width height P.

Lemma chain_inv_calm (w w' : World) :
  calm w w' -> chain_inv width height P w -> chain_inv width height P w'.
Proof.
  intros [(Hw & Hh & _) Hc] (Hw0 & Hh0 & chain & Ha & Hchain).
  split; [congruence|]. split; [congruence|]. exists chain. split; congruence.
Qed.

Lemma SnakeAdvance_keeps (d : snakeDirection) (w w' : World) :
  chain_inv width height P w ->
  SnakeAdvance (G.SnakeBody (game w)) d w = Ok tt w' ->
  chain_inv width height P w' /\ same_fields w w'.
Proof.
  intros (Hw & Hh & chain & Ha & Hchain) H.
  apply SnakeAdvance_inv in H as (l & b & h & t & Hp & Hl & Hhead & ->).
  split; [|now repeat split].
  split; [exact Hw|]. split; [exact Hh|].
  unfold active_chain in *. simpl. rewrite Hp in *. rewrite Hl in Ha.
  rewrite lookup_insert_eq. simpl. eexists. split; [reflexivity|].
  injection Ha as <-. rewrite Hhead in Hchain. rewrite Hw, Hh.
  now apply (closed_advance _ _ _ HP).
Qed.

Lemma SnakeRemoveTail_keeps (w w' : World) :
  chain_inv width height P w ->
  SnakeRemoveTail (G.SnakeBody (game w)) w = Ok tt w' ->
  chain_inv width height P w' /\ same_fields w w'.
Proof.
  intros (Hw & Hh & chain & Ha & Hchain) H.
  apply SnakeRemoveTail_inv in H
    as (l & b & iprev & iseg & prevSeg & seg0 & Hp & Hl & Hprev & Hseg & Hidx & ->).
  split; [|now repeat split].
  split; [exact Hw|]. split; [exact Hh|].
  unfold active_chain in *. simpl. rewrite Hp in *. rewrite Hl in Ha.
  rewrite lookup_insert_eq. simpl. eexists. split; [reflexivity|].
  injection Ha as <-.
  exact (closed_cut _ _ _ HP _ iprev iseg prevSeg seg0 Hchain Hprev Hseg Hidx).
Qed.

Lemma SnakeMove_keeps (fuel : nat) (d : snakeDirection)
    (checkDeath checkFood : bool) (w w' : World) :
  chain_inv width height P w ->
  SnakeMove fuel (G.SnakeBody (game w)) d checkDeath checkFood w = Ok tt w' ->
  chain_inv width height P w' /\ same_fields w w'.
Proof.
  intros Hinv H. unfold SnakeMove in H.
  apply bind_Ok in H as (dead & w0 & Hdead & H).
  assert (w0 = w) as ->.
  { destruct checkDeath; [now apply SnakeCheckDeath_pure in Hdead | now inv_M]. }
  destruct dead.
  { rewrite ChangeState_GameEnd in H. injection H as <-.
    assert (Hc : calm w (set_game (G.set_state StateGameEnd (game w)) w))
      by now apply calm_game.
    split; [exact (chain_inv_calm _ _ Hc Hinv) | apply Hc]. }
  apply bind_Ok in H as (b & w1 & Hb & H). apply deref_Ok in Hb as (-> & l & Hp & Hl).
  apply bind_Ok in H as ([] & w2 & Hmove & H).
  assert (Hmoved : chain_inv width height P w2 /\ same_fields w w2).
  { destruct (negb (Body.grow b)).
    - apply bind_Ok in Hmove as ([] & w3 & Hr & Ha).
      apply (SnakeRemoveTail_keeps _ _ Hinv) in Hr as [Hinv3 Hf3].
      assert (Hp3 : G.SnakeBody (game w3) = G.SnakeBody (game w)) by apply Hf3.
      rewrite <- Hp3 in Ha.
      apply (SnakeAdvance_keeps _ _ _ Hinv3) in Ha as [Hinv2 Hf2].
      split; [exact Hinv2 | exact (same_fields_trans _ _ _ Hf3 Hf2)].
    - apply bind_Ok in Hmove as ([] & w3 & Ha & Hs).
      apply (SnakeAdvance_keeps _ _ _ Hinv) in Ha as [Hinv3 Hf3].
      apply bind_Ok in Hs as (b3 & w4 & Hb3 & Hs).
      apply deref_Ok in Hb3 as (-> & l3 & Hp3 & Hl3). rewrite Hp3 in Hs.
      rewrite store_Some in Hs. injection Hs as <-.
      pose proof (store_calm l3 b3 (Body.set_grow false b3) w3 Hl3 eq_refl) as Hc.
      split; [exact (chain_inv_calm _ _ Hc Hinv3)|].
      exact (same_fields_trans _ _ _ Hf3 (proj1 Hc)). }
  destruct Hmoved as [Hinv2 Hf2].
  destruct checkFood; [|injection H as <-; now split].
  apply bind_Ok in H as (ate & w3 & Hate & H).
  apply SnakeCheckFood_calm in Hate.
  destruct ate; [|injection H as <-;
    split; [exact (chain_inv_calm _ _ Hate Hinv2)
           | exact (same_fields_trans _ _ _ Hf2 (proj1 Hate))]].
  apply bind_Ok in H as (b3 & w4 & Hb3 & H).
  apply deref_Ok in Hb3 as (-> & l3 & Hp3 & Hl3). rewrite Hp3 in H.
  rewrite (bind_step _ _ _ _ _ (store_Some l3 _ w3)) in H.
  pose proof (store_calm l3 b3 (Body.set_grow true b3) w3 Hl3 eq_refl) as Hc.
  apply SpawnFood_quiet, quiet_calm in H.
  pose proof (calm_trans _ _ _ Hate (calm_trans _ _ _ Hc H)) as Hall.
  split; [exact (chain_inv_calm _ _ Hall Hinv2)
         | exact (same_fields_trans _ _ _ Hf2 (proj1 Hall))].
Qed.

Lemma Reset_establishes (fuel : nat) (w w' : World) :
  G.width (game w) = width -> G.height (game w) = height ->
  Reset fuel w = Ok tt w' ->
  chain_inv width height P w'.
Proof.
  intros Hw Hh H.
  apply Reset_effect in H
    as (Hw' & Hh' & _ & _ & _ & _ & _ & _ & _ & _ & l & _ & Hp & Hheap).
  split; [congruence|]. split; [congruence|].
  unfold active_chain. rewrite Hp, Hheap, lookup_insert_eq. simpl.
  eexists. split; [reflexivity|]. apply (closed_spawn _ _ _ HP).
Qed.

Lemma grow_random_snake_keeps (fuel bound : nat) (i : Z) (w w' : World) :
  chain_inv width height P w ->
  grow_random_snake fuel bound i w = Ok tt w' ->
  chain_inv width height P w' /\ same_fields w w'.
Proof.
  revert i w. induction bound as [|bound IH]; intros i w Hinv H; [discriminate|].
  simpl in H. apply bind_Ok in H as (n & w1 & Hn & H).
  apply Intn_Ok in Hn as (_ & ->).
  assert (Hq1 : quiet w (set_cursor (S (cursor w)) w)) by now repeat split.
  pose proof (chain_inv_calm _ _ (quiet_calm _ _ Hq1) Hinv) as Hinv1.
  destruct (i <=? n); [|injection H as <-; split; [exact Hinv1 | apply Hq1]].
  unfold get_game in H.
  rewrite (bind_step _ _ _ _ (game (set_cursor (S (cursor w)) w))) in H
    by reflexivity.
  apply bind_Ok in H as (b & w2 & Hb & H). apply deref_Ok in Hb as (-> & _).
  destruct (Body.Head b) as [|h t]; [discriminate|].
  apply bind_Ok in H as (d & w3 & Hd & H).
  apply RandomSnakeDirection_quiet in Hd.
  pose proof (chain_inv_calm _ _ (quiet_calm _ _ Hd) Hinv1) as Hinv3.
  apply bind_Ok in H as ([] & w4 & Ha & H).
  assert (Hp : G.SnakeBody (game (set_cursor (S (cursor w)) w))
               = G.SnakeBody (game w3)) by (symmetry; apply Hd).
  rewrite Hp in Ha.
  apply (SnakeAdvance_keeps _ _ _ Hinv3) in Ha as [Hinv4 Hf4].
  apply (IH _ _ Hinv4) in H as [Hinv' Hf'].
  split; [exact Hinv'|].
  exact (same_fields_trans _ _ _ (proj2 Hq1)
           (same_fields_trans _ _ _ (proj2 Hd) (same_fields_trans _ _ _ Hf4 Hf'))).
Qed.

Lemma ChangeState_keeps (fuel : nat) (s : gameState) (w w' : World) :
  G.width (game w) = width -> G.height (game w) = height ->
  (s <> StateMainMenu -> s <> StateGameStart -> chain_inv width height P w) ->
  ChangeState fuel s w = Ok tt w' ->
  chain_inv width height P w'.
Proof.
  intros Hw Hh Hinv H. unfold ChangeState in H.
  apply bind_Ok in H as ([] & w1 & H & Hst). injection Hst as <-.
  assert (Hinv1 : chain_inv width height P w1).
  { destruct s.
    - apply bind_Ok in H as ([] & w2 & Hr & H).
      apply (Reset_establishes _ _ _ Hw Hh) in Hr.
      apply bind_Ok in H as ([] & w3 & Hg & H).
      apply (grow_random_snake_keeps _ _ _ _ _ Hr) in Hg as [Hinv3 _].
      injection H as <-. refine (chain_inv_calm _ _ _ Hinv3). now apply calm_game.
    - exact (Reset_establishes _ _ _ Hw Hh H).
    - injection H as <-. now apply Hinv.
    - injection H as <-. now apply Hinv.
    - injection H as <-. now apply Hinv. }
  refine (chain_inv_calm _ _ _ Hinv1). now apply calm_game.
Qed.

End ChainInvariant.

Lemma head_facing_quiet (w w' : World) (f : snakeDirection) :
  head_facing w = Ok f w' -> quiet w w'.
Proof. intros H. apply head_facing_pure in H as ->. apply quiet_refl. Qed.

Lemma UpdateInGame_keys_quiet (k : Keys.Keys) (w w' : World) :
  (if Keys.ArrowUp k then
     let* f := head_facing in
     if bool_decide (f = LEFT) || bool_decide (f = RIGHT)
     then modify_game (G.set_SnakeDirection UP) else ret tt
   else if Keys.ArrowDown k then
     let* f := head_facing in
     if bool_decide (f = LEFT) || bool_decide (f = RIGHT)
     then modify_game (G.set_SnakeDirection DOWN) else ret tt
   else if Keys.ArrowLeft k then
     let* f := head_facing in
     if bool_decide (f = UP) || bool_decide (f = DOWN)
     then modify_game (G.set_SnakeDirection LEFT) else ret tt
   else if Keys.ArrowRight k then
     let* f := head_facing in
     if bool_decide (f = UP) || bool_decide (f = DOWN)
     then modify_game (G.set_SnakeDirection RIGHT) else ret tt
   else ret tt) w = Ok tt w' ->
  quiet w w'.
Proof.
  intros H.
  repeat match type of H with
         | (if ?c then _ else _) _ = _ => destruct c
         end;
    try (apply bind_Ok in H as (f & w1 & Hf & H); apply head_facing_pure in Hf;
         subst w1;
         match type of H with (if ?c then _ else _) _ = _ => destruct c end);
    inv_M; now repeat split.
Qed.

Section SessionInvariant.

Variables (width height : Z) (P : list Seg.SnakeBodySegment -> Prop).
Hypothesis HP : chain_closed width height P.

Lemma UpdateMainMenu_keeps (fuel : nat) (k : Keys.Keys) (w w' : World) :
  chain_inv width height P w ->
  UpdateMainMenu fuel k w = Ok tt w' ->
  chain_inv width height P w'.
Proof.
  intros Hinv H. unfold UpdateMainMenu in H.
  apply bind_Ok in H as ([] & w1 & Hspace & H).
  assert (Hinv1 : chain_inv width height P w1).
  { destruct (Keys.Space k); [|now injection Hspace as <-].
    apply (ChangeState_keeps _ _ _ HP _ _ _ _ (proj1 Hinv) (proj1 (proj2 Hinv)))
      in Hspace; [exact Hspace | now intros _ ?]. }
  clear Hinv Hspace.
  apply bind_Ok in H as (g1 & w2 & Hg & H). injection Hg as <- <-.
  apply bind_Ok in H as ([] & w2 & Hm & H). injection Hm as <-.
  apply bind_Ok in H as (g2 & w3 & Hg & H). injection Hg as <- <-.
  apply bind_Ok in H as ([] & w4 & Hmove & Htongue).
  apply RandomSnakeTongue_quiet, quiet_calm in Htongue.
  refine (chain_inv_calm _ _ _ _ _ Htongue _).
  set (wt := set_game (G.set_ticks (GoInt.add (G.ticks (game w1)) 1) (game w1)) w1)
    in *.
  assert (Hinvt : chain_inv width height P wt)
    by (refine (chain_inv_calm _ _ _ _ _ _ Hinv1); now apply calm_game).
  destruct (_ >=? _) in Hmove; [|now injection Hmove as <-].
  apply bind_Ok in Hmove as ([] & w5 & Hm & Hmove). injection Hm as <-.
  apply bind_Ok in Hmove as (f & w6 & Hf & Hmove).
  apply head_facing_pure in Hf as ->.
  apply bind_Ok in Hmove as (d & w7 & Hd & Hmove).
  apply RandomSnakeDirection_quiet in Hd.
  set (w0 := set_game (G.set_ticks 0 (game wt)) wt) in *.
  assert (Hinv0 : chain_inv width height P w0)
    by (refine (chain_inv_calm _ _ _ _ _ _ Hinvt); now apply calm_game).
  pose proof (chain_inv_calm _ _ _ _ _ (quiet_calm _ _ Hd) Hinv0) as Hinv7.
  assert (Hp : G.SnakeBody (game w7) = G.SnakeBody (game w0)) by apply Hd.
  match type of Hmove with
  | SnakeMove _ ?p _ _ _ _ = _ =>
      change p with (G.SnakeBody (game w0)) in Hmove
  end.
  rewrite <- Hp in Hmove.
  exact (proj1 (SnakeMove_keeps _ _ _ HP _ _ _ _ _ _ Hinv7 Hmove)).
Qed.

Lemma UpdateInGame_keeps (fuel : nat) (k : Keys.Keys) (w w' : World) :
  chain_inv width height P w ->
  UpdateInGame fuel k w = Ok tt w' ->
  chain_inv width height P w' /\ same_fields w w'.
Proof.
  intros Hinv H. unfold UpdateInGame in H.
  apply bind_Ok in H as ([] & w1 & Hkeys & H).
  apply UpdateInGame_keys_quiet, quiet_calm in Hkeys.
  pose proof (chain_inv_calm _ _ _ _ _ Hkeys Hinv) as Hinv1.
  apply bind_Ok in H as (g1 & w2 & Hg & H). injection Hg as <- <-.
  apply bind_Ok in H as ([] & w2 & Hm & H). injection Hm as <-.
  apply bind_Ok in H as (g2 & w3 & Hg & H). injection Hg as <- <-.
  apply bind_Ok in H as ([] & w4 & Hmove & Htongue).
  apply RandomSnakeTongue_quiet, quiet_calm in Htongue.
  set (wt := set_game (G.set_ticks (GoInt.add (G.ticks (game w1)) 1) (game w1)) w1)
    in *.
  assert (Hct : calm w1 wt) by now apply calm_game.
  pose proof (chain_inv_calm _ _ _ _ _ Hct Hinv1) as Hinvt.
  assert (Hstep : chain_inv width height P w4 /\ same_fields wt w4).
  { destruct (_ >=? _) in Hmove;
      [|injection Hmove as <-; split; [exact Hinvt | apply calm_refl]].
    apply bind_Ok in Hmove as ([] & w5 & Hm & Hmove). injection Hm as <-.
    apply bind_Ok in Hmove as ([] & w6 & Hmove & Hspeed).
    set (w0 := set_game (G.set_ticks 0 (game wt)) wt) in *.
    assert (Hc0 : calm wt w0) by now apply calm_game.
    pose proof (chain_inv_calm _ _ _ _ _ Hc0 Hinvt) as Hinv0.
    match type of Hmove with
    | SnakeMove _ ?p _ _ _ _ = _ =>
        change p with (G.SnakeBody (game w0)) in Hmove
    end.
    apply (SnakeMove_keeps _ _ _ HP _ _ _ _ _ _ Hinv0) in Hmove as [Hinv6 Hf6].
    apply bind_Ok in Hspeed as (g6 & w7 & Hg & Hspeed). injection Hg as <- <-.
    injection Hspeed as <-.
    assert (Hc7 : calm w6 (set_game (G.set_ticksPerMovement
                                       (speed (G.score (game w6))) (game w6)) w6))
      by now apply calm_game.
    split; [exact (chain_inv_calm _ _ _ _ _ Hc7 Hinv6)|].
    exact (same_fields_trans _ _ _ (proj1 Hc0)
             (same_fields_trans _ _ _ Hf6 (proj1 Hc7))). }
  destruct Hstep as [Hinv4 Hf4].
  split; [exact (chain_inv_calm _ _ _ _ _ Htongue Hinv4)|].
  exact (same_fields_trans _ _ _ (proj1 Hkeys)
           (same_fields_trans _ _ _ (proj1 Hct)
              (same_fields_trans _ _ _ Hf4 (proj1 Htongue)))).
Qed.

Lemma UpdateGameOver_keeps (fuel : nat) (k : Keys.Keys) (w w' : World) :
  chain_inv width height P w ->
  UpdateGameOver fuel k w = Ok tt w' ->
  chain_inv width height P w'.
Proof.
  intros Hinv H. unfold UpdateGameOver in H.
  destruct (Keys.Space k);
    [|destruct (Keys.Escape k); [|now injection H as <-]];
    (apply (ChangeState_keeps _ _ _ HP _ _ _ _ (proj1 Hinv) (proj1 (proj2 Hinv)))
       in H; [exact H | now intros ? ?]).
Qed.

Hypothesis Hskel : skeleton_closed P.

Lemma UpdateEndGame_keeps (fuel : nat) (w w' : World) :
  chain_inv width height P w ->
  UpdateEndGame fuel w = Ok tt w' ->
  chain_inv width height P w'.
Proof.
  intros Hinv H. unfold UpdateEndGame in H.
  apply bind_Ok in H as (g1 & w2 & Hg & H). injection Hg as <- <-.
  apply bind_Ok in H as ([] & w2 & Hm & H). injection Hm as <-.
  apply bind_Ok in H as (g2 & w3 & Hg & H). injection Hg as <- <-.
  set (wt := set_game (G.set_skeleTicks (GoInt.add (G.skeleTicks (game w)) 1)
                         (game w)) w) in *.
  assert (Hinvt : chain_inv width height P wt).
  { destruct Hinv as (Hw & Hh & chain & Ha & Hc).
    split; [exact Hw|]. split; [exact Hh|]. now exists chain. }
  destruct (_ >=? _) in H; [|now injection H as <-].
  apply bind_Ok in H as ([] & w4 & Hm & H). injection Hm as <-.
  apply bind_Ok in H as (b & w5 & Hb & H).
  apply deref_Ok in Hb as (-> & l & Hp & Hl). simpl in Hp, Hl.
  destruct Hinvt as (Hw & Hh & chain & Ha & Hc).
  unfold active_chain in Ha. simpl in Ha. rewrite Hp, Hl in Ha. injection Ha as <-.
  destruct (Body.Head b) as [|s t] eqn:Hhead; [discriminate|].
  destruct (skeletonize (s :: t)) as [chain'|] eqn:Hsk.
  - simpl in H. rewrite Hp in H. rewrite store_Some in H. injection H as <-.
    split; [exact Hw|]. split; [exact Hh|].
    unfold active_chain. simpl. rewrite Hp, lookup_insert_eq. simpl.
    eexists. split; [reflexivity|]. exact (Hskel _ _ Hc Hsk).
  - unfold ChangeState in H. simpl in H. injection H as <-.
    split; [exact Hw|]. split; [exact Hh|].
    unfold active_chain. simpl. rewrite Hp, Hl, Hhead. now eexists.
Qed.

Lemma Update_keeps (fuel : nat) (k : Keys.Keys) (e : error) (w w' : World) :
  chain_inv width height P w ->
  Update fuel k w = Ok e w' ->
  chain_inv width height P w'.
Proof.
  intros Hinv H. unfold Update in H.
  destruct (Keys.Q k); [now injection H as _ <-|].
  apply bind_Ok in H as (g & w0 & Hg & H). injection Hg as <- <-.
  apply bind_Ok in H as ([] & w1 & H & Hret). injection Hret as _ <-.
  destruct (G.state (game w)).
  - exact (UpdateMainMenu_keeps _ _ _ _ Hinv H).
  - apply bind_Ok in H as ([] & w2 & Hm & H). injection Hm as <-.
    apply bind_Ok in H as (g2 & w3 & Hg & H). injection Hg as <- <-.
    apply bind_Ok in H as ([] & w4 & Hdec & H).
    apply bind_Ok in H as (g4 & w5 & Hg & H). injection Hg as <- <-.
    assert (Hinv4 : chain_inv width height P w4).
    { destruct (_ >=? 60) in Hdec.
      - apply bind_Ok in Hdec as ([] & w5 & Hm & Hdec). injection Hm as <-.
        injection Hdec as <-.
        refine (chain_inv_calm _ _ _ _ _ _ Hinv).
        apply quiet_calm. now repeat split.
      - injection Hdec as <-.
        refine (chain_inv_calm _ _ _ _ _ _ Hinv). now apply calm_game. }
    destruct (_ <? 0) in H; [|now injection H as <-].
    apply (ChangeState_keeps _ _ _ HP _ _ _ _ (proj1 Hinv4) (proj1 (proj2 Hinv4)))
      in H; [exact H | now intros _ _].
  - exact (proj1 (UpdateInGame_keeps _ _ _ _ Hinv H)).
  - exact (UpdateEndGame_keeps _ _ _ Hinv H).
  - exact (UpdateGameOver_keeps _ _ _ _ Hinv H).
Qed.

End SessionInvariant.

(** ** The tiles stay drawable *)

Lemma skeletonize_tiles (chain chain' : list Seg.SnakeBodySegment) :
  skeletonize chain = Some chain' ->
  Forall2 (fun s s' => s' = s \/ s' = Seg.set_skeleton true s) chain chain'.
Proof.
  revert chain'. induction chain as [|s t IH]; intros chain' H; [discriminate|].
  simpl in H. destruct (negb (Seg.skeleton s)).
  - injection H as <-. constructor; [now right|].
    apply Forall2_same_length_lookup_2; [reflexivity|].
    intros i x y Hx Hy. left. congruence.
  - destruct (skeletonize t) as [t'|]; [|discriminate]. injection H as <-.
    constructor; [now left | now apply IH].
Qed.

Lemma tail_tile_named (prevSeg seg0 : Seg.SnakeBodySegment) :
  named_tile (Seg.tile seg0) = true ->
  named_tile (tail_tile prevSeg seg0) = true.
Proof.
  intros H. unfold tail_tile.
  repeat match goal with
         | |- context [if ?c then _ else _] => destruct c
         end; first [ reflexivity | exact H ].
Qed.

Lemma all_named_closed (width height : Z) : chain_closed width height all_named.
Proof.
  split.
  - intros x y. split; [discriminate | repeat constructor].
  - intros d h t [_ Hall]. split; [discriminate|].
    apply Forall_cons in Hall as [Hh Ht].
    unfold advanced. repeat constructor; try assumption.
    + now destruct d, (Seg.facing h).
    + now destruct d, (Seg.facing h).
  - intros chain iprev iseg prevSeg seg0 [_ Hall] Hprev Hseg _.
    unfold cut. split; [now destruct (take iseg chain)|].
    apply Forall_app. split; [now apply Forall_take|].
    constructor; [|constructor]. simpl. apply tail_tile_named.
    exact (proj1 (Forall_lookup _ _) Hall iseg seg0 Hseg).
Qed.

Lemma all_named_skeleton : skeleton_closed all_named.
Proof.
  intros chain chain' [Hne Hall] H. apply skeletonize_tiles in H.
  split.
  - intros ->. apply Forall2_nil_inv_r in H. contradiction.
  - clear Hne. induction H as [|s s' t t' Hs _ IH]; [constructor|].
    apply Forall_cons in Hall as [Hs0 Ht0].
    constructor; [|now apply IH].
    destruct Hs as [-> | ->]; [exact Hs0 | now destruct s].
Qed.

Lemma tiles_named_chain_inv (w : World) :
  tiles_named w <-> chain_inv (G.width (game w)) (G.height (game w)) all_named w.
Proof.
  unfold tiles_named, chain_inv. split; [now intros H | now intros (_ & _ & H)].
Qed.

Lemma NewGame_establishes (width height : Z)
    (P : list Seg.SnakeBodySegment -> Prop) (fuel : nat) (w w' : World) :
  chain_closed width height P ->
  NewGame fuel width height w = Ok tt w' -> chain_inv width height P w'.
Proof.
  intros HP H. unfold NewGame in H.
  apply bind_Ok in H as ([] & w1 & Hm & H). injection Hm as <-.
  apply bind_Ok in H as ([] & w2 & Hr & H).
  apply Reset_effect in Hr as (Hw & Hh & _). simpl in Hw, Hh.
  apply (ChangeState_keeps _ _ _ HP _ _ _ _ Hw Hh) in H; [exact H|].
  now intros ?.
Qed.

(** X7: from [NewGame] on, through every tick in every phase, the game has a
    snake with a head whose tiles are all among the sixteen tile constants;
    so [DrawSnake] on the game's snake never panics. *)
Theorem tiles_stay_named (fuel : nat) (k : Keys.Keys) (e : error)
    (width height : Z) (w w' : World) :
  (NewGame fuel width height w = Ok tt w' -> tiles_named w') /\
  (tiles_named w -> Update fuel k w = Ok e w' -> tiles_named w') /\
  (tiles_named w ->
   forall yOffset dimmed, exists sprites,
     DrawSnake (G.SnakeBody (game w)) yOffset dimmed w = Ok sprites w).
Proof.
  split; [|split].
  - intros H. apply tiles_named_chain_inv.
    apply (NewGame_establishes _ _ _ _ _ _ (all_named_closed width height)) in H.
    destruct H as (Hw & Hh & H). now rewrite Hw, Hh.
  - intros Hinv H. apply tiles_named_chain_inv in Hinv.
    apply (Update_keeps _ _ _ (all_named_closed _ _) all_named_skeleton
             _ _ _ _ _ Hinv) in H.
    destruct H as (_ & _ & H). exact H.
  - intros (chain & Ha & Hne & Hall) yOffset dimmed.
    unfold active_chain in Ha.
    destruct (G.SnakeBody (game w)) as [p|]; [|discriminate].
    destruct (heap w !! p) as [b|] eqn:Hp; [|discriminate]. injection Ha as <-.
    unfold DrawSnake. rewrite (bind_step _ _ w w b) by now apply deref_Some.
    unfold get_game. rewrite (bind_step _ _ w w (game w)) by reflexivity.
    destruct (Body.Head b) as [|s t]; [congruence|].
    destruct (draw_chain_drawable (G.tongueShow (game w)) yOffset dimmed (s :: t))
      as (sprites & -> & _); [|now exists sprites].
    eapply Forall_impl; [exact Hall|]. intros x. apply named_tile_drawable.
Qed.

Lemma tiles_stay_named_witness : tiles_named after_move.
Proof.
  destruct (tiles_stay_named 10 Keys.none nil 27 20 about_to_move after_move)
    as (_ & H & _).
  apply H.
  - exists (Body.Head straight). split; [reflexivity|].
    split; [discriminate | repeat constructor].
  - reflexivity.
Defined.

(** ** The player session *)

(* a tick of the countdown or of the playing phase *)
Lemma Update_session_keeps (width height : Z)
    (P : list Seg.SnakeBodySegment -> Prop) (fuel : nat) (k : Keys.Keys)
    (e : error) (w w' : World) :
  chain_closed width height P ->
  G.state (game w) = StateGameStart \/ G.state (game w) = StateInGame ->
  chain_inv width height P w ->
  Update fuel k w = Ok e w' ->
  chain_inv width height P w' /\ same_fields w w'.
Proof.
  intros HP Hst Hinv H. unfold Update in H.
  destruct (Keys.Q k); [injection H as _ <-; split; [exact Hinv | apply calm_refl]|].
  apply bind_Ok in H as (g & w0 & Hg & H). injection Hg as <- <-.
  apply bind_Ok in H as ([] & w1 & H & Hret). injection Hret as _ <-.
  destruct Hst as [Hst | Hst]; rewrite Hst in H.
  - apply bind_Ok in H as ([] & w2 & Hm & H). injection Hm as <-.
    apply bind_Ok in H as (g2 & w3 & Hg & H). injection Hg as <- <-.
    apply bind_Ok in H as ([] & w4 & Hdec & H).
    apply bind_Ok in H as (g4 & w5 & Hg & H). injection Hg as <- <-.
    assert (Hc4 : calm w w4).
    { destruct (_ >=? 60) in Hdec.
      - apply bind_Ok in Hdec as ([] & w5 & Hm & Hdec). injection Hm as <-.
        injection Hdec as <-. apply quiet_calm. now repeat split.
      - injection Hdec as <-. now apply calm_game. }
    assert (Hc1 : calm w4 w1).
    { destruct (_ <? 0) in H; [|injection H as <-; apply calm_refl].
      unfold ChangeState in H. simpl in H. injection H as <-. now apply calm_game. }
    pose proof (calm_trans _ _ _ Hc4 Hc1) as Hc.
    split; [exact (chain_inv_calm _ _ _ _ _ Hc Hinv) | apply Hc].
  - exact (UpdateInGame_keeps _ _ _ HP _ _ _ _ Hinv H).
Qed.

Lemma all_alive_closed (width height : Z) : chain_closed width height all_alive.
Proof.
  split.
  - intros x y. split; [discriminate | repeat constructor].
  - intros d h t [_ Hall]. split; [discriminate|].
    apply Forall_cons in Hall as [Hh Ht].
    unfold advanced. repeat constructor; assumption.
  - intros chain iprev iseg prevSeg seg0 [_ Hall] Hprev Hseg _.
    unfold cut. split; [now destruct (take iseg chain)|].
    apply Forall_app. split; [now apply Forall_take|].
    constructor; [|constructor]. simpl.
    exact (proj1 (Forall_lookup _ _) Hall iseg seg0 Hseg).
Qed.

(** X8: a session started by [ChangeState(StateGameStart)] has a snake none
    of whose segments is a skeleton and a skeleton timer at 0, and every tick
    of the countdown and of the playing phase keeps that, and keeps the
    skeleton interval -- also the tick on which the snake bites itself and
    the game goes to StateGameEnd. *)
Theorem session_stays_alive (fuel : nat) (k : Keys.Keys) (e : error)
    (w w' : World) :
  (ChangeState fuel StateGameStart w = Ok tt w' -> snake_alive w') /\
  (G.state (game w) = StateGameStart \/ G.state (game w) = StateInGame ->
   snake_alive w -> Update fuel k w = Ok e w' ->
   snake_alive w' /\
   G.skeleTicksPerSegment (game w') = G.skeleTicksPerSegment (game w)).
Proof.
  split.
  - intros H. unfold ChangeState in H.
    apply bind_Ok in H as ([] & w1 & Hr & H). injection H as <-.
    pose proof Hr as Hr0.
    apply Reset_effect in Hr0 as (_ & _ & _ & _ & _ & _ & _ & _ & Ht & _).
    apply (Reset_establishes _ _ _ (all_alive_closed _ _) _ _ _ eq_refl eq_refl)
      in Hr as (_ & _ & Hchain).
    split; [exact Ht | exact Hchain].
  - intros Hst [Ht Hchain] H.
    apply (Update_session_keeps (G.width (game w)) (G.height (game w)) all_alive
             _ _ _ _ _ (all_alive_closed _ _) Hst) in H;
      [|now split].
    destruct H as [(_ & _ & Hchain') (_ & _ & _ & Ht' & Hper)].
    split; [split; [congruence | exact Hchain'] | exact Hper].
Qed.

Lemma session_stays_alive_witness :
  snake_alive after_move /\
  G.skeleTicksPerSegment (game after_move)
  = G.skeleTicksPerSegment (game about_to_move).
Proof.
  destruct (session_stays_alive 10 Keys.none nil about_to_move after_move)
    as (_ & H).
  apply H.
  - right. reflexivity.
  - split; [reflexivity|]. exists (Body.Head straight). split; [reflexivity|].
    split; [discriminate | repeat constructor].
  - reflexivity.
Defined.

(** ** One move, taken apart *)

Lemma next_pos_ext (width height : Z) (h h' : Seg.SnakeBodySegment)
    (d : snakeDirection) :
  Seg.x h' = Seg.x h -> Seg.y h' = Seg.y h ->
  next_pos width height h' d = next_pos width height h d.
Proof. unfold next_pos. now intros -> ->. Qed.

Lemma cut_head (chain : list Seg.SnakeBodySegment) (iseg : nat)
    (prevSeg seg0 h : Seg.SnakeBodySegment) (t : list Seg.SnakeBodySegment) :
  chain = h :: t -> chain !! iseg = Some seg0 ->
  exists h' t',
    cut chain iseg prevSeg seg0 = h' :: t' /\
    Seg.x h' = Seg.x h /\ Seg.y h' = Seg.y h /\ Seg.facing h' = Seg.facing h.
Proof.
  intros -> Hseg. unfold cut. destruct iseg as [|iseg]; simpl.
  - injection Hseg as <-. now eexists _, _.
  - now eexists _, _.
Qed.

Lemma cut_cells (chain : list Seg.SnakeBodySegment) (iseg : nat)
    (prevSeg seg0 : Seg.SnakeBodySegment) :
  chain !! iseg = Some seg0 ->
  map cell (cut chain iseg prevSeg seg0) = take (S iseg) (map cell chain).
Proof.
  intros Hseg. unfold cut. rewrite map_app, <- firstn_map. simpl.
  symmetry. apply take_S_r.
  change (map cell chain) with (cell <$> chain).
  now rewrite list_lookup_fmap, Hseg.
Qed.

(* A [SnakeMove] that returns either stopped at the death check, or put a new
   head one step from the old one and handed over to the food check. *)
Lemma SnakeMove_moved (fuel : nat) (p : loc) (d : snakeDirection)
    (checkDeath checkFood : bool) (w w' : World) (b : Body.SnakeBody)
    (h : Seg.SnakeBodySegment) (t : list Seg.SnakeBodySegment) :
  heap w !! p = Some b -> Body.Head b = h :: t ->
  SnakeMove fuel (Some p) d checkDeath checkFood w = Ok tt w' ->
  (checkDeath = true /\ SnakeCheckDeath (Some p) d w = Ok true w /\
   w' = set_game (G.set_state StateGameEnd (game w)) w) \/
  ((checkDeath = true -> SnakeCheckDeath (Some p) d w = Ok false w) /\
   exists (w1 : World) (b1 : Body.SnakeBody) (rest : list Seg.SnakeBodySegment),
     w1 = set_heap (<[p := b1]> (heap w)) w /\
     Body.grow b1 = false /\
     Body.Head b1
     = Seg.mk (next_pos (G.width (game w)) (G.height (game w)) h d).1
              (next_pos (G.width (game w)) (G.height (game w)) h d).2
              d (SnakeTypeHead + direction_rotation d) false :: rest /\
     (exists n, map cell rest = take n (map cell (h :: t))) /\
     (if checkFood then
        let* ate := SnakeCheckFood (Some p) in
        if ate then
          let* b' := deref (Some p) in
          store (Some p) (Body.set_grow true b') ;;; SpawnFood fuel
        else ret tt
      else ret tt) w1 = Ok tt w').
Proof.
  intros Hl Hh H. unfold SnakeMove in H.
  apply bind_Ok in H as (dead & w0 & Hdead & H).
  assert (w0 = w) as ->.
  { destruct checkDeath; [now apply SnakeCheckDeath_pure in Hdead | now inv_M]. }
  destruct dead.
  { left. destruct checkDeath; [|discriminate].
    rewrite ChangeState_GameEnd in H. injection H as <-. now repeat split. }
  right. split; [now intros -> |].
  rewrite (bind_step _ _ w w b) in H by now apply deref_Some.
  apply bind_Ok in H as ([] & w2 & Hmove & H).
  assert (Htile : forall f, (advance_tiles d f).1 = SnakeTypeHead + direction_rotation d)
    by (intros f; now destruct d, f).
  destruct (Body.grow b) eqn:Hgrow; simpl negb in Hmove; cbv iota in Hmove.
  2:{ apply bind_Ok in Hmove as ([] & w3 & Hr & Ha).
    apply SnakeRemoveTail_inv in Hr
      as (l & b0 & iprev & iseg & prevSeg & seg0 & [= <-] & Hl0 & _ & Hseg & _ & ->).
    rewrite Hl in Hl0. injection Hl0 as <-.
    destruct (cut_head _ iseg prevSeg seg0 h t Hh Hseg)
      as (h' & t' & Hcut & Hx & Hy & _).
    apply SnakeAdvance_inv in Ha as (l & b3 & h3 & t3 & [= <-] & Hl3 & Hh3 & ->).
    simpl in Hl3. rewrite lookup_insert_eq in Hl3. injection Hl3 as <-.
    simpl in Hh3. rewrite Hcut in Hh3. injection Hh3 as <- <-.
    eexists _, _, _. split; [|split; [|split; [|split; [|exact H]]]].
    + unfold set_heap. simpl. now rewrite insert_insert_eq.
    + simpl. exact Hgrow.
    + simpl. unfold advanced. rewrite Htile, (next_pos_ext _ _ h h') by assumption.
      reflexivity.
    + exists (S iseg).
      change (map cell (Seg.set_tile (advance_tiles d (Seg.facing h')).2 h' :: t'))
        with (map cell (h' :: t')).
      rewrite <- Hcut, <- Hh. now apply cut_cells. }
  apply bind_Ok in Hmove as ([] & w3 & Ha & Hs).
  apply SnakeAdvance_inv in Ha as (l & b3 & h3 & t3 & [= <-] & Hl3 & Hh3 & ->).
  rewrite Hl in Hl3. injection Hl3 as <-. rewrite Hh in Hh3. injection Hh3 as <- <-.
  apply bind_Ok in Hs as (b4 & w4 & Hb4 & Hs).
  apply deref_Ok in Hb4 as (-> & l & [= <-] & Hl4).
  simpl in Hl4. rewrite lookup_insert_eq in Hl4. injection Hl4 as <-.
  rewrite store_Some in Hs. injection Hs as <-.
  eexists _, _, _. split; [|split; [|split; [|split; [|exact H]]]].
  - unfold set_heap. simpl. now rewrite insert_insert_eq.
  - reflexivity.
  - simpl. unfold advanced. now rewrite Htile.
  - exists (length (h :: t)).
    change (map cell (Seg.set_tile (advance_tiles d (Seg.facing h)).2 h :: t))
      with (map cell (h :: t)).
    rewrite <- (length_map cell). symmetry. apply firstn_all.
Qed.


Lemma SnakeCheckFood_heap (p : loc) (w w' : World) (r : bool) (q : loc) :
  SnakeCheckFood (Some p) w = Ok r w' -> q <> p -> heap w' !! q = heap w !! q.
Proof.
  unfold SnakeCheckFood. intros H Hq.
  apply bind_Ok in H as (b & w0 & Hb & H).
  apply deref_Ok in Hb as (-> & l & [= <-] & Hl).
  unfold get_game in H. rewrite (bind_step _ _ w w (game w)) in H by reflexivity.
  destruct (Body.Head b); [discriminate|].
  destruct (G.food (game w)); [|discriminate].
  match type of H with (if ?c then _ else _) _ = _ => destruct c end.
  - apply bind_Ok in H as ([] & w1 & Hm & H). injection Hm as <-.
    apply bind_Ok in H as ([] & w2 & Hs & H). rewrite store_Some in Hs.
    injection Hs as <-. injection H as _ <-. simpl.
    now rewrite lookup_insert_ne by congruence.
  - now injection H as _ <-.
Qed.

(** X9: a [SnakeMove] on one body leaves every other body of the store as it
    was; called without death check and without food check -- as for the
    title snakes and the menu snake -- it also leaves the game object and the
    random stream untouched. *)
Theorem SnakeMove_touches_one_body (fuel : nat) (p : loc) (d : snakeDirection)
    (checkDeath checkFood : bool) (w w' : World) (b : Body.SnakeBody)
    (h : Seg.SnakeBodySegment) (t : list Seg.SnakeBodySegment) :
  heap w !! p = Some b -> Body.Head b = h :: t ->
  SnakeMove fuel (Some p) d checkDeath checkFood w = Ok tt w' ->
  (forall q, q <> p -> heap w' !! q = heap w !! q) /\
  (checkDeath = false -> checkFood = false ->
   game w' = game w /\ cursor w' = cursor w /\ draws w' = draws w).
Proof.
  intros Hl Hh H.
  apply (SnakeMove_moved fuel p d checkDeath checkFood w w' b h t Hl Hh) in H
    as [(Hcd & _ & ->) | (_ & w1 & b1 & rest & -> & Hg & Hhead & _ & H)].
  - split; [reflexivity | intros ->; discriminate].
  - split.
    + intros q Hq. destruct checkFood.
      * apply bind_Ok in H as (ate & w2 & Hate & H).
        assert (H2 : heap w2 !! q = heap w !! q).
        { rewrite (SnakeCheckFood_heap p _ w2 ate q Hate Hq). simpl.
          now rewrite lookup_insert_ne by congruence. }
        destruct ate; [|injection H as <-; exact H2].
        inv_M. apply SpawnFood_frame in H as (-> & _). simpl.
        now rewrite lookup_insert_ne by congruence.
      * injection H as <-. simpl. now rewrite lookup_insert_ne by congruence.
    + intros _ ->. injection H as <-. now repeat split.
Qed.

Lemma SnakeMove_touches_one_body_witness :
  (forall q, q <> 1%positive ->
     match SnakeMove 10 (Some 1%positive) LEFT false false playing_straight with
     | Ok _ w' => heap w' !! q = heap playing_straight !! q
     | _ => False
     end) /\
  (false = false -> false = false ->
   match SnakeMove 10 (Some 1%positive) LEFT false false playing_straight with
   | Ok _ w' => game w' = game playing_straight /\
                cursor w' = cursor playing_straight /\
                draws w' = draws playing_straight
   | _ => False
   end).
Proof.
  destruct (SnakeMove 10 (Some 1%positive) LEFT false false playing_straight)
    as [[] w'| |] eqn:E; [|vm_compute in E; discriminate..].
  apply (SnakeMove_touches_one_body 10 1%positive LEFT false false
           playing_straight w' straight (seg 13 10 UP SnakeHeadUp)
           [seg 13 11 UP SnakeBodyUp; seg 13 12 UP SnakeTailUp]);
    [reflexivity | reflexivity | exact E].
Defined.

(** ** Eating *)




(** ** No reversal *)

Lemma head_facing_active (w w' : World) (f : snakeDirection) :
  head_facing w = Ok f w' ->
  exists h t, active_chain w = Some (h :: t) /\ Seg.facing h = f.
Proof.
  unfold head_facing, get_game. intros H.
  rewrite (bind_step _ _ w w (game w)) in H by reflexivity.
  apply bind_Ok in H as (b & w1 & Hb & H).
  apply deref_Ok in Hb as (-> & l & Hl & Hheap).
  destruct (Body.Head b) as [|h t] eqn:Hh; [discriminate|]. injection H as <- _.
  exists h, t. unfold active_chain. now rewrite Hl, Hheap, Hh.
Qed.

Lemma UpdateInGame_keys_heading (k : Keys.Keys) (w w' : World) :
  (if Keys.ArrowUp k then
     let* f := head_facing in
     if bool_decide (f = LEFT) || bool_decide (f = RIGHT)
     then modify_game (G.set_SnakeDirection UP) else ret tt
   else if Keys.ArrowDown k then
     let* f := head_facing in
     if bool_decide (f = LEFT) || bool_decide (f = RIGHT)
     then modify_game (G.set_SnakeDirection DOWN) else ret tt
   else if Keys.ArrowLeft k then
     let* f := head_facing in
     if bool_decide (f = UP) || bool_decide (f = DOWN)
     then modify_game (G.set_SnakeDirection LEFT) else ret tt
   else if Keys.ArrowRight k then
     let* f := head_facing in
     if bool_decide (f = UP) || bool_decide (f = DOWN)
     then modify_game (G.set_SnakeDirection RIGHT) else ret tt
   else ret tt) w = Ok tt w' ->
  heading_ok w -> heading_ok w'.
Proof.
  intros H Hok.
  repeat match type of H with
         | (if ?c then _ else _) _ = _ => destruct c
         end;
    try (injection H as <-; exact Hok);
    apply bind_Ok in H as (f & w1 & Hf & H);
    pose proof (head_facing_active _ _ _ Hf) as (h & t & Ha & Hface);
    apply head_facing_pure in Hf; subst w1;
    (destruct (bool_decide _ || bool_decide _) eqn:Hperp;
     [|injection H as <-; exact Hok]);
    injection H as <-; exists h, t; (split; [exact Ha|]); simpl;
    rewrite Hface; destruct f; try discriminate Hperp; discriminate.
Qed.

Lemma RandomSnakeTongue_direction (w w' : World) :
  RandomSnakeTongue w = Ok tt w' ->
  G.SnakeDirection (game w') = G.SnakeDirection (game w).
Proof.
  unfold RandomSnakeTongue. intros H. inv_M. simpl in H.
  destruct (_ >=? _); [|now inv_M].
  inv_M. destruct (G.tongueShow _); inv_M; [easy|].
  match goal with H : Intn _ _ = _ |- _ => apply Intn_Ok in H as (_ & ->) end.
  destruct (_ >? _); now inv_M.
Qed.

(* the food check of [SnakeMove] keeps the chain and the direction *)
Lemma food_check_calm (fuel : nat) (p : option loc) (checkFood : bool)
    (w w' : World) :
  (if checkFood then
     let* ate := SnakeCheckFood p in
     if ate then
       let* b' := deref p in
       store p (Body.set_grow true b') ;;; SpawnFood fuel
     else ret tt
   else ret tt) w = Ok tt w' ->
  calm w w' /\ G.SnakeDirection (game w') = G.SnakeDirection (game w).
Proof.
  intros H. destruct checkFood; [|injection H as <-; split; [apply calm_refl | reflexivity]].
  apply bind_Ok in H as (ate & w1 & Hate & H).
  pose proof (SnakeCheckFood_calm _ _ _ _ Hate) as Hc1.
  apply SnakeCheckFood_game in Hate.
  assert (Hd1 : G.SnakeDirection (game w1) = G.SnakeDirection (game w))
    by (rewrite Hate; now destruct ate).
  destruct ate; [|injection H as <-; now split].
  apply bind_Ok in H as (b' & w2 & Hb' & H).
  apply deref_Ok in Hb' as (-> & l & -> & Hl).
  rewrite (bind_step _ _ _ _ _ (store_Some l _ w1)) in H.
  pose proof (store_calm l b' (Body.set_grow true b') w1 Hl eq_refl) as Hc2.
  pose proof H as H0. apply SpawnFood_quiet, quiet_calm in H0.
  apply SpawnFood_frame in H as (_ & f & Hg).
  split; [exact (calm_trans _ _ _ Hc1 (calm_trans _ _ _ Hc2 H0))|].
  rewrite Hg. simpl. exact Hd1.
Qed.

Lemma heading_ok_ext (w w' : World) :
  active_chain w' = active_chain w ->
  G.SnakeDirection (game w') = G.SnakeDirection (game w) ->
  heading_ok w -> heading_ok w'.
Proof.
  intros Ha Hd (h & t & Hc & Hne). exists h, t. split; congruence.
Qed.

(** X11: in a player session the direction the game holds for the next move
    is never the reverse of the head's facing: [Reset] starts with both UP, a
    key is only taken when it is perpendicular to the facing, and a move
    leaves the head facing the direction moved in.  So the snake is never
    told to turn back into its own neck. *)
Theorem heading_never_reversed (fuel : nat) (k : Keys.Keys) (e : error)
    (w w' : World) :
  (ChangeState fuel StateGameStart w = Ok tt w' -> heading_ok w') /\
  (G.state (game w) = StateGameStart \/ G.state (game w) = StateInGame ->
   heading_ok w -> Update fuel k w = Ok e w' -> heading_ok w').
Proof.
  split.
  - intros H. unfold ChangeState in H.
    apply bind_Ok in H as ([] & w1 & Hr & H). injection H as <-.
    apply Reset_effect in Hr
      as (_ & _ & _ & _ & _ & Hd & _ & _ & _ & _ & l & _ & Hp & Hheap).
    eexists _, _. unfold active_chain. simpl. rewrite Hp, Hheap, lookup_insert_eq.
    split; [reflexivity|]. simpl. now rewrite Hd.
  - intros Hst Hok H. unfold Update in H.
    destruct (Keys.Q k); [now injection H as _ <-|].
    apply bind_Ok in H as (g & w0 & Hg & H). injection Hg as <- <-.
    apply bind_Ok in H as ([] & w1 & H & Hret). injection Hret as _ <-.
    destruct Hst as [Hst | Hst]; rewrite Hst in H.
    + apply bind_Ok in H as ([] & w2 & Hm & H). injection Hm as <-.
      apply bind_Ok in H as (g2 & w3 & Hg & H). injection Hg as <- <-.
      apply bind_Ok in H as ([] & w4 & Hdec & H).
      apply bind_Ok in H as (g4 & w5 & Hg & H). injection Hg as <- <-.
      assert (Hok4 : heading_ok w4).
      { destruct (_ >=? 60) in Hdec.
        - apply bind_Ok in Hdec as ([] & w5 & Hm & Hdec). injection Hm as <-.
          injection Hdec as <-. now apply (heading_ok_ext w).
        - injection Hdec as <-. now apply (heading_ok_ext w). }
      destruct (_ <? 0) in H; [|now injection H as <-].
      unfold ChangeState in H. simpl in H. injection H as <-.
      now apply (heading_ok_ext w4).
    + unfold UpdateInGame in H.
      apply bind_Ok in H as ([] & w2 & Hkeys & H).
      apply UpdateInGame_keys_heading in Hkeys; [|exact Hok]. clear Hok.
      apply bind_Ok in H as (g1 & w3 & Hg & H). injection Hg as <- <-.
      apply bind_Ok in H as ([] & w3 & Hm & H). injection Hm as <-.
      apply bind_Ok in H as (g2 & w4 & Hg & H). injection Hg as <- <-.
      apply bind_Ok in H as ([] & w5 & Hmove & Htongue).
      pose proof (RandomSnakeTongue_direction _ _ Htongue) as Hdir.
      apply RandomSnakeTongue_quiet, quiet_active_chain in Htongue.
      apply (heading_ok_ext w5); [exact Htongue | exact Hdir |].
      set (wt := set_game (G.set_ticks (GoInt.add (G.ticks (game w2)) 1) (game w2))
                   w2) in *.
      assert (Hokt : heading_ok wt) by now apply (heading_ok_ext w2).
      destruct (_ >=? _) in Hmove; [|now injection Hmove as <-].
      apply bind_Ok in Hmove as ([] & w6 & Hm & Hmove). injection Hm as <-.
      apply bind_Ok in Hmove as ([] & w7 & Hmove & Hspeed).
      apply bind_Ok in Hspeed as (g7 & w8 & Hg & Hspeed). injection Hg as <- <-.
      injection Hspeed as <-.
      apply (heading_ok_ext w7); [reflexivity | reflexivity |].
      set (w0 := set_game (G.set_ticks 0 (game wt)) wt) in *.
      assert (Hok0 : heading_ok w0) by now apply (heading_ok_ext wt).
      destruct Hok0 as (h & t & Ha & Hne).
      unfold active_chain in Ha.
      destruct (G.SnakeBody (game w0)) as [p|] eqn:Hp; [|discriminate].
      destruct (heap w0 !! p) as [b|] eqn:Hl; [|discriminate].
      injection Ha as Hh.
      match type of Hmove with
      | SnakeMove _ ?q ?d _ _ _ = _ =>
          change q with (G.SnakeBody (game w0)) in Hmove;
          change d with (G.SnakeDirection (game w0)) in Hmove
      end.
      rewrite Hp in Hmove.
      apply (SnakeMove_moved fuel p _ true true w0 w7 b h t Hl Hh) in Hmove
        as [(_ & _ & ->) | (_ & w1' & b1 & rest & -> & _ & Hhead & _ & Hfood)].
      * exists h, t. unfold active_chain. simpl. simpl in Hp, Hl.
        rewrite Hp, Hl, Hh. split; [reflexivity | exact Hne].
      * apply (food_check_calm fuel (Some p) true) in Hfood as [[_ Hc] Hd].
        eexists _, rest. rewrite Hc, Hd. unfold active_chain. simpl.
        simpl in Hp. rewrite Hp, lookup_insert_eq, Hhead.
        split; [reflexivity|]. simpl. now destruct (G.SnakeDirection (game w2)).
Qed.

Lemma heading_never_reversed_witness : heading_ok after_move.
Proof.
  destruct (heading_never_reversed 10 Keys.none nil about_to_move after_move)
    as (_ & H).
  apply H.
  - right. reflexivity.
  - exists (seg 13 10 UP SnakeHeadUp),
      [seg 13 11 UP SnakeBodyUp; seg 13 12 UP SnakeTailUp].
    split; [reflexivity | discriminate].
  - reflexivity.
Defined.

(** ** The countdown *)

Lemma counted_self (w : World) :
  counted (G.state (game w)) (G.countDownNum (game w)) (G.countDownTicks (game w)) w
  = w.
Proof. destruct w as [g hp dr cu]. now destruct g. Qed.

Lemma counted_counted (st st' : gameState) (n n' t t' : Z) (w : World) :
  counted st' n' t' (counted st n t w) = counted st' n' t' w.
Proof. reflexivity. Qed.

(* during the countdown only Q is looked at *)
Lemma Update_countdown_keys (fuel : nat) (k : Keys.Keys) (w : World) :
  G.state (game w) = StateGameStart -> Keys.Q k = false ->
  Update fuel k w = Update fuel Keys.none w.
Proof.
  intros Hst Hq. unfold Update. rewrite Hq. simpl (Keys.Q Keys.none).
  unfold get_game.
  rewrite !(bind_step _ _ w w (game w)) by reflexivity.
  now rewrite Hst.
Qed.

(* one tick of the countdown *)
Lemma countdown_tick (fuel : nat) (k : Keys.Keys) (n t : Z) (w : World) :
  Keys.Q k = false ->
  0 <= n <= GoInt.max_int -> 0 <= t < 60 ->
  Update fuel k (counted StateGameStart n t w)
  = Ok nil (if t <? 59 then counted StateGameStart n (t + 1) w
            else if 0 <? n then counted StateGameStart (n - 1) 0 w
            else counted StateInGame (n - 1) 0 w).
Proof.
  unfold GoInt.max_int. intros Hq Hn Ht.
  rewrite (Update_countdown_keys fuel k (counted StateGameStart n t w) eq_refl Hq).
  unfold Update. simpl (Keys.Q Keys.none).
  cbv iota. unfold get_game.
  rewrite (bind_step _ _ _ _ (game (counted StateGameStart n t w))) by reflexivity.
  simpl (G.state _). cbv iota. unfold bind, modify_game, get_game, ret. simpl.
  rewrite add_exact by (apply in_range_bounds; lia).
  destruct (Z.ltb_spec t 59) as [Hlt|Hge].
  - destruct (Z.geb_spec (t + 1) 60) as [?|_]; [lia|]. simpl.
    destruct (Z.ltb_spec n 0) as [?|_]; [lia|]. reflexivity.
  - destruct (Z.geb_spec (t + 1) 60) as [_|?]; [|lia]. simpl.
    rewrite sub_exact by (apply in_range_bounds; lia).
    destruct (Z.ltb_spec 0 n) as [Hpos|Hzero].
    + destruct (Z.ltb_spec (n - 1) 0) as [?|_]; [lia|]. reflexivity.
    + destruct (Z.ltb_spec (n - 1) 0) as [_|?]; [|lia]. reflexivity.
Qed.

Lemma key_ticks_snoc (fuel : nat) (ks : list Keys.Keys) (k : Keys.Keys)
    (w w1 w2 : World) (e : error) :
  key_ticks fuel ks w = Ok tt w1 ->
  Update fuel k w1 = Ok e w2 ->
  key_ticks fuel (ks ++ [k]) w = Ok tt w2.
Proof.
  revert w. induction ks as [|k0 ks IH]; intros w Hn Hu.
  - injection Hn as ->. simpl. unfold bind. now rewrite Hu.
  - change (key_ticks fuel (k0 :: ks) w)
      with ((Update fuel k0 ;;; key_ticks fuel ks) w) in Hn.
    apply bind_Ok in Hn as (e0 & w0 & Hu0 & Hn).
    change (key_ticks fuel ((k0 :: ks) ++ [k]) w)
      with ((Update fuel k0 ;;; key_ticks fuel (ks ++ [k])) w).
    rewrite (bind_step _ _ _ _ _ Hu0). now apply IH.
Qed.

(* the ticks of [ks] into a countdown from n, short of its end *)
Lemma countdown_ticks (fuel : nat) (n : nat) (w : World) (ks : list Keys.Keys) :
  Z.of_nat n <= GoInt.max_int ->
  Forall (fun k => Keys.Q k = false) ks ->
  (length ks < 60 * (n + 1))%nat ->
  key_ticks fuel ks (counted StateGameStart (Z.of_nat n) 0 w)
  = Ok tt (counted StateGameStart (Z.of_nat n - Z.of_nat (length ks / 60))
                   (Z.of_nat (length ks mod 60)) w).
Proof.
  intros Hn. induction ks as [|k ks IH] using rev_ind; intros Hks Hj.
  - simpl. now rewrite Z.sub_0_r.
  - apply Forall_app in Hks as [Hks Hk]. apply Forall_inv in Hk.
    rewrite length_app in Hj |- *. simpl length in Hj |- *.
    rewrite Nat.add_1_r in Hj |- *.
    set (j := length ks) in *.
    apply (key_ticks_snoc fuel ks k _ _ _ nil (IH Hks ltac:(lia))).
    pose proof (Nat.div_mod_eq j 60) as Hdm.
    pose proof (Nat.mod_upper_bound j 60 ltac:(lia)) as Hmod.
    assert (Hq : (j / 60 <= n)%nat) by lia.
    rewrite countdown_tick by first [exact Hk | lia].
    destruct (Z.ltb_spec (Z.of_nat (j mod 60)) 59) as [Hlt|Hge].
    + replace (S j / 60)%nat with (j / 60)%nat
        by (apply (Nat.div_unique _ 60 _ (S (j mod 60))); lia).
      replace (S j mod 60)%nat with (S (j mod 60))
        by (apply (Nat.mod_unique _ 60 (j / 60)); lia).
      f_equal. f_equal. lia.
    + assert (Hlast : (j mod 60 = 59)%nat) by lia.
      assert (Hdiv : (S j / 60 = S (j / 60))%nat)
        by (symmetry; apply (Nat.div_unique _ 60 _ 0); lia).
      assert (Hrem : (S j mod 60 = 0)%nat)
        by (symmetry; apply (Nat.mod_unique _ 60 (S (j / 60))); lia).
      rewrite Hdiv, Hrem.
      assert (Hq' : (S (j / 60) <= n)%nat) by lia.
      destruct (Z.ltb_spec 0 (Z.of_nat n - Z.of_nat (j / 60))) as [_|?]; [|lia].
      f_equal. f_equal. lia.
Qed.

(** X12: a countdown that starts at n >= 0 with its tick counter at 0 lasts
    exactly 60 (n + 1) ticks, whatever keys other than Q are held on them:
    after fewer ticks the game is still in StateGameStart, with the counters
    telling how many have passed, and with the last one it is in StateInGame
    with the counter at -1.  The ticks change nothing but the phase and the
    two counters -- snake, food, score, speed and random stream are as they
    were.  From [Reset], n is 3: 240 ticks. *)
Theorem countdown_length (fuel : nat) (n : nat) (w : World)
    (ks : list Keys.Keys) :
  G.state (game w) = StateGameStart ->
  G.countDownNum (game w) = Z.of_nat n -> Z.of_nat n <= GoInt.max_int ->
  G.countDownTicks (game w) = 0 ->
  Forall (fun k => Keys.Q k = false) ks ->
  ((length ks < 60 * (n + 1))%nat ->
   key_ticks fuel ks w
   = Ok tt (counted StateGameStart (Z.of_nat n - Z.of_nat (length ks / 60))
                    (Z.of_nat (length ks mod 60)) w)) /\
  (length ks = (60 * (n + 1))%nat ->
   key_ticks fuel ks w = Ok tt (counted StateInGame (-1) 0 w)).
Proof.
  intros Hst Hnum Hn Ht Hks.
  assert (Hw : w = counted StateGameStart (Z.of_nat n) 0 w).
  { rewrite <- Hst, <- Hnum, <- Ht. symmetry. apply counted_self. }
  split.
  - intros Hj. rewrite Hw at 1. now apply countdown_ticks.
  - intros Hlen. destruct ks as [|k ks] using rev_ind; [simpl in Hlen; lia|].
    clear IHks. apply Forall_app in Hks as [Hks Hk]. apply Forall_inv in Hk.
    rewrite length_app in Hlen. simpl in Hlen.
    assert (Hj : length ks = (60 * n + 59)%nat) by lia.
    rewrite Hw at 1.
    apply (key_ticks_snoc fuel ks k _ _ _ nil
             (countdown_ticks fuel n w ks Hn Hks ltac:(lia))).
    rewrite Hj.
    replace ((60 * n + 59) / 60)%nat with n
      by (apply (Nat.div_unique _ 60 _ 59); lia).
    replace ((60 * n + 59) mod 60)%nat with 59%nat
      by (apply (Nat.mod_unique _ 60 n); lia).
    rewrite Z.sub_diag.
    rewrite countdown_tick by first [exact Hk | unfold GoInt.max_int; lia].
    reflexivity.
Qed.

Lemma countdown_length_witness :
  key_ticks 10 (replicate 240 eager) (counted StateGameStart 3 0 playing_straight)
  = Ok tt (counted StateInGame (-1) 0 playing_straight).
Proof.
  destruct (countdown_length 10 3 (counted StateGameStart 3 0 playing_straight)
              (replicate 240 eager))
    as [_ H].
  - reflexivity.
  - reflexivity.
  - unfold GoInt.max_int. lia.
  - reflexivity.
  - apply Forall_replicate. reflexivity.
  - apply H. reflexivity.
Defined.

(** ** Food placement at the edges *)

Lemma bind_Panic {A B} (m : M A) (k : A -> M B) (w : World) :
  m w = Panic -> bind m k w = Panic.
Proof. unfold bind. now intros ->. Qed.

(** X13: on a board with fewer than two columns or fewer than two rows
    [SpawnFood] panics, because [rand.Intn] is called with an argument that
    is not positive; so does [NewGame] for such a board. *)
Theorem SpawnFood_narrow_board (fuel : nat) (w : World) (width height : Z) :
  GoInt.min_int < width <= GoInt.max_int ->
  GoInt.min_int < height <= GoInt.max_int ->
  width <= 1 \/ height <= 1 ->
  (G.width (game w) = width -> G.height (game w) = height ->
   SpawnFood (S fuel) w = Panic) /\
  NewGame (S fuel) width height w = Panic.
Proof.
  unfold GoInt.min_int, GoInt.max_int. intros Hw Hh Hsmall.
  assert (Hfood : forall w0, G.width (game w0) = width ->
                             G.height (game w0) = height ->
                             SpawnFood (S fuel) w0 = Panic).
  { intros w0 Hw0 Hh0. rewrite SpawnFood_S. unfold get_game.
    rewrite (bind_step _ _ w0 w0 (game w0)) by reflexivity.
    rewrite Hw0, Hh0. rewrite !sub_exact by (apply in_range_bounds; lia).
    unfold bind at 1. unfold Intn at 1.
    destruct (Z.leb_spec (width - 1) 0) as [_|Hwide]; [reflexivity|].
    unfold bind at 1. unfold Intn at 1.
    destruct (Z.leb_spec (height - 1) 0) as [_|?]; [reflexivity | lia]. }
  split; [exact (Hfood w)|].
  generalize dependent (S fuel). intros n Hfood.
  unfold NewGame, Reset, SpawnSnake, alloc, bind, modify_game, get_game. simpl.
  now rewrite Hfood.
Qed.

Lemma SpawnFood_narrow_board_witness :
  NewGame 1 1 20 empty_world = Panic.
Proof.
  destruct (SpawnFood_narrow_board 0 empty_world 1 20) as [_ H];
    [unfold GoInt.min_int, GoInt.max_int; lia.. | exact H].
Defined.

(** X14: when the snake covers every cell the draws can produce -- every
    cell outside the last column and the last row -- [SpawnFood] never
    returns: no amount of fuel is enough, on any random stream. *)
Theorem SpawnFood_full_board (fuel : nat) (w : World) (a : Body.SnakeBody) :
  1 < G.width (game w) <= GoInt.max_int ->
  1 < G.height (game w) <= GoInt.max_int ->
  deref (G.SnakeBody (game w)) w = Ok a w -> Body.Head a <> [] ->
  (forall x y, 0 <= x < G.width (game w) - 1 -> 0 <= y < G.height (game w) - 1 ->
               occupies x y (Body.Head a) = true) ->
  SpawnFood fuel w = OutOfFuel.
Proof.
  unfold GoInt.max_int. intros Hw Hh Ha Hne Hfull.
  destruct (Body.Head a) as [|s t] eqn:Hs; [congruence|]. clear Hne.
  revert w Hw Hh Ha Hfull. induction fuel as [|fuel IH]; intros w Hw Hh Ha Hfull;
    [reflexivity|].
  rewrite (SpawnFood_round fuel w a s t)
    by (rewrite ?sub_exact by (apply in_range_bounds; lia); try lia; assumption).
  rewrite !sub_exact by (apply in_range_bounds; lia).
  rewrite Hfull by (apply Z.mod_pos_bound; lia).
  apply IH; try assumption.
  unfold deref in *. simpl. destruct (G.SnakeBody (game w)); [|discriminate].
  destruct (heap w !! l); [|discriminate]. now injection Ha as ->.
Qed.

Lemma SpawnFood_full_board_witness : SpawnFood 25 tiny_full = OutOfFuel.
Proof.
  apply (SpawnFood_full_board 25 tiny_full
           (Body.mk [seg 0 0 UP SnakeHeadUp; seg 0 1 UP SnakeBodyUp;
                     seg 1 1 LEFT SnakeTailLeft] false 3)).
  - unfold GoInt.max_int. simpl. lia.
  - unfold GoInt.max_int. simpl. lia.
  - reflexivity.
  - discriminate.
  - simpl. intros x y Hx Hy.
    assert (x = 0) as -> by lia. assert (y = 0) as -> by lia. reflexivity.
Defined.

Lemma food_draw_shift (w : World) (i : nat) :
  food_draw (set_cursor (S (S (cursor w))) w) i = food_draw w (S i).
Proof.
  unfold food_draw, set_cursor. cbn [game draws cursor].
  f_equal; f_equal; f_equal; lia.
Qed.

Lemma food_draw_0 (w : World) :
  food_draw w 0
  = (draws w (cursor w) mod (G.width (game w) - 1),
     draws w (S (cursor w)) mod (G.height (game w) - 1)).
Proof.
  unfold food_draw. f_equal; f_equal; f_equal; lia.
Qed.

(** X15: [SpawnFood] tries again for as long as the two draws land on the
    snake and stops at the first pair that does not: when the first k pairs
    of the random stream hit the snake and the next one is free, the call
    returns with the food on that cell, having taken 2 (k + 1) draws and
    changed nothing else. *)
Theorem SpawnFood_retries (fuel k : nat) (w : World)
    (chain : list Seg.SnakeBodySegment) :
  1 < G.width (game w) <= GoInt.max_int ->
  1 < G.height (game w) <= GoInt.max_int ->
  active_chain w = Some chain -> chain <> [] ->
  (forall i, (i < k)%nat ->
     occupies (food_draw w i).1 (food_draw w i).2 chain = true) ->
  occupies (food_draw w k).1 (food_draw w k).2 chain = false ->
  SpawnFood (S k + fuel) w
  = Ok tt (set_game (G.set_food (Some (Food.mk (food_draw w k).1 (food_draw w k).2))
                                (game w))
             (set_cursor (cursor w + 2 * S k) w)).
Proof.
  unfold GoInt.max_int. intros Hw Hh Hc Hne. revert w Hw Hh Hc.
  induction k as [|k IH]; intros w Hw Hh Hc Hhit Hfree.
  all: unfold active_chain in Hc;
    destruct (G.SnakeBody (game w)) as [p|] eqn:Hp; [|discriminate];
    destruct (heap w !! p) as [a|] eqn:Hl; [|discriminate];
    injection Hc as Hc;
    destruct chain as [|s t]; [congruence|];
    assert (Ha : deref (G.SnakeBody (game w)) w = Ok a w)
      by (rewrite Hp; now apply deref_Some);
    assert (Hsw : GoInt.sub (G.width (game w)) 1 = G.width (game w) - 1)
      by (apply sub_exact, in_range_bounds; lia);
    assert (Hsh : GoInt.sub (G.height (game w)) 1 = G.height (game w) - 1)
      by (apply sub_exact, in_range_bounds; lia);
    rewrite (Nat.add_succ_l _ fuel);
    rewrite (SpawnFood_round _ w a s t) by (rewrite ?Hsw, ?Hsh; first [lia | assumption]);
    rewrite Hsw, Hsh.
  - rewrite food_draw_0 in *. cbn [fst snd] in *. rewrite Hfree.
    unfold set_cursor. do 3 f_equal. lia.
  - pose proof (Hhit 0%nat ltac:(lia)) as H0.
    rewrite food_draw_0 in H0. cbn [fst snd] in H0. rewrite H0.
    rewrite (IH (set_cursor (S (S (cursor w))) w)); try assumption.
    + rewrite food_draw_shift. unfold set_game, set_cursor. cbn [game heap draws cursor].
      do 2 f_equal. lia.
    + unfold active_chain. simpl. now rewrite Hp, Hl, Hc.
    + intros i Hi. rewrite food_draw_shift. apply Hhit. lia.
    + now rewrite food_draw_shift.
Qed.

Lemma SpawnFood_retries_witness :
  SpawnFood 2 tiny_retry
  = Ok tt (set_game (G.set_food (Some (Food.mk 1 0)) (game tiny_retry))
             (set_cursor 4 tiny_retry)).
Proof.
  apply (SpawnFood_retries 0 1 tiny_retry
           [seg 0 0 UP SnakeHeadUp; seg 0 1 UP SnakeBodyUp;
            seg 0 2 UP SnakeTailUp]).
  - unfold GoInt.max_int. simpl. lia.
  - unfold GoInt.max_int. simpl. lia.
  - reflexivity.
  - discriminate.
  - intros i Hi. assert (i = 0%nat) as -> by lia. reflexivity.
  - reflexivity.
Defined.

(** ** The menu snake *)

Lemma RandomSnakeDirection_game (fuel : nat) (cur d : snakeDirection)
    (w w' : World) :
  RandomSnakeDirection fuel cur w = Ok d w' -> game w' = game w.
Proof.
  unfold RandomSnakeDirection. intros H.
  apply bind_Ok in H as (n & w1 & Hn & H). apply Intn_Ok in Hn as (_ & ->).
  destruct (n <=? 50); [now injection H as _ <-|].
  change (game w) with (game (set_cursor (S (cursor w)) w)).
  generalize dependent (set_cursor (S (cursor w)) w). clear w.
  induction fuel as [|fuel IH]; intros w H; [discriminate|].
  simpl in H. apply bind_Ok in H as (m & w1 & Hm & H).
  apply Intn_Ok in Hm as (_ & ->).
  destruct (snakeDirection_of_int _) as [d0|]; [|exact (IH _ H)].
  destruct cur;
    match type of H with (if ?c then _ else _) _ = _ => destruct c end;
    first [ now injection H as _ <- | exact (IH _ H) ].
Qed.

Lemma snake_sized_quiet (n : Z) (w w' : World) :
  quiet w w' -> snake_sized n w -> snake_sized n w'.
Proof.
  intros (Hh & _ & _ & Hs & _) (p & b & Hp & Hb & H). exists p, b.
  rewrite Hh, Hs. now split.
Qed.

Lemma grow_random_snake_size (fuel bound : nat) (i n : Z) (w w' : World) :
  0 <= i <= 100 -> n + (100 - i) < GoInt.max_int -> 0 <= n ->
  snake_sized n w ->
  grow_random_snake fuel bound i w = Ok tt w' ->
  exists j, i <= j <= 100 /\ 1 <= j /\ snake_sized (n + (j - i)) w' /\
            G.score (game w') = G.score (game w) /\
            G.state (game w') = G.state (game w).
Proof.
  unfold GoInt.max_int.
  revert i n w. induction bound as [|bound IH]; intros i n w Hi Hn Hn0 Hs H;
    [discriminate|].
  simpl in H. apply bind_Ok in H as (r & w1 & Hr & H).
  apply Intn_Ok in Hr as (Hr & ->).
  assert (Hq1 : quiet w (set_cursor (S (cursor w)) w)) by now repeat split.
  pose proof (snake_sized_quiet _ _ _ Hq1 Hs) as Hs1.
  destruct (Z.leb_spec i r) as [Hle|Hgt].
  2:{ injection H as <-. exists i. replace (n + (i - i)) with n by lia.
      repeat split; try lia. exact Hs1. }
  unfold get_game in H.
  rewrite (bind_step _ _ _ _ (game (set_cursor (S (cursor w)) w))) in H
    by reflexivity.
  apply bind_Ok in H as (b & w2 & Hb & H). apply deref_Ok in Hb as (-> & _).
  destruct (Body.Head b) as [|h t]; [discriminate|].
  apply bind_Ok in H as (d & w3 & Hd & H).
  pose proof (RandomSnakeDirection_game _ _ _ _ _ Hd) as Hg3. simpl in Hg3.
  apply RandomSnakeDirection_quiet in Hd.
  pose proof (snake_sized_quiet _ _ _ Hd Hs1) as Hs3.
  apply bind_Ok in H as ([] & w4 & Ha & H).
  assert (Hp : G.SnakeBody (game (set_cursor (S (cursor w)) w))
               = G.SnakeBody (game w3)) by (symmetry; apply Hd).
  rewrite Hp in Ha. pose proof Ha as Hgame. apply SnakeAdvance_game in Hgame.
  apply SnakeAdvance_inv in Ha as (l & b3 & h3 & t3 & Hl & Hb3 & Hh3 & ->).
  destruct Hs3 as (p3 & b3' & Hp3 & Hb3' & Hlen & Hcnt & Hgrow).
  rewrite Hl in Hp3. injection Hp3 as <-. rewrite Hb3 in Hb3'. injection Hb3' as <-.
  rewrite (add_exact i 1) in H by (apply in_range_bounds; lia).
  apply (IH (i + 1) (n + 1)) in H as (j & Hj & Hj1 & Hsj & Hscore & Hstate);
    try lia.
  - exists j. replace (n + (j - i)) with (n + 1 + (j - (i + 1))) by lia.
    repeat split; try lia; try assumption.
    + rewrite Hscore. simpl. now rewrite Hg3.
    + rewrite Hstate. simpl. now rewrite Hg3.
  - exists l. eexists. simpl. rewrite Hl, lookup_insert_eq.
    repeat split; try assumption.
    + simpl. rewrite add_exact by (apply in_range_bounds; lia). lia.
    + simpl. rewrite Hh3 in Hcnt. simpl in Hcnt. lia.
Qed.

(** X16: entering the main menu ([ChangeState(StateMainMenu)]) resets the
    game and then lets the new snake advance at least once and at most 100
    times: afterwards the menu snake has between 4 and 103 segments, a
    counter that agrees and no growth pending; the score is 0 and the snake
    moves every 5 ticks. *)
Theorem menu_snake_size (fuel : nat) (w w' : World) :
  ChangeState fuel StateMainMenu w = Ok tt w' ->
  G.state (game w') = StateMainMenu /\
  G.ticksPerMovement (game w') = 5 /\
  G.score (game w') = 0 /\
  exists n, 4 <= n <= 103 /\ snake_sized n w'.
Proof.
  intros H. unfold ChangeState in H.
  apply bind_Ok in H as ([] & w1 & H & Hst). injection Hst as <-.
  apply bind_Ok in H as ([] & w2 & Hr & H).
  apply Reset_effect in Hr
    as (_ & _ & _ & _ & _ & _ & _ & Hscore & _ & _ & l & _ & Hp & Hheap).
  assert (Hs2 : snake_sized 3 w2).
  { exists l. eexists. rewrite Hp, Hheap, lookup_insert_eq. now repeat split. }
  apply bind_Ok in H as ([] & w3 & Hg & H).
  apply (grow_random_snake_size fuel 101 0 3 w2 w3) in Hg
    as (j & Hj & Hj1 & (p & b & Hp3 & Hb3 & Hsized) & Hscore3 & _);
    [|lia | unfold GoInt.max_int; lia | lia | exact Hs2].
  injection H as <-. simpl. repeat split; [congruence|].
  exists (3 + (j - 0)). split; [lia|]. now exists p, b.
Qed.

Lemma menu_snake_size_witness :
  exists n, 4 <= n <= 103 /\
    snake_sized n
      (match ChangeState 50 StateMainMenu empty_world with
       | Ok _ w' => w'
       | _ => empty_world
       end).
Proof.
  destruct (ChangeState 50 StateMainMenu empty_world) as [[] w'| |] eqn:E;
    [|vm_compute in E; discriminate..].
  exact (proj2 (proj2 (proj2 (menu_snake_size 50 empty_world w' E)))).
Defined.

(** X17: a tick of the main menu without Space: the snake is never checked
    for death or food, so the game stays in the menu with the score as it
    was, and the snake keeps its number of segments, whether it moved or
    not. *)
Theorem menu_tick_keeps_snake (fuel : nat) (k : Keys.Keys) (e : error) (n : Z)
    (w w' : World) :
  G.state (game w) = StateMainMenu ->
  Keys.Q k = false -> Keys.Space k = false ->
  3 <= n < GoInt.max_int -> snake_sized n w ->
  Update fuel k w = Ok e w' ->
  G.state (game w') = StateMainMenu /\
  G.score (game w') = G.score (game w) /\
  snake_sized n w'.
Proof.
  intros Hst HQ Hspace Hn Hs H. unfold Update in H. rewrite HQ in H.
  apply bind_Ok in H as (g & w0 & Hg & H). injection Hg as <- <-.
  apply bind_Ok in H as ([] & w1 & H & Hret). injection Hret as _ <-.
  rewrite Hst in H. unfold UpdateMainMenu in H. rewrite Hspace in H.
  rewrite (bind_step _ _ w w tt) in H by reflexivity.
  apply bind_Ok in H as (g1 & w2 & Hg & H). injection Hg as <- <-.
  apply bind_Ok in H as ([] & w2 & Hm & H). injection Hm as <-.
  apply bind_Ok in H as (g2 & w3 & Hg & H). injection Hg as <- <-.
  apply bind_Ok in H as ([] & w4 & Hmove & Htongue).
  pose proof (RandomSnakeTongue_frame _ _ Htongue) as (Hscore & _ & Hstate).
  apply RandomSnakeTongue_quiet in Htongue.
  rewrite Hscore, Hstate.
  set (wt := set_game (G.set_ticks (GoInt.add (G.ticks (game w)) 1) (game w)) w)
    in *.
  assert (Hst4 : G.state (game w4) = StateMainMenu /\
                 G.score (game w4) = G.score (game w) /\ snake_sized n w4).
  { destruct (_ >=? _) in Hmove.
    2:{ injection Hmove as <-. repeat split; [exact Hst|].
        destruct Hs as (p & b & Hs). now exists p, b. }
    apply bind_Ok in Hmove as ([] & w5 & Hm & Hmove). injection Hm as <-.
    apply bind_Ok in Hmove as (f & w6 & Hf & Hmove).
    apply head_facing_pure in Hf as ->.
    apply bind_Ok in Hmove as (d & w7 & Hd & Hmove).
    pose proof (RandomSnakeDirection_game _ _ _ _ _ Hd) as Hg7. simpl in Hg7.
    apply RandomSnakeDirection_quiet in Hd. destruct Hd as (Hh7 & _).
    simpl in Hh7.
    destruct Hs as (p & b & Hp & Hb & Hlen & Hcnt & Hgrow).
    simpl in Hmove. rewrite Hp in Hmove.
    assert (Hb7 : heap w7 !! p = Some b) by now rewrite Hh7.
    rewrite (SnakeMove_alive fuel w7 p b d false false Hb7 ltac:(discriminate))
      in Hmove.
    destruct (SnakeMove_body w7 p b d Hb7 ltac:(congruence) ltac:(lia))
      as (w8 & b8 & Hrun & Hb8 & Hg8 & Hl8 & Hc8 & Hgame8).
    rewrite (bind_step _ _ _ _ _ Hrun) in Hmove. injection Hmove as <-.
    rewrite Hgame8, Hg7. simpl. repeat split; [exact Hst|].
    exists p, b8. rewrite Hgame8, Hg7. simpl.
    rewrite Hgrow in Hl8. repeat split; try assumption; congruence. }
  destruct Hst4 as (Hst4 & Hsc4 & Hs4).
  repeat split; try assumption. exact (snake_sized_quiet _ _ _ Htongue Hs4).
Qed.

Lemma menu_tick_keeps_snake_witness :
  match Update 10 Keys.none menu_world with
  | Ok _ w' =>
      G.state (game w') = StateMainMenu /\
      G.score (game w') = G.score (game menu_world) /\
      snake_sized 3 w'
  | _ => False
  end.
Proof.
  destruct (Update 10 Keys.none menu_world) as [e w'| |] eqn:E;
    [|vm_compute in E; discriminate..].
  apply (menu_tick_keeps_snake 10 Keys.none e 3 menu_world w');
    [reflexivity | reflexivity | reflexivity | unfold GoInt.max_int; lia | | exact E].
  exists 1%positive, straight. now repeat split.
Defined.

(** ** Game over and the dying snake *)

(** X18: on the game-over screen Space starts a new session, also when
    Escape is held too: the game is in StateGameStart with score 0, the
    countdown at 3, 30 ticks per move, direction UP and a new snake of three
    at the centre of the board; Escape alone leads to the main menu; and
    with neither key (and no Q) the tick changes nothing at all. *)
Theorem game_over_keys (fuel : nat) (k : Keys.Keys) (e : error) (w w' : World) :
  G.state (game w) = StateGameOver -> Keys.Q k = false ->
  Update fuel k w = Ok e w' ->
  (Keys.Space k = true ->
   G.state (game w') = StateGameStart /\ G.score (game w') = 0 /\
   G.countDownNum (game w') = 3 /\ G.ticksPerMovement (game w') = 30 /\
   G.SnakeDirection (game w') = UP /\
   active_chain w'
   = Some (spawn_chain (GoInt.div (G.width (game w)) 2)
                       (GoInt.div (G.height (game w)) 2))) /\
  (Keys.Space k = false -> Keys.Escape k = true ->
   G.state (game w') = StateMainMenu) /\
  (Keys.Space k = false -> Keys.Escape k = false -> w' = w).
Proof.
  intros Hst HQ H. unfold Update in H. rewrite HQ in H.
  apply bind_Ok in H as (g & w0 & Hg & H). injection Hg as <- <-.
  apply bind_Ok in H as ([] & w1 & H & Hret). injection Hret as _ <-.
  rewrite Hst in H. unfold UpdateGameOver in H.
  destruct (Keys.Space k); [|destruct (Keys.Escape k)].
  - split; [|split; discriminate]. intros _. unfold ChangeState in H.
    apply bind_Ok in H as ([] & w2 & Hr & H). injection H as <-.
    apply Reset_effect in Hr
      as (_ & _ & _ & _ & Htpm & Hdir & Hnum & Hscore & _ & _ & l & _ & Hp & Hheap).
    simpl. repeat split; try assumption.
    unfold active_chain. simpl. now rewrite Hp, Hheap, lookup_insert_eq.
  - split; [discriminate|]. split; [|discriminate]. intros _ _.
    unfold ChangeState in H.
    apply bind_Ok in H as ([] & w2 & _ & H). now injection H as <-.
  - split; [discriminate|]. split; [discriminate|]. intros _ _. now injection H.
Qed.

Lemma game_over_keys_witness :
  match Update 10 space over_world with
  | Ok _ w' => G.state (game w') = StateGameStart /\ G.score (game w') = 0
  | _ => False
  end.
Proof.
  destruct (Update 10 space over_world) as [e w'| |] eqn:E;
    [|vm_compute in E; discriminate..].
  destruct (game_over_keys 10 space e over_world w') as (H & _);
    [reflexivity | reflexivity | exact E |].
  destruct (H eq_refl) as (H1 & H2 & _). now split.
Defined.

(** X19: in the dying phase the keys other than Q are ignored, and a tick
    does nothing to the snake but mark segments as skeleton: every segment
    keeps its cell, facing and tile, the counter and the growth flag stay,
    and so do the score, the food and the other bodies. *)
Theorem dying_phase_frozen (fuel : nat) (k : Keys.Keys) (e : error)
    (w w' : World) (p : loc) (b : Body.SnakeBody) :
  G.state (game w) = StateGameEnd -> Keys.Q k = false ->
  G.SnakeBody (game w) = Some p -> heap w !! p = Some b ->
  Update fuel k w = Ok e w' ->
  Update fuel Keys.none w = Ok e w' /\
  G.score (game w') = G.score (game w) /\
  G.food (game w') = G.food (game w) /\
  G.SnakeBody (game w') = Some p /\
  (forall q, q <> p -> heap w' !! q = heap w !! q) /\
  exists b',
    heap w' !! p = Some b' /\
    Body.length b' = Body.length b /\ Body.grow b' = Body.grow b /\
    Forall2 (fun s s' => s' = s \/ s' = Seg.set_skeleton true s)
            (Body.Head b) (Body.Head b').
Proof.
  intros Hst HQ Hp Hb H.
  assert (Hsame : Update fuel Keys.none w = Update fuel k w).
  { unfold Update. rewrite HQ. simpl (Keys.Q Keys.none). cbv iota.
    unfold bind, get_game. now rewrite Hst. }
  split; [now rewrite Hsame|].
  unfold Update in H. rewrite HQ in H.
  apply bind_Ok in H as (g & w0 & Hg & H). injection Hg as <- <-.
  apply bind_Ok in H as ([] & w1 & H & Hret). injection Hret as <- <-.
  rewrite Hst in H. unfold UpdateEndGame in H.
  apply bind_Ok in H as (g1 & w2 & Hg & H). injection Hg as <- <-.
  apply bind_Ok in H as ([] & w2 & Hm & H). injection Hm as <-.
  apply bind_Ok in H as (g2 & w3 & Hg & H). injection Hg as <- <-.
  assert (Hrefl : Forall2 (fun s s' : Seg.SnakeBodySegment =>
                             s' = s \/ s' = Seg.set_skeleton true s)
                          (Body.Head b) (Body.Head b)).
  { apply Forall2_same_length_lookup_2; [reflexivity|].
    intros i x y Hx Hy. left. congruence. }
  destruct (_ >=? _) in H.
  2:{ injection H as <-. simpl. repeat split; try assumption. now exists b. }
  apply bind_Ok in H as ([] & w4 & Hm & H). injection Hm as <-.
  apply bind_Ok in H as (b0 & w5 & Hb0 & H).
  apply deref_Ok in Hb0 as (-> & l & Hl & Hb0). simpl in Hl, Hb0.
  rewrite Hp in Hl. injection Hl as <-. rewrite Hb in Hb0. injection Hb0 as <-.
  destruct (Body.Head b) as [|s t] eqn:Hh; [discriminate|].
  destruct (skeletonize (s :: t)) as [chain'|] eqn:Hsk.
  - simpl in H. rewrite Hp in H. rewrite store_Some in H. injection H as <-.
    simpl. repeat split; try assumption.
    + intros q Hq. now rewrite lookup_insert_ne by congruence.
    + eexists. rewrite lookup_insert_eq. split; [reflexivity|]. simpl.
      repeat split. now apply skeletonize_tiles.
  - unfold ChangeState in H. simpl in H. injection H as <-.
    simpl. repeat split; try assumption. exists b. rewrite Hh. now repeat split.
Qed.

Lemma dying_phase_frozen_witness :
  match Update 10 space dying_five with
  | Ok e w' => Update 10 Keys.none dying_five = Ok e w'
  | _ => False
  end.
Proof.
  destruct (Update 10 space dying_five) as [e w'| |] eqn:E;
    [|vm_compute in E; discriminate..].
  exact (proj1 (dying_phase_frozen 10 space e dying_five w' 1%positive five
                  eq_refl eq_refl eq_refl eq_refl E)).
Defined.

(** ** The snake does not overlap itself *)

(* on a board at least 2 wide and 2 high a step leaves the cell *)
Lemma next_pos_moves (width height : Z) (h : Seg.SnakeBodySegment)
    (d : snakeDirection) :
  2 <= width <= GoInt.max_int -> 2 <= height <= GoInt.max_int ->
  next_pos width height h d <> cell h.
Proof.
  unfold GoInt.max_int, next_pos, cell. intros Hw Hh.
  rewrite !(sub_exact width 1), !(sub_exact height 1)
    by (apply in_range_bounds; lia).
  assert (Hadd : forall v, 0 <= v <= 9223372036854775806 -> GoInt.add v 1 = v + 1)
    by (intros v Hv; apply add_exact, in_range_bounds; lia).
  assert (Hsub : forall v, 0 <= v <= 9223372036854775807 -> GoInt.sub v 1 = v - 1)
    by (intros v Hv; apply sub_exact, in_range_bounds; lia).
  destruct d; intros [= Hx Hy].
  - revert Hy. destruct (Z.ltb_spec (GoInt.sub (Seg.y h) 1) 0) as [Hneg|Hpos].
    + destruct (Z.gtb_spec (height - 1) (height - 1)); [lia|]. intros Heq.
      rewrite Hsub in Hneg by lia. lia.
    + destruct (Z.gtb_spec (GoInt.sub (Seg.y h) 1) (height - 1)) as [Hbig|Hin].
      * intros Heq. rewrite Hsub in Hpos by lia. lia.
      * intros Heq. rewrite Heq in Hin, Hpos. rewrite Hsub in Heq by lia. lia.
  - revert Hy. destruct (Z.ltb_spec (GoInt.add (Seg.y h) 1) 0) as [Hneg|Hpos].
    + destruct (Z.gtb_spec (height - 1) (height - 1)); [lia|]. intros Heq.
      rewrite Hadd in Hneg by lia. lia.
    + destruct (Z.gtb_spec (GoInt.add (Seg.y h) 1) (height - 1)) as [Hbig|Hin].
      * intros Heq. rewrite Hadd in Hbig by lia. lia.
      * intros Heq. rewrite Heq in Hin, Hpos. rewrite Hadd in Heq by lia. lia.
  - revert Hx. destruct (Z.ltb_spec (GoInt.sub (Seg.x h) 1) 0) as [Hneg|Hpos].
    + destruct (Z.gtb_spec (width - 1) (width - 1)); [lia|]. intros Heq.
      rewrite Hsub in Hneg by lia. lia.
    + destruct (Z.gtb_spec (GoInt.sub (Seg.x h) 1) (width - 1)) as [Hbig|Hin].
      * intros Heq. rewrite Hsub in Hpos by lia. lia.
      * intros Heq. rewrite Heq in Hin, Hpos. rewrite Hsub in Heq by lia. lia.
  - revert Hx. destruct (Z.ltb_spec (GoInt.add (Seg.x h) 1) 0) as [Hneg|Hpos].
    + destruct (Z.gtb_spec (width - 1) (width - 1)); [lia|]. intros Heq.
      rewrite Hadd in Hneg by lia. lia.
    + destruct (Z.gtb_spec (GoInt.add (Seg.x h) 1) (width - 1)) as [Hbig|Hin].
      * intros Heq. rewrite Hadd in Hbig by lia. lia.
      * intros Heq. rewrite Heq in Hin, Hpos. rewrite Hadd in Heq by lia. lia.
Qed.

(* a death check of the game's own snake that finds nothing *)
Lemma SnakeCheckDeath_false (w : World) (p : loc) (b : Body.SnakeBody)
    (h : Seg.SnakeBodySegment) (t : list Seg.SnakeBodySegment) (d : snakeDirection) :
  G.SnakeBody (game w) = Some p -> heap w !! p = Some b -> Body.Head b = h :: t ->
  SnakeCheckDeath (Some p) d w = Ok false w ->
  next_pos (G.width (game w)) (G.height (game w)) h d ∉ map cell t.
Proof.
  intros Hp Hb Hh H. destruct t as [|s t]; [apply not_elem_of_nil|].
  rewrite (SnakeCheckDeath_scan w p p b b h h s (s :: t) t d Hb Hh Hp Hb Hh) in H.
  destruct (next_pos _ _ h d) as [x y]. injection H as H.
  change (occupies x y (s :: t) = false) in H. intros Hin. change (map cell (s :: t)) with (cell <$> (s :: t)) in Hin.
  apply list_elem_of_fmap in Hin as (s0 & Hc & Hin).
  assert (occupies x y (s :: t) = true); [|congruence].
  apply occupies_spec. exists s0. split; [exact Hin|]. now rewrite Hc.
Qed.


Lemma no_overlap_ext (w w' : World) :
  active_chain w' = active_chain w -> no_overlap w -> no_overlap w'.
Proof. intros Ha (chain & Hc & Hn). exists chain. split; congruence. Qed.

Lemma spawn_chain_cells (width height : Z) :
  2 <= height <= GoInt.max_int ->
  NoDup (map cell (spawn_chain (GoInt.div width 2) (GoInt.div height 2))).
Proof.
  unfold GoInt.max_int. intros Hh.
  assert (Hq : 0 <= height `quot` 2 <= 4611686018427387903).
  { pose proof (Z.quot_rem' height 2). pose proof (Z.rem_bound_pos height 2). lia. }
  assert (Hy : GoInt.div height 2 = height `quot` 2).
  { unfold GoInt.div. simpl. apply wrap_in_range, in_range_bounds. lia. }
  unfold spawn_chain, cell. cbn [map Seg.x Seg.y]. rewrite Hy.
  rewrite !add_exact by (apply in_range_bounds; lia).
  generalize dependent (height `quot` 2). intros y _ _.
  repeat constructor; rewrite ?elem_of_cons, ?elem_of_nil;
    intros H'; repeat destruct H' as [H'|H']; try injection H' as H'; lia.
Qed.

(** X20: in a player session on a board at least two cells wide and high, no
    two segments of the snake are ever on the same cell: [Reset] spawns three
    segments in a column, and a move that passes the death check puts the new
    head on a cell that none of the kept segments has. *)
Theorem snake_never_overlaps (fuel : nat) (k : Keys.Keys) (e : error)
    (w w' : World) :
  2 <= G.width (game w) <= GoInt.max_int ->
  2 <= G.height (game w) <= GoInt.max_int ->
  (ChangeState fuel StateGameStart w = Ok tt w' -> no_overlap w') /\
  (G.state (game w) = StateGameStart \/ G.state (game w) = StateInGame ->
   no_overlap w -> Update fuel k w = Ok e w' -> no_overlap w').
Proof.
  intros Hwd Hht. split.
  - intros H. unfold ChangeState in H.
    apply bind_Ok in H as ([] & w1 & Hr & H). injection H as <-.
    apply Reset_effect in Hr
      as (_ & _ & _ & _ & _ & _ & _ & _ & _ & _ & l & _ & Hp & Hheap).
    eexists. unfold active_chain. simpl. rewrite Hp, Hheap, lookup_insert_eq.
    split; [reflexivity|]. simpl Body.Head. now apply spawn_chain_cells.
  - intros Hst Hok H. unfold Update in H.
    destruct (Keys.Q k); [now injection H as _ <-|].
    apply bind_Ok in H as (g & w0 & Hg & H). injection Hg as <- <-.
    apply bind_Ok in H as ([] & w1 & H & Hret). injection Hret as _ <-.
    destruct Hst as [Hst | Hst]; rewrite Hst in H.
    + apply bind_Ok in H as ([] & w2 & Hm & H). injection Hm as <-.
      apply bind_Ok in H as (g2 & w3 & Hg & H). injection Hg as <- <-.
      apply bind_Ok in H as ([] & w4 & Hdec & H).
      apply bind_Ok in H as (g4 & w5 & Hg & H). injection Hg as <- <-.
      assert (Hok4 : no_overlap w4).
      { destruct (_ >=? 60) in Hdec.
        - apply bind_Ok in Hdec as ([] & w5 & Hm & Hdec). injection Hm as <-.
          injection Hdec as <-. now apply (no_overlap_ext w).
        - injection Hdec as <-. now apply (no_overlap_ext w). }
      destruct (_ <? 0) in H; [|now injection H as <-].
      unfold ChangeState in H. simpl in H. injection H as <-.
      now apply (no_overlap_ext w4).
    + unfold UpdateInGame in H.
      apply bind_Ok in H as ([] & w2 & Hkeys & H).
      apply UpdateInGame_keys_quiet in Hkeys.
      pose proof (quiet_active_chain _ _ Hkeys) as Hkc.
      destruct Hkeys as (_ & Hw2 & Hh2 & _).
      assert (Hok2 : no_overlap w2) by now apply (no_overlap_ext w).
      clear Hok Hkc.
      apply bind_Ok in H as (g1 & w3 & Hg & H). injection Hg as <- <-.
      apply bind_Ok in H as ([] & w3 & Hm & H). injection Hm as <-.
      apply bind_Ok in H as (g2 & w4 & Hg & H). injection Hg as <- <-.
      apply bind_Ok in H as ([] & w5 & Hmove & Htongue).
      apply RandomSnakeTongue_quiet, quiet_active_chain in Htongue.
      apply (no_overlap_ext w5); [exact Htongue|].
      set (wt := set_game (G.set_ticks (GoInt.add (G.ticks (game w2)) 1) (game w2))
                   w2) in *.
      assert (Hokt : no_overlap wt) by now apply (no_overlap_ext w2).
      destruct (_ >=? _) in Hmove; [|now injection Hmove as <-].
      apply bind_Ok in Hmove as ([] & w6 & Hm & Hmove). injection Hm as <-.
      apply bind_Ok in Hmove as ([] & w7 & Hmove & Hspeed).
      apply bind_Ok in Hspeed as (g7 & w8 & Hg & Hspeed). injection Hg as <- <-.
      injection Hspeed as <-.
      apply (no_overlap_ext w7); [reflexivity|].
      set (w0 := set_game (G.set_ticks 0 (game wt)) wt) in *.
      assert (Hok0 : no_overlap w0) by now apply (no_overlap_ext wt).
      destruct Hok0 as (chain & Ha & Hnd).
      unfold active_chain in Ha.
      destruct (G.SnakeBody (game w0)) as [p|] eqn:Hp; [|discriminate].
      destruct (heap w0 !! p) as [b|] eqn:Hl; [|discriminate].
      injection Ha as Hh.
      match type of Hmove with
      | SnakeMove _ ?q ?d _ _ _ = _ =>
          change q with (G.SnakeBody (game w0)) in Hmove;
          change d with (G.SnakeDirection (game w0)) in Hmove
      end.
      rewrite Hp in Hmove.
      destruct chain as [|h t].
      { unfold SnakeMove in Hmove. simpl in Hmove.
        unfold SnakeCheckDeath, SnakeGetNextPos in Hmove.
        apply bind_Ok in Hmove as (dead & wd & Hd & _).
        apply bind_Ok in Hd as (pos & wp & Hd & _).
        apply bind_Ok in Hd as (g0 & wg & Hg & Hd). injection Hg as <- <-.
        apply bind_Ok in Hd as (b' & wb & Hd & Hd').
        apply deref_Ok in Hd as (-> & l' & [= <-] & Hl').
        change (heap w0 !! p = Some b') in Hl'.
        rewrite Hl in Hl'. injection Hl' as <-. rewrite Hh in Hd'. discriminate. }
      pose proof Hmove as Hmv.
      apply (SnakeMove_moved fuel p _ true true w0 w7 b h t Hl Hh) in Hmv
        as [(_ & _ & ->) | (Hdeath & w1' & b1 & rest & -> & _ & Hhead & (n & Hrest) & Hfood)].
      * exists (h :: t). unfold active_chain. simpl. simpl in Hp, Hl.
        rewrite Hp, Hl, Hh. split; [reflexivity | exact Hnd].
      * apply (food_check_calm fuel (Some p) true) in Hfood as [[_ Hc] _].
        eexists. rewrite Hc. unfold active_chain. simpl.
        simpl in Hp. rewrite Hp, lookup_insert_eq, Hhead.
        split; [reflexivity|]. simpl map. rewrite Hrest.
        specialize (Hdeath eq_refl).
        apply (SnakeCheckDeath_false w0 p b h t _ Hp Hl Hh) in Hdeath.
        pose proof (next_pos_moves (G.width (game w0)) (G.height (game w0)) h
                      (G.SnakeDirection (game w0))) as Hne.
        simpl in Hne, Hdeath. rewrite Hw2, Hh2 in Hne.
        specialize (Hne Hwd Hht).
        unfold cell at 1. simpl Seg.x. simpl Seg.y. rewrite <- surjective_pairing.
        apply NoDup_cons. split.
        -- intros Hin.
           pose proof (elem_of_sublist _ _ _ Hin (sublist_take _ _)) as Hin'.
           simpl in Hin'. apply elem_of_cons in Hin' as [Hx | Hx].
           ++ now rewrite Hw2, Hh2 in Hx.
           ++ exact (Hdeath Hx).
        -- apply (sublist_NoDup _ (map cell (h :: t))); [exact Hnd|].
           apply sublist_take.
Qed.

Lemma snake_never_overlaps_witness : no_overlap after_move.
Proof.
  destruct (snake_never_overlaps 10 Keys.none nil about_to_move after_move)
    as (_ & H); [simpl; unfold GoInt.max_int; lia .. |].
  apply H.
  - right. reflexivity.
  - exists [seg 13 10 UP SnakeHeadUp; seg 13 11 UP SnakeBodyUp;
            seg 13 12 UP SnakeTailUp].
    split; [reflexivity|]. apply NoDup_ListNoDup. simpl.
    repeat constructor; simpl; intuition discriminate.
  - reflexivity.
Defined.
